(** * Project dispatcher utilities of the Composer client

    A shallow embedding of
    [Composer/packages/client/src/recoilModel/dispatchers/utils/project.ts]:
    the settings merger ([mergeLocalStorage], [mergeLuisName],
    [getMergedSettings]), the project loader ([loadProjectData],
    [fetchProjectDataByPath], [fetchProjectDataById]), the failure handler
    ([handleProjectFailure]) and the skill-tree opener
    ([openRootBotAndSkills] with its promise callbacks); then the other
    functions of the file that work on plain data: the sensitive values
    and the properties managed by the root bot, the updaters of the
    parsed files and of their status, the runtime tests, the lookup in
    the bot-project file, the callers of the loader, the recent projects
    and the main dialog.

    The file has two parts: the model (definitions only), then the
    properties proved about it.

    Conventions of the model:
    - JavaScript data are trees ([JS.value]); the functions of the
      settings merger compute the value they return.  What the merge does
      in place to the objects it is given is described separately, over
      an object store ([Store]).
    - A property path such as ['luis.name'] is the list of its
      segments.  lodash [get] and [set] take the whole string as one key
      when the object has a property of that name, and go down the
      segments otherwise ([JS.castPath]).
    - Reads give the properties that data have of their own; the names
      that data inherit from the prototypes of the language
      ([JS.inherited]) are no plain names.
    - What the file imports from other modules and packages (the
      constants of [@bfc/shared], the REST client, the indexer, the
      pattern tests of the failure handler, ...) is a parameter.
    - An [async] call is described by the way its promise settles;
      callbacks run one at a time, to completion, in any order, and
      [set(atom, updater)] applies the updater at once. *)

From Stdlib Require Import ZArith String Ascii List Bool Lia.
From stdpp Require Import base option list strings gmap pretty.

Local Open Scope string_scope.
Local Open Scope list_scope.

(* ===================================================================== *)
(** * Part I: the model *)
(* ===================================================================== *)

(** ** JavaScript data

    Settings, local-storage entries, server responses and exceptions are
    JavaScript values.  Numbers are integers here ([NaN], fractions and
    the negative zero do not occur in what is modelled).  An object keeps
    its own properties in insertion order.  An array keeps its elements
    and, as every JavaScript array can, further named properties; a hole
    of a sparse array reads as [undefined] and is kept as [VUndefined]. *)
Module JS.

#[warnings="-register-all"]
Inductive value : Type :=
| VUndefined
| VNull
| VBool (b : bool)
| VNum (n : Z)
| VStr (s : string)
| VArr (elems : list value) (named : list (string * value))
| VObj (props : list (string * value)).

Definition props_t : Type := list (string * value).

(** Truthiness, as tested by [if (v)], [v || w] and [!v]. *)
Definition truthy (v : value) : bool :=
  match v with
  | VUndefined | VNull => false
  | VBool b => b
  | VNum n => negb (n =? 0)%Z
  | VStr s => negb (String.eqb s "")
  | VArr _ _ | VObj _ => true
  end.

(** [v == null]: the value is [null] or [undefined]. *)
Definition nullish (v : value) : bool :=
  match v with
  | VUndefined | VNull => true
  | _ => false
  end.

(** lodash [isObject]: arrays and objects (there are no functions here). *)
Definition isObject (v : value) : bool :=
  match v with
  | VArr _ _ | VObj _ => true
  | _ => false
  end.

(** [Array.isArray]. *)
Definition isArray (v : value) : bool :=
  match v with
  | VArr _ _ => true
  | _ => false
  end.

(** [a || b] and [a ?? b]. *)
Definition or_js (a b : value) : value := if truthy a then a else b.
Definition coalesce (a b : value) : value := if nullish a then b else a.

(** *** Property keys *)

Definition digit_of (a : ascii) : option N :=
  let n := N_of_ascii a in
  if ((48 <=? n) && (n <=? 57))%N then Some (n - 48)%N else None.

Fixpoint parse_digits (s : string) (acc : N) : option N :=
  match s with
  | EmptyString => Some acc
  | String a r =>
      match digit_of a with
      | Some d => parse_digits r (10 * acc + d)%N
      | None => None
      end
  end.

(** The number written by a canonical decimal key: ["0"], or digits with
    no leading zero (lodash [reIsUint]). *)
Definition uint_key (k : string) : option N :=
  match k with
  | EmptyString => None
  | String a EmptyString => digit_of a
  | String a _ => if Ascii.eqb a "0"%char then None else parse_digits k 0
  end.

(** An array index in the sense of the language: below [2^32 - 1]. *)
Definition array_index (k : string) : option nat :=
  match uint_key k with
  | Some n => if (n <? 2 ^ 32 - 1)%N then Some (N.to_nat n) else None
  | None => None
  end.

(** lodash [isIndex] with its default bound [MAX_SAFE_INTEGER]. *)
Definition isIndex (k : string) : bool :=
  match uint_key k with
  | Some n => (n <? 2 ^ 53 - 1)%N
  | None => false
  end.

(** Keys that lodash [set] refuses to assign. *)
Definition unsafe_key (k : string) : bool :=
  String.eqb k "__proto__" || String.eqb k "constructor"
  || String.eqb k "prototype".

(** A segment of a dotted path: a name with no dot and no bracket, as
    lodash [stringToPath] cuts them out of a string such as
    ['luis.name']. *)
Definition segment_char (a : ascii) : bool :=
  negb (Ascii.eqb a "."%char || Ascii.eqb a "["%char || Ascii.eqb a "]"%char).

Fixpoint segment (k : string) : bool :=
  match k with
  | EmptyString => true
  | String a r => segment_char a && segment r
  end.

(** The names of the properties that data inherit: those of
    [Object.prototype], [Array.prototype], [String.prototype],
    [Number.prototype] and [Boolean.prototype] (ECMAScript 2023 and its
    Annex B).  Reading [object[key]] follows the prototype chain: for
    one of these names, with no property of the object's own under it,
    the code gets a function of the runtime.  Functions are not values
    here, and [get_prop] below reads the properties an object has of its
    own: what is proved about a read is proved for keys outside this
    list. *)
Definition inherited_names : list string :=
  ["constructor"; "__defineGetter__"; "__defineSetter__"; "hasOwnProperty";
   "__lookupGetter__"; "__lookupSetter__"; "isPrototypeOf";
   "propertyIsEnumerable"; "toString"; "valueOf"; "__proto__";
   "toLocaleString";
   "at"; "concat"; "copyWithin"; "entries"; "every"; "fill"; "filter";
   "find"; "findIndex"; "findLast"; "findLastIndex"; "flat"; "flatMap";
   "forEach"; "includes"; "indexOf"; "join"; "keys"; "lastIndexOf"; "map";
   "pop"; "push"; "reduce"; "reduceRight"; "reverse"; "shift"; "slice";
   "some"; "sort"; "splice"; "toReversed"; "toSorted"; "toSpliced";
   "unshift"; "values"; "with";
   "charAt"; "charCodeAt"; "codePointAt"; "endsWith"; "isWellFormed";
   "localeCompare"; "match"; "matchAll"; "normalize"; "padEnd"; "padStart";
   "repeat"; "replace"; "replaceAll"; "search"; "split"; "startsWith";
   "substring"; "toLocaleLowerCase"; "toLocaleUpperCase"; "toLowerCase";
   "toUpperCase"; "toWellFormed"; "trim"; "trimEnd"; "trimStart";
   "substr"; "anchor"; "big"; "blink"; "bold"; "fixed"; "fontcolor";
   "fontsize"; "italics"; "link"; "small"; "strike"; "sub"; "sup";
   "trimLeft"; "trimRight";
   "toExponential"; "toFixed"; "toPrecision"].

Definition inherited (k : string) : bool :=
  existsb (String.eqb k) inherited_names.

(** A plain name: an ordinary data-property name, that is a segment,
    neither a decimal key, nor [length], nor one of the keys that
    lodash [set] refuses, nor an inherited name.  The segments of the
    property paths used by the dispatcher ([luis], [name],
    [MicrosoftAppPassword], ...) are plain names. *)
Definition plain_key (k : string) : bool :=
  match uint_key k with
  | Some _ => false
  | None =>
      negb (String.eqb k "length") && negb (unsafe_key k)
      && segment k && negb (inherited k)
  end.

(** *** Own properties *)

Fixpoint assoc_get {A : Type} (k : string) (ps : list (string * A))
    : option A :=
  match ps with
  | [] => None
  | (k', v) :: r => if String.eqb k k' then Some v else assoc_get k r
  end.

(** Assignment keeps the position of an existing key and appends a new
    one. *)
Fixpoint assoc_set {A : Type} (k : string) (v : A) (ps : list (string * A))
    : list (string * A) :=
  match ps with
  | [] => [(k, v)]
  | (k', v') :: r =>
      if String.eqb k k' then (k, v) :: r else (k', v') :: assoc_set k v r
  end.

(** [elems[i] = v], growing the array with holes when [i] is past its
    end. *)
Fixpoint store_at {A : Type} (hole : A) (i : nat) (v : A) (es : list A)
    : list A :=
  match i, es with
  | O, [] => [v]
  | O, _ :: r => v :: r
  | S j, [] => hole :: store_at hole j v []
  | S j, e :: r => e :: store_at hole j v r
  end.

(** [elems.length = n]. *)
Definition resize {A : Type} (hole : A) (n : nat) (es : list A) : list A :=
  firstn n es ++ repeat hole (n - length es).

Definition char_at (i : nat) (s : string) : option string :=
  match String.get i s with
  | Some c => Some (String c EmptyString)
  | None => None
  end.

(** [object[key]] for a data property.  A string has its [length] and its
    characters; other primitives have no data property. *)
Definition get_prop (object : value) (key : string) : value :=
  match object with
  | VObj ps => default VUndefined (assoc_get key ps)
  | VArr es nm =>
      if String.eqb key "length" then VNum (Z.of_nat (length es))
      else match array_index key with
           | Some i => nth i es VUndefined
           | None => default VUndefined (assoc_get key nm)
           end
  | VStr s =>
      if String.eqb key "length" then VNum (Z.of_nat (String.length s))
      else match array_index key with
           | Some i => from_option VStr VUndefined (char_at i s)
           | None => VUndefined
           end
  | _ => VUndefined
  end.

(** [object[key] = v] on an object or array.  Assigning the [length] of
    an array resizes it when [v] is a valid length; any other [v] raises
    a [RangeError] in JavaScript, which this total function does not
    show: it leaves the array as it is.  No property path of this module
    has a [length] segment. *)
Definition set_prop (object : value) (key : string) (v : value) : value :=
  match object with
  | VObj ps => VObj (assoc_set key v ps)
  | VArr es nm =>
      if String.eqb key "length" then
        match v with
        | VNum n =>
            if ((0 <=? n) && (n <? 2 ^ 32))%Z
            then VArr (resize VUndefined (Z.to_nat n) es) nm
            else object
        | _ => object
        end
      else match array_index key with
           | Some i => VArr (store_at VUndefined i v es) nm
           | None => VArr es (assoc_set key v nm)
           end
  | _ => object
  end.

(** *** Property paths (lodash [get], [set])

    A path is the sequence of segments lodash derives from a dotted
    string: ['luis.name'] is [["luis"; "name"]], and the string is got
    back by [dotted]. *)
Definition path : Type := list string.

Definition dotted (p : path) : string := String.concat "." p.

(** [key in Object(object)], for a key that no prototype defines: the
    object has a property of its own under the key.  [castPath] asks
    this of a dotted name, which is neither [length] nor an index. *)
Definition has_key (object : value) (key : string) : bool :=
  match object with
  | VObj ps => bool_decide (is_Some (assoc_get key ps))
  | VArr es nm =>
      String.eqb key "length"
      || match array_index key with
         | Some i => Nat.ltb i (length es)
         | None => bool_decide (is_Some (assoc_get key nm))
         end
  | VStr s =>
      String.eqb key "length"
      || match array_index key with
         | Some i => Nat.ltb i (String.length s)
         | None => false
         end
  | _ => false
  end.

(** lodash [castPath]: a dotted string of several segments is used as
    one key when the object has a property of that very name
    ([isKey]), and is cut into its segments otherwise.  A string of one
    segment is a key in any case. *)
Definition castPath (p : path) (object : value) : path :=
  match p with
  | _ :: _ :: _ => if has_key object (dotted p) then [dotted p] else p
  | _ => p
  end.

(** lodash [baseGet]'s loop: stop at [null] or [undefined]. *)
Fixpoint baseGet (object : value) (p : path) : value :=
  match p with
  | [] => object
  | k :: rest =>
      if nullish object then VUndefined else baseGet (get_prop object k) rest
  end.

(** [objectGet(object, path)]: an empty key sequence yields
    [undefined]. *)
Definition objectGet (object : value) (p : path) : value :=
  match p with
  | [] => VUndefined
  | _ => baseGet object (castPath p object)
  end.

(** [objectGet(object, path, defaultValue)]. *)
Definition objectGetOr (object : value) (p : path) (dflt : value) : value :=
  match objectGet object p with
  | VUndefined => dflt
  | r => r
  end.

(** lodash [baseSet] from one nesting level down: [nested] is an object
    or array.  A missing or primitive intermediate value is replaced by
    [[]] when the next key is an index and by [{}] otherwise; the
    assignment stops at an unsafe key. *)
Definition fresh_for (nextKey : string) : value :=
  if isIndex nextKey then VArr [] [] else VObj [].

Fixpoint baseSet (nested : value) (p : path) (v : value) : value :=
  match p with
  | [] => nested
  | [k] => if unsafe_key k then nested else set_prop nested k v
  | k :: ((k2 :: _) as rest) =>
      if unsafe_key k then nested
      else
        let objValue := get_prop nested k in
        let newValue :=
          if isObject objValue then objValue else fresh_for k2 in
        set_prop nested k (baseSet newValue rest v)
  end.

(** [objectSet(object, path, v)]: the object after the assignment (the
    code below only ever uses the object it passed in). *)
Definition objectSet (object : value) (p : path) (v : value) : value :=
  if isObject object then baseSet object (castPath p object) v else object.

(** *** Copies *)

Fixpoint indexed_from {A : Type} (i : nat) (es : list A)
    : list (string * A) :=
  match es with
  | [] => []
  | e :: r => (pretty i, e) :: indexed_from (S i) r
  end.

Fixpoint chars_of (s : string) : list string :=
  match s with
  | EmptyString => []
  | String c r => String c EmptyString :: chars_of r
  end.

(** [{ ...v }]: a new object with the own enumerable properties of
    [v]. *)
Definition spread (v : value) : value :=
  match v with
  | VObj ps => VObj ps
  | VArr es nm => VObj (indexed_from 0 es ++ nm)
  | VStr s => VObj (indexed_from 0 (map VStr (chars_of s)))
  | _ => VObj []
  end.

(** lodash [cloneDeep].  An array is cloned element by element: its named
    properties are not carried over.  (lodash makes one exception, for
    [index] and [input] of an array that has an own [index] and a string
    as first element, as [RegExp#exec] returns them; arrays of parsed
    JSON have no such property.) *)
Fixpoint cloneDeep (v : value) : value :=
  match v with
  | VArr es _ => VArr (map cloneDeep es) []
  | VObj ps => VObj (map (fun kv => (fst kv, cloneDeep (snd kv))) ps)
  | _ => v
  end.

(** Data as [JSON.parse] produces it: no array carries a named
    property. *)
Fixpoint json (v : value) : bool :=
  match v with
  | VArr es nm =>
      forallb json es && match nm with [] => true | _ => false end
  | VObj ps => forallb (fun kv => json (snd kv)) ps
  | _ => true
  end.

(** Induction on values that reaches the elements of arrays and the
    property values of objects. *)
Section ValueInd.
Variable P : value -> Prop.
Hypothesis Hundef : P VUndefined.
Hypothesis Hnull : P VNull.
Hypothesis Hbool : forall b, P (VBool b).
Hypothesis Hnum : forall n, P (VNum n).
Hypothesis Hstr : forall s, P (VStr s).
Hypothesis Harr : forall es nm,
    Forall P es -> Forall (fun kv => P (snd kv)) nm -> P (VArr es nm).
Hypothesis Hobj : forall ps,
    Forall (fun kv => P (snd kv)) ps -> P (VObj ps).

Fixpoint value_ind' (v : value) : P v :=
  let fix elems (l : list value) : Forall P l :=
    match l with
    | [] => List.Forall_nil _
    | x :: r => List.Forall_cons _ x r (value_ind' x) (elems r)
    end in
  let fix fields (l : list (string * value))
      : Forall (fun kv => P (snd kv)) l :=
    match l with
    | [] => List.Forall_nil _
    | kv :: r =>
        List.Forall_cons (fun kv => P (snd kv)) kv r (value_ind' (snd kv)) (fields r)
    end in
  match v with
  | VUndefined => Hundef
  | VNull => Hnull
  | VBool b => Hbool b
  | VNum n => Hnum n
  | VStr s => Hstr s
  | VArr es nm => Harr es nm (elems es) (fields nm)
  | VObj ps => Hobj ps (fields ps)
  end.
End ValueInd.

End JS.

(** ** The settings merger (project.ts, lines 151-213) *)
Module Settings.
Import JS.

(** Modelled from the spec: [utils/dialogSettingStorage] is not among the
    sources.  The browser-local store keeps one settings entry per
    project id; [settingStorage.get] returns the entry, [undefined] when
    the project has none. *)
Definition settingStorage_get (storage : gmap string value)
    (projectId : string) : value :=
  default VUndefined (storage !! projectId).

Section Merger.

(** The constants [SensitiveProperties] and [RootBotManagedProperties]
    and the function [convertSkillsToDictionary] come from the package
    [@bfc/shared], which is not among the sources. *)
Variables SensitiveProperties RootBotManagedProperties : list path.
Variable convertSkillsToDictionary : value -> value.

(** [Array.prototype.includes] on a list of property paths. *)
Definition includes (l : list path) (property : path) : bool :=
  bool_decide (property ∈ l).

(** The body of the [for] loop of [mergeLocalStorage]. *)
Definition mergeProperty (localSetting mergedSettings : value)
    (property : path) : value :=
  if includes RootBotManagedProperties property then mergedSettings
  else
    let value := objectGet localSetting property in
    if truthy value then objectSet mergedSettings property value
    else objectSet mergedSettings property (VStr "").

Definition mergeLocalStorage (storage : gmap string value)
    (projectId : string) (settings : value) : value :=
  let localSetting := settingStorage_get storage projectId in
  let mergedSettings := spread settings in
  if truthy localSetting
  then fold_left (mergeProperty localSetting) SensitiveProperties
         mergedSettings
  else mergedSettings.

Definition mergeLuisName (settings : value) (botName : value) : value :=
  let mergedSettings := cloneDeep settings in
  let luisName :=
    or_js (objectGetOr mergedSettings ["luis"; "name"] (VStr "")) botName in
  objectSet mergedSettings ["luis"; "name"] luisName.

Definition getMergedSettings (storage : gmap string value)
    (projectId : string) (settings : value) (botName : value) : value :=
  let mergedSettings := mergeLocalStorage storage projectId settings in
  let mergedSettings := mergeLuisName mergedSettings botName in
  match get_prop mergedSettings "skill" with
  | VArr elems _ =>
      let skillsArr := VArr (map spread elems) [] in
      set_prop mergedSettings "skill" (convertSkillsToDictionary skillsArr)
  | _ => mergedSettings
  end.

End Merger.

(** Two paths interfere when one is a prefix of the other: assigning at
    one changes what is read at the other. *)
Fixpoint comparable (p q : path) : bool :=
  match p, q with
  | [], _ | _, [] => true
  | k :: p', k' :: q' => String.eqb k k' && comparable p' q'
  end.

Definition plain_path (p : path) : bool := forallb plain_key p.

(** The properties the local-storage merge assigns: the sensitive ones
    that the root bot does not manage. *)
Definition localProperties (SensitiveProperties RootBotManagedProperties
    : list path) : list path :=
  List.filter (fun p => negb (includes RootBotManagedProperties p))
    SensitiveProperties.

(** What the loop assigns at a property. *)
Definition localValue (localSetting : value) (property : path) : value :=
  if truthy (objectGet localSetting property)
  then objectGet localSetting property else VStr "".

(** Non-empty paths of plain names, none a prefix of another. *)
Definition independent (l : list path) : bool :=
  forallb (fun p =>
    match p with [] => false | _ => true end && plain_path p &&
    forallb (fun q => bool_decide (p = q) || negb (comparable p q)) l) l.

(** No path of [l] interferes with [r]. *)
Definition apart_from (l : list path) (r : path) : bool :=
  forallb (fun p => negb (comparable p r)) l.

(** No array lies on the way to the last key of [p] in [object]: every
    value the assignment at [p] steps through or assigns into is a plain
    object, a primitive or missing.  This is the shape the type
    [DialogSetting] gives to the containers of the sensitive
    properties. *)
Fixpoint record_route (object : value) (p : path) : bool :=
  match p with
  | [] => true
  | k :: rest => negb (isArray object) && record_route (get_prop object k) rest
  end.

End Settings.

(** ** The same merge over an object store

    [mergeLocalStorage] works on [{ ...settings }], a copy of the top
    level only, and assigns into it with lodash [set].  What that does to
    the objects the caller passed in depends on which objects are
    shared; this module keeps objects in a store, by reference. *)
Module Store.
Import JS.

Inductive hvalue : Type :=
| HUndefined
| HNull
| HBool (b : bool)
| HNum (n : Z)
| HStr (s : string)
| HRef (l : nat).

Inductive cell : Type :=
| CArr (elems : list hvalue) (named : list (string * hvalue))
| CObj (props : list (string * hvalue)).

(** A reference is a position in the store; allocation appends. *)
Definition store : Type := list cell.

Definition alloc (h : store) (c : cell) : store * hvalue :=
  (h ++ [c], HRef (length h)).

Definition truthy (v : hvalue) : bool :=
  match v with
  | HUndefined | HNull => false
  | HBool b => b
  | HNum n => negb (n =? 0)%Z
  | HStr s => negb (String.eqb s "")
  | HRef _ => true
  end.

Definition nullish (v : hvalue) : bool :=
  match v with
  | HUndefined | HNull => true
  | _ => false
  end.

Definition get_prop (h : store) (object : hvalue) (key : string) : hvalue :=
  match object with
  | HRef l =>
      match h !! l with
      | Some (CObj ps) => default HUndefined (assoc_get key ps)
      | Some (CArr es nm) =>
          if String.eqb key "length" then HNum (Z.of_nat (length es))
          else match array_index key with
               | Some i => nth i es HUndefined
               | None => default HUndefined (assoc_get key nm)
               end
      | None => HUndefined
      end
  | HStr s =>
      if String.eqb key "length" then HNum (Z.of_nat (String.length s))
      else match array_index key with
           | Some i => from_option HStr HUndefined (char_at i s)
           | None => HUndefined
           end
  | _ => HUndefined
  end.

(** [object[key] = v] where [object] is the object at [l]: the cell is
    updated in place, so every holder of the reference sees it. *)
Definition set_prop (h : store) (l : nat) (key : string) (v : hvalue)
    : store :=
  match h !! l with
  | Some (CObj ps) => <[l := CObj (assoc_set key v ps)]> h
  | Some (CArr es nm) =>
      if String.eqb key "length" then
        match v with
        | HNum n =>
            if ((0 <=? n) && (n <? 2 ^ 32))%Z
            then <[l := CArr (resize HUndefined (Z.to_nat n) es) nm]> h
            else h
        | _ => h
        end
      else match array_index key with
           | Some i => <[l := CArr (store_at HUndefined i v es) nm]> h
           | None => <[l := CArr es (assoc_set key v nm)]> h
           end
  | None => h
  end.

Fixpoint baseGet (h : store) (object : hvalue) (p : path) : hvalue :=
  match p with
  | [] => object
  | k :: rest =>
      if nullish object then HUndefined
      else baseGet h (get_prop h object k) rest
  end.

(** [key in Object(object)] and lodash [castPath], as in [JS]. *)
Definition has_key (h : store) (object : hvalue) (key : string) : bool :=
  match object with
  | HRef l =>
      match h !! l with
      | Some (CObj ps) => bool_decide (is_Some (assoc_get key ps))
      | Some (CArr es nm) =>
          String.eqb key "length"
          || match array_index key with
             | Some i => Nat.ltb i (length es)
             | None => bool_decide (is_Some (assoc_get key nm))
             end
      | None => false
      end
  | HStr s =>
      String.eqb key "length"
      || match array_index key with
         | Some i => Nat.ltb i (String.length s)
         | None => false
         end
  | _ => false
  end.

Definition castPath (h : store) (p : path) (object : hvalue) : path :=
  match p with
  | _ :: _ :: _ => if has_key h object (dotted p) then [dotted p] else p
  | _ => p
  end.

Definition objectGet (h : store) (object : hvalue) (p : path) : hvalue :=
  match p with
  | [] => HUndefined
  | _ => baseGet h object (castPath h p object)
  end.

(** lodash [baseSet]: an intermediate object is stepped into, not
    copied. *)
Fixpoint baseSet (h : store) (nested : nat) (p : path) (v : hvalue)
    : store :=
  match p with
  | [] => h
  | [k] => if unsafe_key k then h else set_prop h nested k v
  | k :: ((k2 :: _) as rest) =>
      if unsafe_key k then h
      else
        match get_prop h (HRef nested) k with
        | HRef l => baseSet h l rest v
        | _ =>
            let fresh := length h in
            let h1 := h ++ [if isIndex k2 then CArr [] [] else CObj []] in
            baseSet (set_prop h1 nested k (HRef fresh)) fresh rest v
        end
  end.

Definition objectSet (h : store) (object : hvalue) (p : path) (v : hvalue)
    : store :=
  match object with
  | HRef l => baseSet h l (castPath h p object) v
  | _ => h
  end.

(** [{ ...v }]: a new object; the property values are shared with
    [v]. *)
Definition spread (h : store) (v : hvalue) : store * hvalue :=
  match v with
  | HRef l =>
      match h !! l with
      | Some (CObj ps) => alloc h (CObj ps)
      | Some (CArr es nm) => alloc h (CObj (indexed_from 0 es ++ nm))
      | None => alloc h (CObj [])
      end
  | HStr s => alloc h (CObj (indexed_from 0 (map HStr (chars_of s))))
  | _ => alloc h (CObj [])
  end.

Section Merger.
Variables SensitiveProperties RootBotManagedProperties : list path.

Definition mergeProperty (localSetting mergedSettings : hvalue)
    (h : store) (property : path) : store :=
  if bool_decide (property ∈ RootBotManagedProperties) then h
  else
    let value := objectGet h localSetting property in
    if truthy value then objectSet h mergedSettings property value
    else objectSet h mergedSettings property (HStr "").

(** [mergeLocalStorage], given the references of the stored entry and
    of the settings: the store after the call and the reference it
    returns. *)
Definition mergeLocalStorage (h : store) (localSetting settings : hvalue)
    : store * hvalue :=
  let '(h1, mergedSettings) := spread h settings in
  if truthy localSetting
  then (fold_left (mergeProperty localSetting mergedSettings)
          SensitiveProperties h1, mergedSettings)
  else (h1, mergedSettings).
End Merger.

(** Data placed in the store, one cell per object or array. *)
Fixpoint place (v : value) (h : store) : store * hvalue :=
  let place_props :=
    fix place_props (ps : list (string * value)) (h : store)
        : store * list (string * hvalue) :=
      match ps with
      | [] => (h, [])
      | kv :: r =>
          let '(h1, x) := place (snd kv) h in
          let '(h2, r') := place_props r h1 in
          (h2, (fst kv, x) :: r')
      end in
  match v with
  | VUndefined => (h, HUndefined)
  | VNull => (h, HNull)
  | VBool b => (h, HBool b)
  | VNum n => (h, HNum n)
  | VStr s => (h, HStr s)
  | VArr es nm =>
      let '(h1, es') :=
        (fix place_elems (es : list value) (h : store)
             : store * list hvalue :=
           match es with
           | [] => (h, [])
           | e :: r =>
               let '(h1, x) := place e h in
               let '(h2, r') := place_elems r h1 in
               (h2, x :: r')
           end) es h in
      let '(h2, nm') := place_props nm h1 in
      alloc h2 (CArr es' nm')
  | VObj ps =>
      let '(h1, ps') := place_props ps h in
      alloc h1 (CObj ps')
  end.

(** The data reachable from a value, read back to the given depth. *)
Fixpoint view (depth : nat) (h : store) (v : hvalue) : value :=
  match v with
  | HUndefined => VUndefined
  | HNull => VNull
  | HBool b => VBool b
  | HNum n => VNum n
  | HStr s => VStr s
  | HRef l =>
      match depth with
      | O => VUndefined
      | S d =>
          match h !! l with
          | Some (CObj ps) =>
              VObj (map (fun kv => (fst kv, view d h (snd kv))) ps)
          | Some (CArr es nm) =>
              VArr (map (view d h) es)
                   (map (fun kv => (fst kv, view d h (snd kv))) nm)
          | None => VUndefined
          end
      end
  end.

(** A call [mergeLocalStorage(projectId, settings)] on freshly parsed
    data: what the call returns, and what the caller's [settings] object
    holds afterwards. *)
Definition run_mergeLocalStorage
    (SensitiveProperties RootBotManagedProperties : list path)
    (localSetting settings : value) : value * value :=
  let '(h0, s) := place settings [] in
  let '(h1, l) := place localSetting h0 in
  let '(h2, m) :=
    mergeLocalStorage SensitiveProperties RootBotManagedProperties h1 l s in
  (view (length h2) h2 m, view (length h2) h2 s).

End Store.

(** ** Exceptions and promises

    A call either returns or throws a JavaScript value.  An [async]
    function is described by how the promise it returns settles:
    [Returned] is fulfilment, [Thrown] is rejection, and [await] is
    [bind].  Promises that never settle are not described. *)
Module Exn.
Import JS.

Inductive outcome (A : Type) : Type :=
| Returned (a : A)
| Thrown (ex : value).
Arguments Returned {A} a.
Arguments Thrown {A} ex.

Definition bind {A B : Type} (c : outcome A) (k : A -> outcome B)
    : outcome B :=
  match c with
  | Returned a => k a
  | Thrown ex => Thrown ex
  end.

(** [try { body } catch (ex) { handler }]. *)
Definition try_catch {A : Type} (body : outcome A)
    (handler : value -> outcome A) : outcome A :=
  match body with
  | Returned a => Returned a
  | Thrown ex => handler ex
  end.

Declare Scope outcome_scope.
Delimit Scope outcome_scope with outcome.
Notation "x <- c ;; k" := (bind c (fun x => k))
  (at level 100, c at next level, right associativity) : outcome_scope.

Definition TypeError : value := VObj [("name", VStr "TypeError")].

(** Reading a property, or destructuring, throws on [null] and
    [undefined]. *)
Definition coercible (object : value) : outcome unit :=
  if nullish object then Thrown TypeError else Returned tt.

Definition member (object : value) (key : string) : outcome value :=
  if nullish object then Thrown TypeError
  else Returned (get_prop object key).

(** [object?.key]. *)
Definition optional (object : value) (key : string) : value :=
  if nullish object then VUndefined else get_prop object key.

Fixpoint mapM {A B : Type} (f : A -> outcome B) (l : list A)
    : outcome (list B) :=
  match l with
  | [] => Returned []
  | x :: r =>
      bind (f x) (fun y => bind (mapM f r) (fun ys => Returned (y :: ys)))
  end.

End Exn.

(** ** The project loader (project.ts, lines 245-399) *)
Module Loader.
Import JS Exn Settings.
Local Open Scope outcome_scope.

Definition emptyLgFile (id content : value) : value :=
  VObj [("id", id); ("content", content); ("diagnostics", VArr [] []);
        ("templates", VArr [] []); ("allTemplates", VArr [] []);
        ("imports", VArr [] []); ("isContentUnparsed", VBool true)].

Definition emptyResource : value :=
  VObj [("Sections", VArr [] []); ("Errors", VArr [] []);
        ("Content", VStr "")].

Definition emptyLuFile (id content : value) : value :=
  VObj [("id", id); ("content", content); ("diagnostics", VArr [] []);
        ("intents", VArr [] []); ("allIntents", VArr [] []);
        ("empty", VBool true); ("resource", emptyResource);
        ("imports", VArr [] []); ("isContentUnparsed", VBool true)].

Definition emptyQnaFile (id content : value) : value :=
  VObj [("id", id); ("content", content); ("diagnostics", VArr [] []);
        ("qnaSections", VArr [] []); ("imports", VArr [] []);
        ("options", VArr [] []); ("empty", VBool true);
        ("resource", emptyResource); ("isContentUnparsed", VBool true)].

(** [resources.map(({ id, content }) => make(id, content))]. *)
Definition mapResources (make : value -> value -> value)
    (resources : value) : outcome value :=
  match resources with
  | VArr elems _ =>
      files <- mapM (fun r => _ <- coercible r ;;
                              Returned (make (get_prop r "id")
                                             (get_prop r "content")))
                 elems ;;
      Returned (VArr files [])
  | _ => Thrown TypeError
  end.

(** The string a value is used as where a key or a piece of text is
    expected (integers are written in decimal). *)
Fixpoint js_string (v : value) : string :=
  match v with
  | VUndefined => "undefined"
  | VNull => "null"
  | VBool true => "true"
  | VBool false => "false"
  | VNum n => pretty n
  | VStr s => s
  | VArr elems _ =>
      String.concat ","
        (map (fun e => if nullish e then "" else js_string e) elems)
  | VObj _ => "[object Object]"
  end.

(** What [loadProjectData] and the two entry points return. *)
Record ProjectResult : Type := {
  botFiles : value;
  projectData : value;
  error : value;
}.

Section Loader.

Variables SensitiveProperties RootBotManagedProperties : list path.
Variable convertSkillsToDictionary : value -> value.

(** What browser local storage holds while the project loads. *)
Variable storage : gmap string value.

(** The collaborators: the REST client, the indexer, the validator and
    the parser worker.  Each call returns or throws. *)
Variable httpClient_put : string -> value -> outcome value.
Variable httpClient_get : string -> outcome value.
Variable indexer_index : value -> value -> outcome value.
Variable lgWorker_addProject : value -> outcome unit.
Variable BotIndexer_validate : value -> outcome value.

(** [getMergedSettings] assigns into the nested objects of the
    [settings] it is given ([Store]); this is [settings] as the call
    leaves it. *)
Definition settingsAfterMerge (projectId : string) (settings : value)
    : value :=
  snd (Store.run_mergeLocalStorage SensitiveProperties
         RootBotManagedProperties (settingStorage_get storage projectId)
         settings).

Definition loadProjectData (data : value) : outcome ProjectResult :=
  _ <- coercible data ;;
  let files := get_prop data "files" in
  let botName := get_prop data "botName" in
  let settings := get_prop data "settings" in
  let projectId := get_prop data "id" in
  let mergedSettings :=
    getMergedSettings SensitiveProperties RootBotManagedProperties
      convertSkillsToDictionary storage (js_string projectId) settings
      botName in
  let settings := settingsAfterMerge (js_string projectId) settings in
  let data :=
    if isObject settings then set_prop data "settings" settings else data in
  indexedFiles <- indexer_index files botName ;;
  _ <- coercible indexedFiles ;;
  _ <- lgWorker_addProject projectId ;;
  lgFiles <- mapResources emptyLgFile (get_prop indexedFiles "lgResources") ;;
  luFiles <- mapResources emptyLuFile (get_prop indexedFiles "luResources") ;;
  qnaFiles <- mapResources emptyQnaFile (get_prop indexedFiles "qnaResources") ;;
  let assets :=
    set_prop (set_prop (set_prop (spread indexedFiles)
      "lgFiles" lgFiles) "luFiles" luFiles) "qnaFiles" qnaFiles in
  botProjectFile <- member (get_prop assets "botProjectSpaceFiles") "0" ;;
  diagnostics <-
    BotIndexer_validate
      (set_prop (set_prop (spread assets) "setting" settings)
         "botProjectFile" botProjectFile) ;;
  let botFiles :=
    set_prop (set_prop (spread assets) "mergedSettings" mergedSettings)
      "diagnostics" diagnostics in
  Returned {| botFiles := botFiles; projectData := data;
              error := VUndefined |}.

Definition failed (ex : value) : outcome ProjectResult :=
  Returned {| botFiles := VUndefined; projectData := VUndefined;
              error := ex |}.

Definition fetchProjectDataByPath (path : string) (storageId : value)
    (isRootBot : bool) : outcome ProjectResult :=
  try_catch
    (response <- httpClient_put "/projects/open"
                   (VObj [("path", VStr path); ("storageId", storageId);
                          ("isRootBot", VBool isRootBot)]) ;;
     data <- member response "data" ;;
     projectData <- loadProjectData data ;;
     Returned projectData)
    failed.

Definition fetchProjectDataById (projectId : value)
    : outcome ProjectResult :=
  try_catch
    (response <- httpClient_get ("/projects/" ++ js_string projectId) ;;
     data <- member response "data" ;;
     projectData <- loadProjectData data ;;
     Returned projectData)
    failed.

End Loader.
End Loader.

(** ** The Recoil atoms written by the handlers

    [set(atom, v)] replaces the value of an atom; an atom family is a map
    from project ids.  [loadedWrites] is not an atom: it counts the calls
    [set(botProjectSpaceLoadedState, true)] made so far. *)
Module Recoil.
Import JS.

Record atoms : Type := {
  botProjectIdsState : list string;
  botProjectSpaceLoadedState : bool;
  loadedWrites : nat;
  currentProjectIdState : string;
  warnAboutDotNetState : bool;
  warnAboutFunctionsState : bool;
  projectMetaDataState : gmap string (bool * bool);
  botDisplayNameState : gmap string string;
  botNameIdentifierState : gmap string string;
  botErrorState : gmap string value;
}.

Definition set_botProjectIds (ids : list string) (a : atoms) : atoms :=
  {| botProjectIdsState := ids;
     botProjectSpaceLoadedState := botProjectSpaceLoadedState a;
     loadedWrites := loadedWrites a;
     currentProjectIdState := currentProjectIdState a;
     warnAboutDotNetState := warnAboutDotNetState a;
     warnAboutFunctionsState := warnAboutFunctionsState a;
     projectMetaDataState := projectMetaDataState a;
     botDisplayNameState := botDisplayNameState a;
     botNameIdentifierState := botNameIdentifierState a;
     botErrorState := botErrorState a |}.

(** [set(botProjectSpaceLoadedState, true)]. *)
Definition set_botProjectSpaceLoaded (a : atoms) : atoms :=
  {| botProjectIdsState := botProjectIdsState a;
     botProjectSpaceLoadedState := true;
     loadedWrites := S (loadedWrites a);
     currentProjectIdState := currentProjectIdState a;
     warnAboutDotNetState := warnAboutDotNetState a;
     warnAboutFunctionsState := warnAboutFunctionsState a;
     projectMetaDataState := projectMetaDataState a;
     botDisplayNameState := botDisplayNameState a;
     botNameIdentifierState := botNameIdentifierState a;
     botErrorState := botErrorState a |}.

Definition set_currentProjectId (id : string) (a : atoms) : atoms :=
  {| botProjectIdsState := botProjectIdsState a;
     botProjectSpaceLoadedState := botProjectSpaceLoadedState a;
     loadedWrites := loadedWrites a;
     currentProjectIdState := id;
     warnAboutDotNetState := warnAboutDotNetState a;
     warnAboutFunctionsState := warnAboutFunctionsState a;
     projectMetaDataState := projectMetaDataState a;
     botDisplayNameState := botDisplayNameState a;
     botNameIdentifierState := botNameIdentifierState a;
     botErrorState := botErrorState a |}.

Definition set_warnAboutDotNet (b : bool) (a : atoms) : atoms :=
  {| botProjectIdsState := botProjectIdsState a;
     botProjectSpaceLoadedState := botProjectSpaceLoadedState a;
     loadedWrites := loadedWrites a;
     currentProjectIdState := currentProjectIdState a;
     warnAboutDotNetState := b;
     warnAboutFunctionsState := warnAboutFunctionsState a;
     projectMetaDataState := projectMetaDataState a;
     botDisplayNameState := botDisplayNameState a;
     botNameIdentifierState := botNameIdentifierState a;
     botErrorState := botErrorState a |}.

Definition set_warnAboutFunctions (b : bool) (a : atoms) : atoms :=
  {| botProjectIdsState := botProjectIdsState a;
     botProjectSpaceLoadedState := botProjectSpaceLoadedState a;
     loadedWrites := loadedWrites a;
     currentProjectIdState := currentProjectIdState a;
     warnAboutDotNetState := warnAboutDotNetState a;
     warnAboutFunctionsState := b;
     projectMetaDataState := projectMetaDataState a;
     botDisplayNameState := botDisplayNameState a;
     botNameIdentifierState := botNameIdentifierState a;
     botErrorState := botErrorState a |}.

(** [set(projectMetaDataState(projectId), { isRootBot, isRemote })]. *)
Definition set_projectMetaData (projectId : string) (isRootBot isRemote : bool)
    (a : atoms) : atoms :=
  {| botProjectIdsState := botProjectIdsState a;
     botProjectSpaceLoadedState := botProjectSpaceLoadedState a;
     loadedWrites := loadedWrites a;
     currentProjectIdState := currentProjectIdState a;
     warnAboutDotNetState := warnAboutDotNetState a;
     warnAboutFunctionsState := warnAboutFunctionsState a;
     projectMetaDataState :=
       <[projectId := (isRootBot, isRemote)]> (projectMetaDataState a);
     botDisplayNameState := botDisplayNameState a;
     botNameIdentifierState := botNameIdentifierState a;
     botErrorState := botErrorState a |}.

Definition set_botDisplayName (projectId name : string) (a : atoms) : atoms :=
  {| botProjectIdsState := botProjectIdsState a;
     botProjectSpaceLoadedState := botProjectSpaceLoadedState a;
     loadedWrites := loadedWrites a;
     currentProjectIdState := currentProjectIdState a;
     warnAboutDotNetState := warnAboutDotNetState a;
     warnAboutFunctionsState := warnAboutFunctionsState a;
     projectMetaDataState := projectMetaDataState a;
     botDisplayNameState := <[projectId := name]> (botDisplayNameState a);
     botNameIdentifierState := botNameIdentifierState a;
     botErrorState := botErrorState a |}.

Definition set_botNameIdentifier (projectId name : string) (a : atoms)
    : atoms :=
  {| botProjectIdsState := botProjectIdsState a;
     botProjectSpaceLoadedState := botProjectSpaceLoadedState a;
     loadedWrites := loadedWrites a;
     currentProjectIdState := currentProjectIdState a;
     warnAboutDotNetState := warnAboutDotNetState a;
     warnAboutFunctionsState := warnAboutFunctionsState a;
     projectMetaDataState := projectMetaDataState a;
     botDisplayNameState := botDisplayNameState a;
     botNameIdentifierState := <[projectId := name]> (botNameIdentifierState a);
     botErrorState := botErrorState a |}.

Definition set_botError (projectId : string) (payload : value) (a : atoms)
    : atoms :=
  {| botProjectIdsState := botProjectIdsState a;
     botProjectSpaceLoadedState := botProjectSpaceLoadedState a;
     loadedWrites := loadedWrites a;
     currentProjectIdState := currentProjectIdState a;
     warnAboutDotNetState := warnAboutDotNetState a;
     warnAboutFunctionsState := warnAboutFunctionsState a;
     projectMetaDataState := projectMetaDataState a;
     botDisplayNameState := botDisplayNameState a;
     botNameIdentifierState := botNameIdentifierState a;
     botErrorState := <[projectId := payload]> (botErrorState a) |}.

End Recoil.

(** ** The failure handler (project.ts, lines 401-418) *)
Module Failure.
Import JS Exn Recoil.
Local Open Scope outcome_scope.

Section Failure.

(** The two pattern tests of [utils/runtimeErrors] and the generic
    reporter [setError] of [dispatchers/shared] are not among the
    sources. *)
Variables checkIfDotnetVersionMissing checkIfFunctionsMissing
  : value -> bool.
Variable setError : atoms -> value -> atoms.

(** [error.response?.data?.message ?? error.message ?? '']. *)
Definition failureMessage (error : value) : outcome value :=
  response <- member error "response" ;;
  let message := optional (optional response "data") "message" in
  Returned (coalesce (coalesce message (get_prop error "message"))
              (VStr "")).

Definition handleProjectFailure (a : atoms) (error : value)
    : outcome atoms :=
  message <- failureMessage error ;;
  let isDotnetError :=
    checkIfDotnetVersionMissing (VObj [("message", message)]) in
  message <- failureMessage error ;;
  let isFunctionsError :=
    checkIfFunctionsMissing (VObj [("message", message)]) in
  if isDotnetError then Returned (set_warnAboutDotNet true a)
  else if isFunctionsError then Returned (set_warnAboutFunctions true a)
  else
    let a := set_warnAboutDotNet false a in
    let a := set_warnAboutFunctions false a in
    Returned (setError a error).

End Failure.
End Failure.

(** ** The skill-tree opener (project.ts, lines 117-130 and 670-792)

    [openRootBotAndSkills] starts one load per skill and returns; each
    load settles later, in any order, and runs the callback registered
    for it.  The model is a machine: the atoms, and the loads that have
    not settled yet.

    The machine follows what the opener and the callbacks write.  The
    project ids and the loaded flag are written by them only.  A load
    also writes atoms itself, before it settles: [openLocalSkill]
    (lines 626-647), through [initBotState] (line 545), and
    [openRemoteSkill] (lines 578-624) write the metadata, the display
    name and the name identifier of the project they open.  These writes are no steps of
    the machine: its atoms tell the project ids and the loaded flag of
    an execution, and [settle] tells what a callback adds to the atoms
    it finds. *)
Module SkillTree.
Import JS Exn Recoil.

(** The fields of a skill entry of the bot-project file that the opener
    reads (type [BotProjectSpaceSkill] of [@bfc/shared]). *)
Record BotProjectSpaceSkill : Type := {
  remote : bool;
  workspace : option string;
  manifest : option string;
}.

(** Truthiness of an optional string field. *)
Definition given (field : option string) : bool :=
  match field with
  | Some s => negb (String.eqb s "")
  | None => false
  end.

(** A skill entry can be opened from its workspace or from its
    manifest. *)
Definition openable (skill : BotProjectSpaceSkill) : bool :=
  (negb (remote skill) && given (workspace skill)) || given (manifest skill).

(** The call that loads a skill, with its arguments. *)
Inductive skillLoad : Type :=
| OpenLocalSkill (pathToBot storageId botNameIdentifier : string)
| OpenRemoteSkill (manifestUrl rootBotProjectId botNameIdentifier : string).

(** A load in flight, with what its callbacks captured. *)
Record pendingSkill : Type := {
  nameIdentifier : string;
  isRemote : bool;
  load : skillLoad;
  totalProjectsCount : nat;
}.

Record machine : Type := {
  recoil : atoms;
  pending : list pendingSkill;
}.

(** How a load settles.  A fulfilled load hands over the project id it
    opened; [later] tells whether the rest of the [then] callback (the
    endpoint lookup and the dispatcher calls) throws, and with what.  A
    callback that handles a failure draws a project id from [uuid()].
    What the load wrote for the project it opened is in the atoms the
    callback finds. *)
Inductive settlement : Type :=
| Fulfilled (projectId : string) (manifestResponse : value)
    (later : option (value * string))
| Rejected (ex : value) (uuid : string).

Definition setErrorOnBotProject (a : atoms) (projectId : string)
    (payload : value) : atoms :=
  let message :=
    optional (optional (optional payload "response") "data") "message" in
  if truthy message
  then set_botError projectId (get_prop (get_prop payload "response") "data") a
  else set_botError projectId payload a.

Definition addProjectToBotProjectSpace (a : atoms) (projectId : string)
    (skillCt : nat) : atoms :=
  let botProjectIds := botProjectIdsState a ++ [projectId] in
  let isBotProjectLoaded := Nat.eqb (length botProjectIds) skillCt in
  let a := set_botProjectIds botProjectIds a in
  if isBotProjectLoaded then set_botProjectSpaceLoaded a else a.

(** Returns the atoms; the project id it returns is [uuid]. *)
Definition handleSkillLoadingFailure (a : atoms) (isRemote : bool)
    (ex : value) (skillNameIdentifier uuid : string) : atoms :=
  let projectId := uuid in
  let a := set_projectMetaData projectId false isRemote a in
  let a := set_botDisplayName projectId skillNameIdentifier a in
  let a := set_botNameIdentifier projectId skillNameIdentifier a in
  setErrorOnBotProject a projectId ex.

(** The [catch] callback of a load. *)
Definition onRejected (skill : pendingSkill) (a : atoms) (ex : value)
    (uuid : string) : atoms :=
  let a := handleSkillLoadingFailure a (isRemote skill) ex
             (nameIdentifier skill) uuid in
  addProjectToBotProjectSpace a uuid (totalProjectsCount skill).

(** The [then] callback of a load, followed by the [catch] callback when
    it throws. *)
Definition onFulfilled (skill : pendingSkill) (a : atoms)
    (projectId : string) (later : option (value * string)) : atoms :=
  let a := addProjectToBotProjectSpace a projectId (totalProjectsCount skill) in
  match later with
  | None => a
  | Some (ex, uuid) => onRejected skill a ex uuid
  end.

(** The callbacks registered on a load, run on the atoms [a] found
    when the load settles. *)
Definition settle (skill : pendingSkill) (a : atoms) (how : settlement)
    : atoms :=
  match how with
  | Fulfilled projectId _ later => onFulfilled skill a projectId later
  | Rejected ex uuid => onRejected skill a ex uuid
  end.

Definition named (name : string) (skill : pendingSkill) : bool :=
  String.eqb name (nameIdentifier skill).

(** The first load in flight for a skill name, and the others. *)
Fixpoint take (name : string) (l : list pendingSkill)
    : option (pendingSkill * list pendingSkill) :=
  match l with
  | [] => None
  | s :: r =>
      if named name s then Some (s, r)
      else match take name r with
           | Some (x, r') => Some (x, s :: r')
           | None => None
           end
  end.

(** One load settles.  Only a load in flight can settle, and it does so
    once. *)
Definition step (m : machine) (event : string * settlement)
    : option machine :=
  match take (fst event) (pending m) with
  | Some (skill, others) =>
      Some {| recoil := settle skill (recoil m) (snd event);
              pending := others |}
  | None => None
  end.

(** The project ids a settlement adds to the project space. *)
Definition collected (how : settlement) : list string :=
  match how with
  | Fulfilled projectId _ None => [projectId]
  | Fulfilled projectId _ (Some (_, uuid)) => [projectId; uuid]
  | Rejected _ uuid => [uuid]
  end.

(** The [then] callback ran to its end. *)
Definition quiet (how : settlement) : bool :=
  match how with
  | Fulfilled _ _ (Some _) => false
  | _ => true
  end.

Fixpoint run (m : machine) (events : list (string * settlement))
    : option machine :=
  match events with
  | [] => Some m
  | e :: rest =>
      match step m e with
      | Some m' => run m' rest
      | None => None
      end
  end.

(** *** Counting the writes of the loaded flag *)

Definition crossed (total n : nat) : nat := if (total <=? n)%nat then 1 else 0.

(** The loaded flag has been written once if the project ids have
    reached [total], and not at all otherwise. *)
Definition counted (total writes0 : nat) (flag0 : bool) (a : atoms) : Prop :=
  loadedWrites a = writes0 + crossed total (length (botProjectIdsState a))
  /\ botProjectSpaceLoadedState a
     = if (total <=? length (botProjectIdsState a))%nat then true else flag0.

(** The machine keeps the count while loads settle. *)
Definition tracked (total writes0 : nat) (flag0 : bool) (m : machine) : Prop :=
  Forall (fun s => totalProjectsCount s = total) (pending m)
  /\ counted total writes0 flag0 (recoil m).

Section Opener.

(** [path.join] and lodash [camelCase]. *)
Variable path_join : string -> string -> string.
Variable camelCase : string -> string.

(** The body of the [for ... in] loop: the load started for a skill
    entry, if any. *)
Definition startSkill (rootBotProjectId location storageId : string)
    (totalProjectsCount : nat)
    (entry : string * BotProjectSpaceSkill) : option pendingSkill :=
  let nameIdentifier := fst entry in
  let skill := snd entry in
  if negb (remote skill) && given (workspace skill) then
    let absoluteSkillPath :=
      path_join location (default "" (workspace skill)) in
    Some {| nameIdentifier := nameIdentifier; isRemote := false;
            load := OpenLocalSkill absoluteSkillPath storageId nameIdentifier;
            totalProjectsCount := totalProjectsCount |}
  else if given (manifest skill) then
    Some {| nameIdentifier := nameIdentifier; isRemote := true;
            load := OpenRemoteSkill (default "" (manifest skill))
                      rootBotProjectId nameIdentifier;
            totalProjectsCount := totalProjectsCount |}
  else None.

(** [openRootBotAndSkills] from the point where the root bot's state
    has been initialised ([initBotState]) up to its return.
    [botProjectSpaceFiles] lists, for each bot-project file, the skill
    mapping it has once [migrateSkillsForExistingBots] has run.  The
    publish-status requests of the dispatcher write other atoms and
    are left out. *)
Definition openRootBotAndSkills (a : atoms)
    (rootBotProjectId name location storageId : string)
    (botProjectSpaceFiles : list (list (string * BotProjectSpaceSkill)))
    : machine * outcome unit :=
  let a := set_botNameIdentifier rootBotProjectId (camelCase name) a in
  let a := set_botProjectIds [rootBotProjectId] a in
  match botProjectSpaceFiles with
  | skills :: _ =>
      let totalProjectsCount := length skills + 1 in
      let m :=
        if Nat.ltb 1 totalProjectsCount then
          {| recoil := a;
             pending :=
               omap (startSkill rootBotProjectId location storageId
                       totalProjectsCount) skills |}
        else
          {| recoil := set_botProjectSpaceLoaded a; pending := [] |} in
      ({| recoil := set_currentProjectId rootBotProjectId (recoil m);
          pending := pending m |}, Returned tt)
  | [] =>
      ({| recoil := a; pending := [] |},
       Thrown (VObj [("message", VStr "Bot project file does not exist.")]))
  end.

End Opener.
End SkillTree.

(** ** Instances, for evaluation

    Modelled from the spec: the constants of [@bfc/shared] are not among
    the sources, and the spec only tells that there is a fixed list of
    sensitive property paths, some of them managed by the root bot.  The
    lists below are one such pair, with a top-level sensitive property
    and nested ones; the other definitions are sample data and sample
    collaborators. *)
Module Examples.
Import JS Exn Settings Recoil SkillTree.

Definition exampleSensitive : list path :=
  [["MicrosoftAppPassword"]; ["luis"; "authoringKey"];
   ["luis"; "endpointKey"]; ["qna"; "subscriptionKey"];
   ["qna"; "endpointKey"]].

Definition exampleRootManaged : list path :=
  [["luis"; "authoringKey"]; ["luis"; "endpointKey"];
   ["qna"; "subscriptionKey"]].

Definition exampleConvert (skills : value) : value :=
  match skills with
  | VArr elems _ =>
      VObj (map (fun e => (match get_prop e "name" with
                           | VStr n => n
                           | _ => ""
                           end, e)) elems)
  | _ => VObj []
  end.

Definition exampleStorage : gmap string value :=
  {[ "bot-1" := VObj [("MicrosoftAppPassword", VStr "secret");
                      ("qna", VObj [("endpointKey", VStr "")])] ]}.

Definition exampleSettings : props_t :=
  [("MicrosoftAppPassword", VStr "");
   ("luis", VObj [("name", VStr ""); ("authoringKey", VStr "remote-key")]);
   ("qna", VObj [("endpointKey", VStr "remote-endpoint")]);
   ("skill", VArr [VObj [("name", VStr "echo"); ("msAppId", VStr "42")]] [])].

(** Settings whose [qna] field is an array, with a stored entry that
    holds a key under [qna]; and settings with properties whose own
    names are dotted. *)
Definition exampleArraySettings : props_t := [("qna", VArr [] [])].

Definition exampleKeyStorage : gmap string value :=
  {[ "bot-1" := VObj [("qna", VObj [("endpointKey", VStr "local-endpoint")])] ]}.

Definition exampleFlatSettings : props_t :=
  [("luis.name", VStr "Flat"); ("qna.endpointKey", VStr "remote")].

Definition exampleResponse : value :=
  VObj [("data",
         VObj [("id", VStr "bot-1"); ("botName", VStr "EchoBot");
               ("settings", VObj exampleSettings); ("files", VArr [] [])])].

Definition exampleHttpPut (url : string) (body : value) : outcome value :=
  Returned exampleResponse.

Definition exampleHttpGet (url : string) : outcome value :=
  if String.eqb url "/projects/bot-1" then Returned exampleResponse
  else Thrown (VObj [("message", VStr "Not Found")]).

Definition exampleIndexer (files botName : value) : outcome value :=
  Returned
    (VObj [("lgResources",
            VArr [VObj [("id", VStr "common.en-us");
                        ("content", VStr "# Hello")]] []);
           ("luResources", VArr [] []);
           ("qnaResources", VArr [] []);
           ("botProjectSpaceFiles",
            VArr [VObj [("id", VStr "EchoBot")]] [])]).

Definition exampleAddProject (projectId : value) : outcome unit :=
  Returned tt.

Definition exampleValidate (project : value) : outcome value :=
  Returned (VArr [] []).

Definition exampleAtoms : atoms :=
  {| botProjectIdsState := []; botProjectSpaceLoadedState := false;
     loadedWrites := 0; currentProjectIdState := "";
     warnAboutDotNetState := false; warnAboutFunctionsState := false;
     projectMetaDataState := ∅; botDisplayNameState := ∅;
     botNameIdentifierState := ∅; botErrorState := ∅ |}.

Definition exampleDotnetCheck (err : value) : bool :=
  match get_prop err "message" with
  | VStr s => String.eqb s "dotnet is missing"
  | _ => false
  end.

Definition exampleFunctionsCheck (err : value) : bool :=
  match get_prop err "message" with
  | VStr s => String.eqb s "func is missing"
  | _ => false
  end.

Definition exampleSetError (a : atoms) (payload : value) : atoms :=
  set_botError "" payload a.

Definition examplePathJoin (a b : string) : string := (a ++ "/" ++ b)%string.
Definition exampleCamelCase (s : string) : string := s.

Definition exampleSkills : list (string * BotProjectSpaceSkill) :=
  [("echo", {| remote := false; workspace := Some "../echo";
               manifest := None |});
   ("weather", {| remote := true; workspace := None;
                  manifest := Some "https://example.org/weather.json" |})].

Definition exampleOrphan : string * BotProjectSpaceSkill :=
  ("orphan", {| remote := true; workspace := Some "../orphan";
                manifest := None |}).

Definition exampleWeather : string * BotProjectSpaceSkill :=
  ("weather", {| remote := true; workspace := None;
                 manifest := Some "https://example.org/weather.json" |}).

End Examples.

(** ** The other functions of the settings merger (project.ts, lines
    178-203) *)
Module ManagedSettings.
Import JS Exn Settings.
Local Open Scope outcome_scope.

(** A [for ... of] loop whose body may throw. *)
Fixpoint foldM {A B : Type} (f : A -> B -> outcome A) (l : list B) (a : A)
    : outcome A :=
  match l with
  | [] => Returned a
  | x :: r => a' <- f a x ;; foldM f r a'
  end.

Section Merger.

Variables SensitiveProperties RootBotManagedProperties : list path.

(** The body of the loop of [mergePropertiesManagedByRootBot].  The
    stored value of the property is read with [{}] as default, so reading
    its [root] field throws only when [null] is stored.

    The field of a skill is read under the project id, a name computed
    at run time.  When the project id is an inherited name
    ([JS.inherited]: [constructor], [toString], ...) and the stored value
    has no property of its own under it, the code reads a function of
    the runtime there, and assigns it; a function is not a [value], and
    this definition then reads [undefined].  It is the code for the
    project ids that are not inherited names, and for the root bot,
    whose field is [root]. *)
Definition mergeManagedProperty (localSetting : value)
    (projectId rootBotProjectId : string) (mergedSettings : value)
    (property : path) : outcome value :=
  rootValue <- member (objectGetOr localSetting property (VObj [])) "root" ;;
  if String.eqb projectId rootBotProjectId then
    Returned (objectSet mergedSettings property
                (coalesce rootValue (VStr "")))
  else
    skillValue <-
      member (objectGetOr localSetting property (VObj [])) projectId ;;
    Returned (objectSet mergedSettings property
                (coalesce skillValue (VStr ""))).

Definition mergePropertiesManagedByRootBot (storage : gmap string value)
    (projectId rootBotProjectId : string) (settings : value)
    : outcome value :=
  let localSetting := settingStorage_get storage rootBotProjectId in
  let mergedSettings := cloneDeep settings in
  if truthy localSetting
  then foldM (mergeManagedProperty localSetting projectId rootBotProjectId)
         RootBotManagedProperties mergedSettings
  else Returned mergedSettings.

Definition getSensitiveProperties (settings : value) : value :=
  fold_left
    (fun sensitiveProperties property =>
       let value := objectGetOr settings property (VStr "") in
       objectSet sensitiveProperties property value)
    SensitiveProperties (VObj []).

End Merger.

(** The field of a stored root-bot-managed property that belongs to a
    project: [root] for the root bot, the project id for a skill. *)
Definition owner (projectId rootBotProjectId : string) : string :=
  if String.eqb projectId rootBotProjectId then "root" else projectId.

(** What [mergePropertiesManagedByRootBot] assigns at a property. *)
Definition managedValue (localSetting : value)
    (projectId rootBotProjectId : string) (property : path) : value :=
  coalesce
    (get_prop (objectGetOr localSetting property (VObj []))
       (owner projectId rootBotProjectId))
    (VStr "").

(** A loop that assigns [f p] at every path [p] of a list. *)
Definition assignAll (f : path -> value) (l : list path) (m : value)
    : value :=
  fold_left (fun acc p => objectSet acc p (f p)) l m.

End ManagedSettings.

(** ** Parsed files and their status (project.ts, lines 314-333 and
    435-471)

    Files are compared by [id] with [===].  On plain data the comparison
    is that of primitive values; two objects are equal only when they are
    the same object, which plain data cannot tell, and they compare as
    different here.  The ids of files are strings. *)
Module Files.
Import JS Exn.
Local Open Scope outcome_scope.

Definition strict_equal (a b : value) : bool :=
  match a, b with
  | VUndefined, VUndefined => true
  | VNull, VNull => true
  | VBool x, VBool y => Bool.eqb x y
  | VNum x, VNum y => Z.eqb x y
  | VStr x, VStr y => String.eqb x y
  | _, _ => false
  end.

(** [files.find((file) => file.id === item.id)]: the first file with the
    id of [item], [undefined] when there is none. *)
Fixpoint find_by_id (item : value) (files : list value) : outcome value :=
  match files with
  | [] => Returned VUndefined
  | file :: rest =>
      fileId <- member file "id" ;;
      itemId <- member item "id" ;;
      if strict_equal fileId itemId then Returned file
      else find_by_id item rest
  end.

(** The callback of the updaters of the lg and lu files in
    [parseAllAssets]: [file && item.isContentUnparsed ? file : item]. *)
Definition takeParsed (parsedFiles : list value) (item : value)
    : outcome value :=
  file <- find_by_id item parsedFiles ;;
  if truthy file then
    unparsed <- member item "isContentUnparsed" ;;
    Returned (if truthy unparsed then file else item)
  else Returned item.

(** [oldFiles.map(...)] of those updaters. *)
Definition mergeParsedFiles (parsedFiles oldFiles : list value)
    : outcome (list value) :=
  mapM (takeParsed parsedFiles) oldFiles.

(** The callback of the updater of the qna files:
    [oldFile && !oldFile.isContentUnparsed ? oldFile : newFile]. *)
Definition keepParsed (oldFiles : list value) (newFile : value)
    : outcome value :=
  oldFile <- find_by_id newFile oldFiles ;;
  if truthy oldFile then
    unparsed <- member oldFile "isContentUnparsed" ;;
    Returned (if negb (truthy unparsed) then oldFile else newFile)
  else Returned newFile.

(** [migratedQnAFiles.map(...)] of that updater. *)
Definition mergeQnaFiles (migratedQnAFiles oldFiles : list value)
    : outcome (list value) :=
  mapM (keepParsed oldFiles) migratedQnAFiles.

(** The callback of [updateLuFilesStatus] and [updateQnaFilesStatus]:
    [published] is the stored status of the file when that is a boolean,
    and [false] otherwise.  [status] is what the status storage holds for
    the project. *)
Definition withPublished (status : value) (file : value) : outcome value :=
  fileId <- member file "id" ;;
  stored <- member status (Loader.js_string fileId) ;;
  match stored with
  | VBool b => Returned (set_prop (spread file) "published" (VBool b))
  | _ => Returned (set_prop (spread file) "published" (VBool false))
  end.

Definition updateLuFilesStatus (status : value) (luFiles : list value)
    : outcome (list value) :=
  mapM (withPublished status) luFiles.

Definition updateQnaFilesStatus (status : value) (qnaFiles : list value)
    : outcome (list value) :=
  mapM (withPublished status) qnaFiles.

End Files.

(** ** Runtime tests (project.ts, lines 473-484 and 789) *)
Module Runtime.
Import JS Exn.
Local Open Scope outcome_scope.

(** [settings?.runtime?.key?.match(/^adaptive-runtime/) ? true : false].
    Only a string has a [match] method. *)
Definition isAdaptiveRuntime (settings : value) : outcome bool :=
  let key := optional (optional settings "runtime") "key" in
  match key with
  | VUndefined | VNull => Returned false
  | VStr s => Returned (String.prefix "adaptive-runtime" s)
  | _ => Thrown TypeError
  end.

Definition isOldCustomRuntime (settings : value) : bool :=
  let key := optional (optional settings "runtime") "key" in
  match key with
  | VStr s =>
      String.eqb s "node-azurewebapp" || String.eqb s "csharp-azurewebapp"
  | _ => false
  end.

(** [targets.some((target) => target.type === 'pva-publish-composer')]:
    the elements after the first match are not looked at. *)
Fixpoint somePva (targets : list value) : outcome bool :=
  match targets with
  | [] => Returned false
  | target :: rest =>
      type <- member target "type" ;;
      match type with
      | VStr s =>
          if String.eqb s "pva-publish-composer" then Returned true
          else somePva rest
      | _ => somePva rest
      end
  end.

(** [settings?.publishTargets?.some(...)]: a boolean, or [undefined]
    when there are no publish targets.  Only an array has a [some]
    method, unless a property of its own hides it.  The array is parsed
    JSON: it has no hole, which [some] would skip. *)
Definition isPVA (settings : value) : outcome value :=
  match optional settings "publishTargets" with
  | VUndefined | VNull => Returned VUndefined
  | VArr targets named =>
      match assoc_get "some" named with
      | Some _ => Thrown TypeError
      | None => found <- somePva targets ;; Returned (VBool found)
      end
  | _ => Thrown TypeError
  end.

(** [!isAdaptiveRuntime(settings) && !isPVA(settings)], as
    [openRootBotAndSkills] computes [requiresMigrate] (line 789). *)
Definition requiresMigrate (settings : value) : outcome bool :=
  adaptive <- isAdaptiveRuntime settings ;;
  if negb adaptive then
    pva <- isPVA settings ;;
    Returned (negb (truthy pva))
  else Returned false.

End Runtime.

(** ** Looking a bot up in the bot-project file (project.ts, lines
    879-912) *)
Module Lookup.
Import JS Exn SkillTree.

Section Lookup.

Variable path_join : string -> string -> string.

(** The [for ... in] loop over the skills. *)
Fixpoint skillMatches (rootBotLocation pathOrManifest : string)
    (remote : bool) (skills : list (string * BotProjectSpaceSkill)) : bool :=
  match skills with
  | [] => false
  | (_, skill) :: rest =>
      if remote then
        match manifest skill with
        | Some url =>
            if String.eqb url pathOrManifest then true
            else skillMatches rootBotLocation pathOrManifest remote rest
        | None => skillMatches rootBotLocation pathOrManifest remote rest
        end
      else if given (workspace skill) then
        let absolutePathOfSkill :=
          path_join rootBotLocation (default "" (workspace skill)) in
        if String.eqb pathOrManifest absolutePathOfSkill then true
        else skillMatches rootBotLocation pathOrManifest remote rest
      else skillMatches rootBotLocation pathOrManifest remote rest
  end.

(** [rootBotProjectId] is what [rootBotProjectIdSelector] yields,
    [rootBotLocation] and [skills] what the location and the bot-project
    file of that project hold. *)
Definition checkIfBotExistsInBotProjectFile
    (rootBotProjectId : option string) (rootBotLocation : string)
    (skills : list (string * BotProjectSpaceSkill))
    (pathOrManifest : string) (remote : bool) : outcome bool :=
  if negb (given rootBotProjectId) then
    Thrown (VObj [("message", VStr "The root bot is not a bot project")])
  else if String.eqb rootBotLocation pathOrManifest then Returned true
  else Returned (skillMatches rootBotLocation pathOrManifest remote skills).

End Lookup.
End Lookup.

(** ** The callers of the project loader (project.ts, lines 833-864)

    [opener] stands for the call of [openRootBotAndSkills] on the loaded
    project, with the storage id it is passed ([undefined] when the
    caller passes none). *)
Module Callers.
Import JS Exn Settings Loader.
Local Open Scope outcome_scope.

Section Callers.

Variables SensitiveProperties RootBotManagedProperties : list path.
Variable convertSkillsToDictionary : value -> value.
Variable storage : gmap string value.
Variable httpClient_put : string -> value -> outcome value.
Variable httpClient_get : string -> outcome value.
Variable httpClient_post : string -> value -> outcome value.
Variable indexer_index : value -> value -> outcome value.
Variable lgWorker_addProject : value -> outcome unit.
Variable BotIndexer_validate : value -> outcome value.
Variable opener : ProjectResult -> value -> outcome value.

Definition openRootBotAndSkillsByPath (path : string) (storageId : value)
    : outcome value :=
  data <- fetchProjectDataByPath SensitiveProperties RootBotManagedProperties
            convertSkillsToDictionary storage httpClient_put indexer_index
            lgWorker_addProject BotIndexer_validate path storageId true ;;
  if truthy (error data) then Thrown (error data)
  else opener data storageId.

Definition openRootBotAndSkillsByProjectId (projectId : value)
    : outcome value :=
  data <- fetchProjectDataById SensitiveProperties RootBotManagedProperties
            convertSkillsToDictionary storage httpClient_get indexer_index
            lgWorker_addProject BotIndexer_validate projectId ;;
  if truthy (error data) then Thrown (error data)
  else opener data VUndefined.

Definition saveProject (oldProjectData : value) : outcome value :=
  _ <- coercible oldProjectData ;;
  let oldProjectId := get_prop oldProjectData "oldProjectId" in
  response <-
    httpClient_post
      ("/projects/" ++ js_string oldProjectId ++ "/project/saveAs")
      (VObj [("storageId", VStr "default");
             ("name", get_prop oldProjectData "name");
             ("description", get_prop oldProjectData "description");
             ("location", get_prop oldProjectData "location")]) ;;
  responseData <- member response "data" ;;
  data <- loadProjectData SensitiveProperties RootBotManagedProperties
            convertSkillsToDictionary storage indexer_index
            lgWorker_addProject BotIndexer_validate responseData ;;
  if truthy (error data) then Thrown (error data)
  else opener data VUndefined.

End Callers.
End Callers.

(** ** Recent projects (project.ts, lines 564-576) *)
Module Recent.
Import JS Exn Files.
Local Open Scope outcome_scope.

(** [currentRecentProjects.filter((p) => p.path !== path)]. *)
Fixpoint withoutPath (path : string) (projects : list value)
    : outcome (list value) :=
  match projects with
  | [] => Returned []
  | p :: rest =>
      projectPath <- member p "path" ;;
      kept <- withoutPath path rest ;;
      Returned (if strict_equal projectPath (VStr path) then kept
                else p :: kept)
  end.

(** [p.path === path]. *)
Definition hasPath (path : string) (p : value) : bool :=
  strict_equal (get_prop p "path") (VStr path).

(** [removeRecentProject]: the recent projects after the call, given how
    reading them settles.  A failure is logged and leaves them as they
    are. *)
Definition removeRecentProject (recentProjects : list value)
    (read : outcome (list value)) (path : string) : list value :=
  match (current <- read ;; withoutPath path current) with
  | Returned filtered => filtered
  | Thrown _ => recentProjects
  end.

End Recent.

(** ** The main dialog (project.ts, lines 513-523 and 561)

    The loop of [initBotState] over the dialogs: the main dialog and the
    dialog ids it has collected.  The atoms it writes on the way
    ([dialogState]) are left out. *)
Module BotState.
Import JS Exn.
Local Open Scope outcome_scope.

Fixpoint dialogLoop (dialogs : list value) (mainDialog : value)
    (dialogIds : list value) : outcome (value * list value) :=
  match dialogs with
  | [] => Returned (mainDialog, dialogIds)
  | dialog :: rest =>
      isRoot <- member dialog "isRoot" ;;
      let mainDialog :=
        if truthy isRoot then get_prop dialog "id" else mainDialog in
      dialogLoop rest mainDialog (dialogIds ++ [get_prop dialog "id"])
  end.

(** [let mainDialog = ''; const dialogIds = []; for (...) {...}]. *)
Definition mainDialogOf (dialogs : list value)
    : outcome (value * list value) :=
  dialogLoop dialogs (VStr "") [].

End BotState.

(** ** The placeholder projects of the skill-tree opener (project.ts,
    lines 684-696 and 766-773) *)
Module Placeholders.
Import JS Exn Recoil SkillTree.


End Placeholders.

(** ** More instances, for evaluation *)
Module MoreExamples.
Import JS Exn Settings Recoil SkillTree Examples.

(** What the root bot ["bot-1"] keeps locally for the properties it
    manages: one value for itself and one per skill. *)
Definition exampleManagedStorage : gmap string value :=
  {[ "bot-1" :=
       VObj [("luis",
              VObj [("authoringKey",
                     VObj [("root", VStr "root-key");
                           ("skill-1", VStr "skill-key")]);
                    ("endpointKey", VStr "plain")])] ]}.

Definition exampleBrokenStorage : gmap string value :=
  {[ "bot-1" := VObj [("luis", VObj [("authoringKey", VNull)])] ]}.

(** Files of a project: what the atoms hold before the parsers answer,
    and what the parsers return. *)
Definition exampleParsedFiles : list value :=
  [VObj [("id", VStr "common"); ("templates", VArr [VStr "Hello"] [])]].

Definition exampleOldFiles : list value :=
  [Loader.emptyLgFile (VStr "common") (VStr "# Hello");
   VObj [("id", VStr "other"); ("isContentUnparsed", VBool false)]].

Definition exampleMergedFiles : list value :=
  [VObj [("id", VStr "common"); ("templates", VArr [VStr "Hello"] [])];
   VObj [("id", VStr "other"); ("isContentUnparsed", VBool false)]].

Definition exampleMigratedQna : list value :=
  [VObj [("id", VStr "faq"); ("qnaSections", VArr [] [])];
   VObj [("id", VStr "faq-manual.source"); ("qnaSections", VArr [] [])]].

Definition exampleOldQna : list value :=
  [VObj [("id", VStr "faq"); ("isContentUnparsed", VBool false)];
   VObj [("id", VStr "gone"); ("isContentUnparsed", VBool false)]].

Definition exampleMergedQna : list value :=
  [VObj [("id", VStr "faq"); ("isContentUnparsed", VBool false)];
   VObj [("id", VStr "faq-manual.source"); ("qnaSections", VArr [] [])]].

(** A store with the settings of a bot at reference 1, their [qna]
    object at reference 0, and the locally stored entry at reference 3,
    with its [qna] object at reference 2. *)
Definition exampleHeap : Store.store :=
  [Store.CObj [("endpointKey", Store.HStr "remote-endpoint")];
   Store.CObj [("MicrosoftAppPassword", Store.HStr "");
               ("qna", Store.HRef 0)];
   Store.CObj [("endpointKey", Store.HStr "local-endpoint")];
   Store.CObj [("qna", Store.HRef 2)]].

Definition exampleStatus : value :=
  VObj [("main", VBool true); ("help", VStr "yes")].

Definition exampleLuFiles : list value :=
  [VObj [("id", VStr "main")]; VObj [("id", VStr "help")]].

End MoreExamples.

(* ===================================================================== *)
(** * Part II: properties *)
(* ===================================================================== *)

Module JSFacts.
Import JS Settings.

Lemma eqb_neq_false (a b : string) : a <> b -> String.eqb a b = false.
Proof. intros H. destruct (String.eqb_spec a b); congruence. Qed.

Lemma assoc_get_set_same {A} k (v : A) ps :
  assoc_get k (assoc_set k v ps) = Some v.
Proof.
  induction ps as [|[k' v'] ps IH]; simpl.
  - now rewrite String.eqb_refl.
  - destruct (String.eqb k k') eqn:E; simpl.
    + now rewrite String.eqb_refl.
    + now rewrite E.
Qed.

Lemma assoc_get_set_other {A} k k' (v : A) ps :
  k <> k' -> assoc_get k' (assoc_set k v ps) = assoc_get k' ps.
Proof.
  intros Hne. induction ps as [|[k0 v0] ps IH]; simpl.
  - rewrite eqb_neq_false; [reflexivity | congruence].
  - destruct (String.eqb_spec k k0) as [->|Hk]; simpl.
    + rewrite (eqb_neq_false k' k0); [|congruence].
      reflexivity.
    + destruct (String.eqb k' k0); [reflexivity | exact IH].
Qed.

Lemma plain_key_parts k :
  plain_key k = true ->
  uint_key k = None /\ String.eqb k "length" = false /\ unsafe_key k = false
  /\ segment k = true /\ inherited k = false.
Proof.
  unfold plain_key. destruct (uint_key k); [discriminate|].
  rewrite !andb_true_iff, !negb_true_iff. tauto.
Qed.

Lemma plain_key_not_length k : plain_key k = true -> String.eqb k "length" = false.
Proof. intros H. now apply plain_key_parts in H. Qed.

Lemma plain_key_safe k : plain_key k = true -> unsafe_key k = false.
Proof. intros H. now apply plain_key_parts in H. Qed.

Lemma plain_key_segment k : plain_key k = true -> segment k = true.
Proof. intros H. now apply plain_key_parts in H. Qed.

Lemma plain_key_not_index k : plain_key k = true -> array_index k = None.
Proof.
  intros H. apply plain_key_parts in H as (H & _).
  unfold array_index. now rewrite H.
Qed.

Lemma plain_key_isIndex k : plain_key k = true -> isIndex k = false.
Proof.
  intros H. apply plain_key_parts in H as (H & _).
  unfold isIndex. now rewrite H.
Qed.

(** *** Segments and dotted names *)

Lemma digit_segment_char a d : digit_of a = Some d -> segment_char a = true.
Proof.
  intros H. unfold segment_char.
  destruct (Ascii.eqb_spec a "."%char) as [->|_];
    [vm_compute in H; discriminate|].
  destruct (Ascii.eqb_spec a "["%char) as [->|_];
    [vm_compute in H; discriminate|].
  destruct (Ascii.eqb_spec a "]"%char) as [->|_];
    [vm_compute in H; discriminate|].
  reflexivity.
Qed.

Lemma parse_digits_segment s : forall acc n,
  parse_digits s acc = Some n -> segment s = true.
Proof.
  induction s as [|a r IH]; intros acc n H; [reflexivity|].
  cbn [parse_digits] in H. destruct (digit_of a) eqn:E; [|discriminate].
  cbn [segment]. rewrite (digit_segment_char _ _ E). simpl. eauto.
Qed.

Lemma uint_key_segment k n : uint_key k = Some n -> segment k = true.
Proof.
  destruct k as [|a [|b r]]; cbn [uint_key]; [discriminate| |].
  - intros H. cbn [segment]. now rewrite (digit_segment_char _ _ H).
  - destruct (Ascii.eqb a "0"); [discriminate|]. apply parse_digits_segment.
Qed.

(** A name that is not a segment is an ordinary property name of an
    object and of an array. *)
Lemma deep_key_named d :
  segment d = false ->
  String.eqb d "length" = false /\ array_index d = None
  /\ unsafe_key d = false.
Proof.
  intros H. repeat split.
  - destruct (String.eqb_spec d "length") as [->|]; [discriminate|reflexivity].
  - unfold array_index. destruct (uint_key d) eqn:E; [|reflexivity].
    apply uint_key_segment in E. congruence.
  - unfold unsafe_key.
    destruct (String.eqb_spec d "__proto__") as [->|]; [discriminate|].
    destruct (String.eqb_spec d "constructor") as [->|]; [discriminate|].
    destruct (String.eqb_spec d "prototype") as [->|]; [discriminate|].
    reflexivity.
Qed.

Lemma segment_app a b : segment (a ++ b) = segment a && segment b.
Proof.
  induction a as [|c a IH]; [reflexivity|].
  change (segment (String c (a +:+ b))
          = segment_char c && segment a && segment b).
  cbn [segment]. now rewrite IH, andb_assoc.
Qed.

Lemma dotted_cons k k2 r :
  dotted (k :: k2 :: r) = (k ++ String "." (dotted (k2 :: r)))%string.
Proof. reflexivity. Qed.

Lemma segment_dotted k k2 r : segment (dotted (k :: k2 :: r)) = false.
Proof.
  rewrite dotted_cons, segment_app. cbn [segment].
  change (segment_char ".") with false. now rewrite andb_false_r.
Qed.

Lemma append_dot_inj k : forall k' s s',
  segment k = true -> segment k' = true ->
  (k ++ String "." s)%string = (k' ++ String "." s')%string ->
  k = k' /\ s = s'.
Proof.
  induction k as [|a k IH]; intros [|a' k'] s s' Hk Hk' H;
    cbn [String.append] in H.
  - now injection H as <-.
  - injection H as <- _. discriminate Hk'.
  - injection H as -> _. discriminate Hk.
  - injection H as <- H. cbn [segment] in Hk, Hk'.
    apply andb_true_iff in Hk as [_ Hk]. apply andb_true_iff in Hk' as [_ Hk'].
    destruct (IH _ _ _ Hk Hk' H) as [<- <-]. now split.
Qed.

Lemma dotted_inj p : forall q,
  forallb segment p = true -> forallb segment q = true ->
  p <> [] -> q <> [] -> dotted p = dotted q -> p = q.
Proof.
  induction p as [|k p IH]; intros [|k' q] Hp Hq Hpn Hqn H; try congruence.
  cbn [forallb] in Hp, Hq.
  apply andb_true_iff in Hp as [Hk Hp]. apply andb_true_iff in Hq as [Hk' Hq].
  destruct p as [|k2 p], q as [|k2' q].
  - cbn in H. now subst.
  - rewrite dotted_cons in H. change (dotted [k]) with k in H.
    rewrite H, segment_app in Hk. cbn [segment] in Hk.
    change (segment_char ".") with false in Hk.
    now rewrite andb_false_r in Hk.
  - rewrite dotted_cons in H. change (dotted [k']) with k' in H.
    rewrite <- H, segment_app in Hk'. cbn [segment] in Hk'.
    change (segment_char ".") with false in Hk'.
    now rewrite andb_false_r in Hk'.
  - rewrite !dotted_cons in H.
    destruct (append_dot_inj _ _ _ _ Hk Hk' H) as [<- H'].
    f_equal. apply IH; congruence.
Qed.

Lemma plain_path_segments p : plain_path p = true -> forallb segment p = true.
Proof.
  unfold plain_path. rewrite !forallb_forall.
  intros H k Hk. apply plain_key_segment. now apply H.
Qed.

Lemma isObject_set_prop o k v : isObject (set_prop o k v) = isObject o.
Proof.
  destruct o; simpl; try reflexivity.
  destruct (String.eqb k "length").
  - destruct v; try reflexivity. now destruct (_ && _).
  - now destruct (array_index k).
Qed.

Lemma isArray_set_prop o k v : isArray (set_prop o k v) = isArray o.
Proof.
  destruct o; simpl; try reflexivity.
  destruct (String.eqb k "length").
  - destruct v; try reflexivity. now destruct (_ && _).
  - now destruct (array_index k).
Qed.

(** Reading and assigning a name that is neither [length] nor an
    index. *)
Lemma get_set_prop_same_named o k v :
  isObject o = true -> String.eqb k "length" = false -> array_index k = None ->
  get_prop (set_prop o k v) k = v.
Proof.
  intros Ho Hl Hi.
  destruct o; try discriminate; simpl.
  - rewrite Hl, Hi. simpl. rewrite Hl, Hi. now rewrite assoc_get_set_same.
  - now rewrite assoc_get_set_same.
Qed.

Lemma get_set_prop_other_named o k k' v :
  String.eqb k' "length" = false -> array_index k' = None -> k <> k' ->
  get_prop (set_prop o k v) k' = get_prop o k'.
Proof.
  intros Hl Hi Hne.
  destruct o; try reflexivity; simpl.
  - destruct (String.eqb k "length").
    + destruct v; try reflexivity.
      destruct (_ && _); [|reflexivity]. simpl. now rewrite Hl, Hi.
    + destruct (array_index k); simpl; rewrite Hl, Hi; [reflexivity|].
      now rewrite assoc_get_set_other.
  - now rewrite assoc_get_set_other.
Qed.

Lemma has_key_set_prop_same o k v :
  isObject o = true -> String.eqb k "length" = false -> array_index k = None ->
  has_key (set_prop o k v) k = true.
Proof.
  intros Ho Hl Hi.
  destruct o; try discriminate; simpl.
  - rewrite Hl, Hi. simpl. rewrite Hl, Hi, assoc_get_set_same.
    apply bool_decide_eq_true. eauto.
  - rewrite assoc_get_set_same. apply bool_decide_eq_true. eauto.
Qed.

Lemma has_key_set_prop_other o k k' v :
  String.eqb k' "length" = false -> array_index k' = None -> k <> k' ->
  has_key (set_prop o k v) k' = has_key o k'.
Proof.
  intros Hl Hi Hne.
  destruct o; try reflexivity; simpl.
  - destruct (String.eqb k "length").
    + destruct v; try reflexivity.
      destruct (_ && _); [|reflexivity]. simpl. now rewrite Hl, Hi.
    + destruct (array_index k); simpl; rewrite Hl, Hi; [reflexivity|].
      now rewrite assoc_get_set_other.
  - now rewrite assoc_get_set_other.
Qed.

Lemma get_set_prop_same o k v :
  isObject o = true -> plain_key k = true -> get_prop (set_prop o k v) k = v.
Proof.
  intros Ho Hk.
  apply get_set_prop_same_named;
    [assumption|now apply plain_key_not_length|now apply plain_key_not_index].
Qed.

Lemma get_set_prop_other o k k' v :
  plain_key k' = true -> k <> k' ->
  get_prop (set_prop o k v) k' = get_prop o k'.
Proof.
  intros Hk Hne.
  apply get_set_prop_other_named;
    [now apply plain_key_not_length|now apply plain_key_not_index|assumption].
Qed.

Lemma get_prop_primitive o k :
  isObject o = false -> plain_key k = true -> get_prop o k = VUndefined.
Proof.
  intros Ho Hk. destruct o; try discriminate; try reflexivity.
  simpl. now rewrite (plain_key_not_length _ Hk), (plain_key_not_index _ Hk).
Qed.

Lemma baseGet_undefined p : baseGet VUndefined p = VUndefined.
Proof. now destruct p. Qed.

Lemma baseGet_primitive o p :
  isObject o = false -> p <> [] -> plain_path p = true ->
  baseGet o p = VUndefined.
Proof.
  intros Ho Hp Hpl. destruct p as [|k rest]; [congruence|].
  simpl in *. apply andb_true_iff in Hpl as [Hk _].
  destruct (nullish o); [reflexivity|].
  rewrite get_prop_primitive by assumption. apply baseGet_undefined.
Qed.

Lemma get_prop_empty_object k : get_prop (VObj []) k = VUndefined.
Proof. reflexivity. Qed.

Lemma get_prop_empty_array k :
  plain_key k = true -> get_prop (VArr [] []) k = VUndefined.
Proof.
  intros Hk. simpl.
  now rewrite (plain_key_not_length _ Hk), (plain_key_not_index _ Hk).
Qed.

Lemma isObject_baseSet o p v :
  isObject o = true -> isObject (baseSet o p v) = true.
Proof.
  intros Ho. destruct p as [|k [|k2 rest]]; simpl; [assumption| |];
    destruct (unsafe_key k); try assumption; now rewrite isObject_set_prop.
Qed.

Lemma isObject_not_nullish o : isObject o = true -> nullish o = false.
Proof. now destruct o. Qed.

Lemma baseSet_unsafe o k rest v :
  unsafe_key k = true -> baseSet o (k :: rest) v = o.
Proof. intros H. destruct rest; simpl; now rewrite H. Qed.

Lemma baseSet_single o k v :
  unsafe_key k = false -> baseSet o [k] v = set_prop o k v.
Proof. intros H. simpl. now rewrite H. Qed.

Lemma baseSet_cons o k k2 rest v :
  unsafe_key k = false ->
  baseSet o (k :: k2 :: rest) v =
  set_prop o k
    (baseSet (if isObject (get_prop o k) then get_prop o k else fresh_for k2)
       (k2 :: rest) v).
Proof. intros H. cbn [baseSet]. now rewrite H. Qed.

Lemma isObject_fresh_for k : isObject (fresh_for k) = true.
Proof. unfold fresh_for. now destruct (isIndex k). Qed.

(** Reading back what was assigned. *)
Lemma baseGet_baseSet_same p : forall o v,
  isObject o = true -> p <> [] -> plain_path p = true ->
  baseGet (baseSet o p v) p = v.
Proof.
  induction p as [|k rest IH]; intros o v Ho Hp Hpl; [congruence|].
  apply andb_true_iff in Hpl as [Hk Hrest].
  pose proof (plain_key_safe _ Hk) as Hsafe.
  destruct rest as [|k2 rest].
  - rewrite baseSet_single by assumption. cbn [baseGet].
    rewrite isObject_not_nullish by now rewrite isObject_set_prop.
    now apply get_set_prop_same.
  - rewrite baseSet_cons by assumption. cbn [baseGet].
    rewrite isObject_not_nullish by now rewrite isObject_set_prop.
    rewrite get_set_prop_same by assumption.
    apply IH; [|congruence|assumption].
    destruct (isObject (get_prop o k)) eqn:E; [assumption|apply isObject_fresh_for].
Qed.

Lemma baseGet_fresh k2 p :
  p <> [] -> plain_path p = true -> baseGet (fresh_for k2) p = VUndefined.
Proof.
  intros Hp Hpl. destruct p as [|k rest]; [congruence|].
  apply andb_true_iff in Hpl as [Hk _].
  unfold fresh_for. destruct (isIndex k2); cbn [baseGet nullish].
  - rewrite get_prop_empty_array by assumption. apply baseGet_undefined.
  - apply baseGet_undefined.
Qed.

Import Settings.

Lemma comparable_nil_r p : comparable p [] = true.
Proof. now destruct p. Qed.

Lemma comparable_cons_false k k' q p :
  comparable (k :: q) (k' :: p) = false ->
  k <> k' \/ (k = k' /\ comparable q p = false).
Proof.
  simpl. destruct (String.eqb_spec k k') as [->|Hne]; simpl; auto.
Qed.

Lemma incomparable_nonempty q p :
  comparable q p = false -> q <> [] /\ p <> [].
Proof.
  destruct q, p; simpl; try discriminate; split; congruence.
Qed.

(** Assigning at [q] does not change what is read at a path that [q]
    does not interfere with. *)
Lemma baseGet_baseSet_other q : forall p o v,
  comparable q p = false -> plain_path p = true -> isObject o = true ->
  baseGet (baseSet o q v) p = baseGet o p.
Proof.
  induction q as [|k qr IH]; intros p o v Hc Hpl Ho; [discriminate|].
  destruct p as [|k' pr]; [now rewrite comparable_nil_r in Hc|].
  apply andb_true_iff in Hpl as [Hk' Hpr].
  assert (Hset : forall X, nullish (set_prop o k X) = false)
    by (intros X; apply isObject_not_nullish; now rewrite isObject_set_prop).
  destruct (unsafe_key k) eqn:Hsafe; [now rewrite baseSet_unsafe|].
  apply comparable_cons_false in Hc as [Hne|[-> Hc]].
  - destruct qr as [|k2 qr];
      [rewrite baseSet_single by assumption|rewrite baseSet_cons by assumption];
      cbn [baseGet]; rewrite Hset, (isObject_not_nullish o Ho);
      now rewrite get_set_prop_other.
  - destruct (incomparable_nonempty _ _ Hc) as [Hq Hp].
    destruct qr as [|k2 qr]; [congruence|].
    rewrite baseSet_cons by assumption. cbn [baseGet].
    rewrite Hset, (isObject_not_nullish o Ho), get_set_prop_same by assumption.
    destruct (isObject (get_prop o k')) eqn:E.
    + now apply IH.
    + rewrite IH by (try assumption; apply isObject_fresh_for).
      rewrite baseGet_fresh by assumption.
      symmetry. now apply baseGet_primitive.
Qed.

(** *** Deep copies *)

Lemma cloneDeep_json v : json v = true -> cloneDeep v = v.
Proof.
  induction v as [| | | | |es nm IHes IHnm|ps IH] using value_ind';
    try reflexivity; simpl; intros H.
  - apply andb_true_iff in H as [Hes Hnm].
    destruct nm; [|discriminate]. f_equal.
    induction es as [|e es IHl]; [reflexivity|].
    simpl in Hes. apply andb_true_iff in Hes as [He Hes].
    inversion IHes; subst. simpl. f_equal; auto.
  - f_equal. induction ps as [|[k x] ps IHl]; [reflexivity|].
    simpl in H. apply andb_true_iff in H as [Hx Hps].
    inversion IH; subst. simpl in *. f_equal; [f_equal|]; auto.
Qed.

Lemma truthy_cloneDeep v : truthy (cloneDeep v) = truthy v.
Proof. now destruct v. Qed.

Lemma isObject_cloneDeep v : isObject (cloneDeep v) = isObject v.
Proof. now destruct v. Qed.

Lemma assoc_get_map_clone k ps :
  assoc_get k (map (fun kv => (fst kv, cloneDeep (snd kv))) ps) =
  cloneDeep <$> assoc_get k ps.
Proof.
  induction ps as [|[k' x] ps IH]; [reflexivity|].
  simpl. now destruct (String.eqb k k').
Qed.

Lemma get_prop_cloneDeep_object ps k :
  get_prop (cloneDeep (VObj ps)) k = cloneDeep (get_prop (VObj ps) k).
Proof.
  simpl. rewrite assoc_get_map_clone. now destruct (assoc_get k ps).
Qed.

Lemma get_prop_cloneDeep_array es nm k :
  plain_key k = true -> get_prop (cloneDeep (VArr es nm)) k = VUndefined.
Proof.
  intros Hk. simpl.
  now rewrite (plain_key_not_length _ Hk), (plain_key_not_index _ Hk).
Qed.

Lemma cloneDeep_primitive o : isObject o = false -> cloneDeep o = o.
Proof. now destruct o. Qed.

Lemma cloneDeep_fresh k : cloneDeep (fresh_for k) = fresh_for k.
Proof. unfold fresh_for. now destruct (isIndex k). Qed.

(** The same independence, seen through a deep copy. *)
Lemma baseGet_cloneDeep_baseSet_other q : forall p o v,
  comparable q p = false -> plain_path p = true -> isObject o = true ->
  baseGet (cloneDeep (baseSet o q v)) p = baseGet (cloneDeep o) p.
Proof.
  induction q as [|k qr IH]; intros p o v Hc Hpl Ho; [discriminate|].
  destruct p as [|k' pr]; [now rewrite comparable_nil_r in Hc|].
  apply andb_true_iff in Hpl as [Hk' Hpr].
  destruct (unsafe_key k) eqn:Hsafe; [now rewrite baseSet_unsafe|].
  assert (Hshape : exists X, baseSet o (k :: qr) v = set_prop o k X /\
            (k = k' -> comparable qr pr = false ->
             baseGet (cloneDeep X) pr = baseGet (cloneDeep (get_prop o k)) pr)).
  { destruct qr as [|k2 qr].
    - exists v. split; [now apply baseSet_single|]. intros _ Hq.
      now destruct (incomparable_nonempty _ _ Hq).
    - eexists. split; [now apply baseSet_cons|]. intros -> Hq.
      destruct (incomparable_nonempty _ _ Hq) as [_ Hp].
      destruct (isObject (get_prop o k')) eqn:E.
      + now apply IH.
      + rewrite IH by (try assumption; apply isObject_fresh_for).
        rewrite cloneDeep_fresh, baseGet_fresh by assumption.
        rewrite cloneDeep_primitive by assumption.
        symmetry. now apply baseGet_primitive. }
  destruct Hshape as (X & -> & HX).
  destruct o as [| | | | |es nm|ps]; try discriminate.
  - pose proof (isArray_set_prop (VArr es nm) k X) as Ha.
    destruct (set_prop (VArr es nm) k X) as [| | | | |es' nm'|]; try discriminate.
    cbn [baseGet]. rewrite !get_prop_cloneDeep_array by assumption.
    reflexivity.
  - change (set_prop (VObj ps) k X) with (VObj (assoc_set k X ps)).
    cbn [baseGet]. cbn [cloneDeep nullish].
    change (VObj (map _ ?l)) with (cloneDeep (VObj l)).
    rewrite !get_prop_cloneDeep_object.
    change (VObj (assoc_set k X ps)) with (set_prop (VObj ps) k X).
    apply comparable_cons_false in Hc as [Hne|[-> Hc]].
    + now rewrite get_set_prop_other.
    + rewrite get_set_prop_same by auto. now apply HX.
Qed.

Lemma isObject_get_prop_primitive o k :
  isObject o = false -> isObject (get_prop o k) = false.
Proof.
  destruct o; try discriminate; try reflexivity. intros _. simpl.
  destruct (String.eqb k "length"); [reflexivity|].
  destruct (array_index k); [|reflexivity].
  unfold char_at. now destruct (String.get n s).
Qed.

Lemma record_route_primitive p : forall o,
  isObject o = false -> record_route o p = true.
Proof.
  induction p as [|k r IH]; intros o Ho; [reflexivity|].
  simpl. rewrite IH by now apply isObject_get_prop_primitive.
  now destruct o.
Qed.

(** Along a route of plain objects, reading commutes with the deep
    copy. *)
Lemma baseGet_cloneDeep_route p : forall o,
  record_route o p = true -> baseGet (cloneDeep o) p = cloneDeep (baseGet o p).
Proof.
  induction p as [|k r IH]; intros o Hr; [reflexivity|].
  simpl in Hr. apply andb_true_iff in Hr as [Ha Hr].
  destruct o as [| | | | |es nm|ps]; try discriminate;
    try (cbn [cloneDeep baseGet nullish]; reflexivity);
    try (cbn [cloneDeep baseGet nullish]; rewrite <- IH by assumption;
         now rewrite cloneDeep_primitive by now apply isObject_get_prop_primitive).
  cbn [baseGet]. cbn [cloneDeep nullish].
  change (VObj (map _ ?l)) with (cloneDeep (VObj l)).
  rewrite get_prop_cloneDeep_object. now apply IH.
Qed.

Lemma record_route_baseSet_same q : forall o v,
  isObject o = true -> record_route o q = true -> plain_path q = true ->
  record_route (baseSet o q v) q = true.
Proof.
  induction q as [|k qr IH]; intros o v Ho Hr Hpl; [reflexivity|].
  apply andb_true_iff in Hpl as [Hk Hqr].
  simpl in Hr. apply andb_true_iff in Hr as [Ha Hr].
  pose proof (plain_key_safe _ Hk) as Hsafe.
  destruct qr as [|k2 qr].
  - rewrite baseSet_single by assumption. simpl.
    now rewrite isArray_set_prop, Ha.
  - rewrite baseSet_cons by assumption. cbn [record_route].
    rewrite isArray_set_prop, Ha, get_set_prop_same by assumption.
    cbn [negb andb]. 
    destruct (isObject (get_prop o k)) eqn:E.
    + now apply IH.
    + apply IH; [apply isObject_fresh_for| |assumption].
      simpl in Hqr. apply andb_true_iff in Hqr as [Hk2 _].
      unfold fresh_for. rewrite plain_key_isIndex by assumption.
      cbn [record_route isArray negb andb get_prop assoc_get default].
      now apply record_route_primitive.
Qed.

Lemma record_route_baseSet_other q : forall p o v,
  comparable q p = false -> plain_path q = true -> plain_path p = true ->
  isObject o = true ->
  record_route o p = true -> record_route (baseSet o q v) p = true.
Proof.
  induction q as [|k qr IH]; intros p o v Hc Hql Hpl Ho Hr; [discriminate|].
  destruct p as [|k' pr]; [reflexivity|].
  apply andb_true_iff in Hpl as [Hk' Hpr].
  apply andb_true_iff in Hql as [Hk Hqr].
  simpl in Hr. apply andb_true_iff in Hr as [Ha Hr].
  pose proof (plain_key_safe _ Hk) as Hsafe.
  apply comparable_cons_false in Hc as [Hne|[-> Hc]].
  - destruct qr as [|k2 qr];
      [rewrite baseSet_single by assumption|rewrite baseSet_cons by assumption];
      cbn [record_route];
      now rewrite isArray_set_prop, Ha, get_set_prop_other.
  - destruct (incomparable_nonempty _ _ Hc) as [Hq Hp].
    destruct qr as [|k2 qr]; [congruence|].
    rewrite baseSet_cons by assumption. cbn [record_route].
    rewrite isArray_set_prop, Ha, get_set_prop_same by assumption.
    cbn [negb andb].
    destruct (isObject (get_prop o k')) eqn:E.
    + now apply IH.
    + apply IH; try assumption; [apply isObject_fresh_for|].
      pose proof Hqr as Hk2. simpl in Hk2. apply andb_true_iff in Hk2 as [Hk2 _].
      unfold fresh_for. rewrite plain_key_isIndex by assumption.
      destruct pr as [|k3 pr]; [congruence|].
      cbn [record_route isArray negb andb get_prop assoc_get default].
      now apply record_route_primitive.
Qed.

Lemma json_assoc_get k ps :
  forallb (fun kv => json (snd kv)) ps = true ->
  json (default VUndefined (assoc_get k ps)) = true.
Proof.
  induction ps as [|[k' x] ps IH]; [reflexivity|].
  simpl. intros [Hx Hps]%andb_true_iff.
  destruct (String.eqb k k'); auto.
Qed.

Lemma json_nth i es :
  forallb json es = true -> json (nth i es VUndefined) = true.
Proof.
  revert i. induction es as [|e es IH]; intros [|i]; simpl; try reflexivity;
    intros [He Hes]%andb_true_iff; auto.
Qed.

Lemma json_get_prop o k : json o = true -> json (get_prop o k) = true.
Proof.
  destruct o as [| | | | s|es nm|ps]; try reflexivity; simpl.
  - intros _. destruct (String.eqb k "length"); [reflexivity|].
    destruct (array_index k); [|reflexivity].
    unfold char_at. now destruct (String.get n s).
  - intros [Hes Hnm]%andb_true_iff.
    destruct (String.eqb k "length"); [reflexivity|].
    destruct (array_index k); [now apply json_nth|].
    destruct nm; [reflexivity|discriminate].
  - apply json_assoc_get.
Qed.

Lemma json_baseGet p : forall o, json o = true -> json (baseGet o p) = true.
Proof.
  induction p as [|k r IH]; intros o Ho; [assumption|].
  simpl. destruct (nullish o); [reflexivity|].
  apply IH. now apply json_get_prop.
Qed.

Lemma json_objectGet o p : json o = true -> json (objectGet o p) = true.
Proof. destruct p; [reflexivity|]. apply json_baseGet. Qed.

(** *** The direct-key case of lodash [castPath] *)

Lemma comparable_refl p : comparable p p = true.
Proof. induction p as [|k p IH]; [reflexivity|]. simpl. now rewrite String.eqb_refl. Qed.

Lemma objectGet_cast o p : p <> [] -> objectGet o p = baseGet o (castPath p o).
Proof. now destruct p. Qed.

Lemma castPath_nonempty p o : p <> [] -> castPath p o <> [].
Proof.
  destruct p as [|k [|k2 r]]; try (simpl; congruence).
  unfold castPath. now destruct (has_key o _).
Qed.

Lemma castPath_cases p o :
  castPath p o = p
  \/ ((exists k k2 r, p = k :: k2 :: r) /\ has_key o (dotted p) = true
      /\ castPath p o = [dotted p]).
Proof.
  destruct p as [|k [|k2 r]]; auto.
  unfold castPath. destruct (has_key o _) eqn:E; eauto 10.
Qed.

Lemma castPath_eq p o o' :
  (forall k k2 r, p = k :: k2 :: r ->
                  has_key o' (dotted p) = has_key o (dotted p)) ->
  castPath p o' = castPath p o.
Proof.
  destruct p as [|k [|k2 r]]; try reflexivity.
  intros H. unfold castPath. now rewrite (H _ _ _ eq_refl).
Qed.

Lemma dotted_named k k2 r :
  String.eqb (dotted (k :: k2 :: r)) "length" = false
  /\ array_index (dotted (k :: k2 :: r)) = None
  /\ unsafe_key (dotted (k :: k2 :: r)) = false.
Proof. apply deep_key_named, segment_dotted. Qed.

Lemma plain_key_not_dotted k' k k2 r :
  plain_key k' = true -> k' <> dotted (k :: k2 :: r).
Proof.
  intros Hk ->. apply plain_key_segment in Hk.
  now rewrite segment_dotted in Hk.
Qed.

(** The first key of a cast path is an ordinary name. *)
Lemma castPath_head_named p o k pr :
  plain_path p = true -> castPath p o = k :: pr ->
  String.eqb k "length" = false /\ array_index k = None
  /\ unsafe_key k = false.
Proof.
  intros Hpl. destruct (castPath_cases p o) as [->|((k1 & k2 & r & ->) & _ & ->)].
  - intros ->. apply andb_true_iff in Hpl as [Hk _].
    auto using plain_key_not_length, plain_key_not_index, plain_key_safe.
  - intros [= <- <-]. apply dotted_named.
Qed.

Lemma castPath_head_not_dotted q p o k k2 r :
  p = k :: k2 :: r -> comparable q p = false ->
  plain_path p = true -> plain_path q = true ->
  hd_error (castPath q o) <> Some (dotted p).
Proof.
  intros -> Hc Hp Hq.
  destruct (incomparable_nonempty _ _ Hc) as [Hqn _].
  destruct (castPath_cases q o) as [->|((k1 & k3 & r' & Hq') & _ & ->)].
  - destruct q as [|kq qr]; [congruence|]. intros [= H].
    apply andb_true_iff in Hq as [Hk _].
    apply (plain_key_not_dotted _ k k2 r) in Hk. congruence.
  - intros [= H]. apply dotted_inj in H;
      [|now apply plain_path_segments|now apply plain_path_segments
       |assumption|discriminate].
    rewrite H, comparable_refl in Hc. discriminate.
Qed.

(** Where a cast path of [q] and a cast path of [p] start: at the same
    key only when neither is cast. *)
Lemma castPath_heads_apart q p o o2 :
  comparable q p = false -> plain_path p = true ->
  plain_path q = true \/ tl p = [] ->
  (castPath q o = q /\ castPath p o2 = p)
  \/ hd_error (castPath q o) <> hd_error (castPath p o2).
Proof.
  intros Hc Hp Hq.
  destruct (castPath_cases p o2) as [Hp2|((k & k2 & r & Hp') & _ & Hp2)].
  - destruct (castPath_cases q o) as [Hq2|((k & k2 & r & ->) & _ & Hq2)];
      [now left|right].
    rewrite Hq2, Hp2.
    destruct p as [|k' pr]; [discriminate|]. intros [= H].
    apply andb_true_iff in Hp as [Hk _].
    apply (plain_key_not_dotted _ k k2 r) in Hk. congruence.
  - right. rewrite Hp2. subst p.
    destruct Hq as [Hq|Hq]; [|discriminate].
    now apply (castPath_head_not_dotted q _ o k k2 r).
Qed.

(** An assignment changes one property of the object it is made on. *)
Lemma baseSet_keeps o q v k' :
  String.eqb k' "length" = false -> array_index k' = None ->
  hd_error q <> Some k' ->
  get_prop (baseSet o q v) k' = get_prop o k'
  /\ has_key (baseSet o q v) k' = has_key o k'.
Proof.
  intros Hl Hi Hne.
  destruct q as [|k [|k2 r]]; [now split| |];
    cbn [baseSet]; (destruct (unsafe_key k); [now split|]);
    (split; [apply get_set_prop_other_named|apply has_key_set_prop_other]);
    try assumption; simpl in Hne; congruence.
Qed.

Lemma isArray_baseSet o q v : isArray (baseSet o q v) = isArray o.
Proof.
  destruct q as [|k [|k2 r]]; [reflexivity| |]; cbn [baseSet];
    (destruct (unsafe_key k); [reflexivity|]); apply isArray_set_prop.
Qed.

Lemma isArray_objectSet o q v : isArray (objectSet o q v) = isArray o.
Proof.
  unfold objectSet. destruct (isObject o); [apply isArray_baseSet|reflexivity].
Qed.

Lemma baseGet_baseSet_apart o q v k' pr :
  isObject o = true ->
  String.eqb k' "length" = false -> array_index k' = None ->
  hd_error q <> Some k' ->
  baseGet (baseSet o q v) (k' :: pr) = baseGet o (k' :: pr).
Proof.
  intros Ho Hl Hi Hne. cbn [baseGet].
  rewrite !isObject_not_nullish by (try apply isObject_baseSet; assumption).
  now rewrite (proj1 (baseSet_keeps o q v k' Hl Hi Hne)).
Qed.

Lemma has_key_objectSet_other q o v k k2 r :
  comparable q (k :: k2 :: r) = false ->
  plain_path (k :: k2 :: r) = true -> plain_path q = true ->
  has_key (objectSet o q v) (dotted (k :: k2 :: r))
  = has_key o (dotted (k :: k2 :: r)).
Proof.
  intros Hc Hp Hq. unfold objectSet.
  destruct (isObject o); [|reflexivity].
  destruct (dotted_named k k2 r) as (Hl & Hi & _).
  apply baseSet_keeps; try assumption.
  now apply (castPath_head_not_dotted q _ o k k2 r).
Qed.

Lemma castPath_objectSet_other q p o v :
  comparable q p = false -> plain_path p = true ->
  plain_path q = true \/ tl p = [] ->
  castPath p (objectSet o q v) = castPath p o.
Proof.
  intros Hc Hp Hq. apply castPath_eq. intros k k2 r ->.
  destruct Hq as [Hq|Hq]; [|discriminate].
  now apply has_key_objectSet_other.
Qed.

Lemma castPath_objectSet_same p o v :
  plain_path p = true -> castPath p (objectSet o p v) = castPath p o.
Proof.
  intros Hp. apply castPath_eq. intros k k2 r ->.
  destruct (dotted_named k k2 r) as (Hl & Hi & Hs).
  unfold objectSet. destruct (isObject o) eqn:Ho; [|reflexivity].
  unfold castPath. destruct (has_key o (dotted (k :: k2 :: r))) eqn:E.
  - rewrite baseSet_single by assumption.
    now apply has_key_set_prop_same.
  - rewrite <- E. apply baseSet_keeps; try assumption.
    intros [= H]. apply andb_true_iff in Hp as [Hk _].
    apply (plain_key_not_dotted _ k k2 r) in Hk. congruence.
Qed.

(** Reading back what [objectSet] assigned. *)
Lemma objectGet_objectSet_same p o v :
  isObject o = true -> p <> [] -> plain_path p = true ->
  objectGet (objectSet o p v) p = v.
Proof.
  intros Ho Hp Hpl.
  rewrite objectGet_cast, castPath_objectSet_same by assumption.
  unfold objectSet. rewrite Ho.
  destruct (castPath_cases p o) as [->|((k & k2 & r & ->) & _ & ->)].
  - now apply baseGet_baseSet_same.
  - destruct (dotted_named k k2 r) as (Hl & Hi & Hs).
    rewrite baseSet_single by assumption. cbn [baseGet].
    rewrite isObject_not_nullish by now rewrite isObject_set_prop.
    now apply get_set_prop_same_named.
Qed.

(** Assigning at [q] does not change what [objectGet] reads at a path
    that [q] does not interfere with. *)
Lemma objectGet_objectSet_other q p o v :
  comparable q p = false -> plain_path p = true ->
  plain_path q = true \/ tl p = [] ->
  objectGet (objectSet o q v) p = objectGet o p.
Proof.
  intros Hc Hpl Hq.
  destruct (incomparable_nonempty _ _ Hc) as [_ Hpn].
  rewrite !objectGet_cast, castPath_objectSet_other by assumption.
  unfold objectSet. destruct (isObject o) eqn:Ho; [|reflexivity].
  destruct (castPath_heads_apart q p o o Hc Hpl Hq) as [[-> ->]|Hne].
  - now apply baseGet_baseSet_other.
  - destruct (castPath p o) as [|k' pr] eqn:E;
      [now apply castPath_nonempty in E|].
    destruct (castPath_head_named _ _ _ _ Hpl E) as (Hl & Hi & _).
    now apply baseGet_baseSet_apart.
Qed.

Lemma isObject_objectSet o p v : isObject (objectSet o p v) = isObject o.
Proof.
  unfold objectSet. destruct (isObject o) eqn:Ho; [|assumption].
  now apply isObject_baseSet.
Qed.

(** The same, seen through a deep copy. *)
Lemma has_key_cloneDeep o k :
  String.eqb k "length" = false -> array_index k = None ->
  has_key (cloneDeep o) k = negb (isArray o) && has_key o k.
Proof.
  intros Hl Hi. destruct o as [| | | | s|es nm|ps]; try reflexivity.
  - simpl. now rewrite Hl, Hi.
  - simpl. rewrite assoc_get_map_clone. now destruct (assoc_get k ps).
Qed.

Lemma get_prop_cloneDeep_set_prop_other o k k' v :
  String.eqb k' "length" = false -> array_index k' = None -> k <> k' ->
  get_prop (cloneDeep (set_prop o k v)) k' = get_prop (cloneDeep o) k'.
Proof.
  intros Hl Hi Hne. destruct o as [| | | | |es nm|ps]; try reflexivity.
  - pose proof (isArray_set_prop (VArr es nm) k v) as Ha.
    destruct (set_prop (VArr es nm) k v) as [| | | | |es' nm'|];
      try discriminate.
    simpl. now rewrite Hl, Hi.
  - change (set_prop (VObj ps) k v) with (VObj (assoc_set k v ps)).
    rewrite !get_prop_cloneDeep_object.
    change (VObj (assoc_set k v ps)) with (set_prop (VObj ps) k v).
    now rewrite get_set_prop_other_named.
Qed.

Lemma get_prop_cloneDeep_baseSet_keeps o q v k' :
  String.eqb k' "length" = false -> array_index k' = None ->
  hd_error q <> Some k' ->
  get_prop (cloneDeep (baseSet o q v)) k' = get_prop (cloneDeep o) k'.
Proof.
  intros Hl Hi Hne.
  destruct q as [|k [|k2 r]]; [reflexivity| |];
    cbn [baseSet]; (destruct (unsafe_key k); [reflexivity|]);
    apply get_prop_cloneDeep_set_prop_other; try assumption;
    simpl in Hne; congruence.
Qed.

Lemma castPath_cloneDeep_objectSet_other q p o v :
  comparable q p = false -> plain_path p = true ->
  plain_path q = true \/ tl p = [] ->
  castPath p (cloneDeep (objectSet o q v)) = castPath p (cloneDeep o).
Proof.
  intros Hc Hp Hq. apply castPath_eq. intros k k2 r ->.
  destruct Hq as [Hq|Hq]; [|discriminate].
  destruct (dotted_named k k2 r) as (Hl & Hi & _).
  rewrite !has_key_cloneDeep, isArray_objectSet by assumption.
  now rewrite has_key_objectSet_other.
Qed.

Lemma objectGet_cloneDeep_objectSet_other q p o v :
  comparable q p = false -> plain_path p = true ->
  plain_path q = true \/ tl p = [] ->
  objectGet (cloneDeep (objectSet o q v)) p = objectGet (cloneDeep o) p.
Proof.
  intros Hc Hpl Hq.
  destruct (incomparable_nonempty _ _ Hc) as [_ Hpn].
  rewrite !objectGet_cast, castPath_cloneDeep_objectSet_other by assumption.
  unfold objectSet. destruct (isObject o) eqn:Ho; [|reflexivity].
  destruct (castPath_heads_apart q p o (cloneDeep o) Hc Hpl Hq)
    as [[-> ->]|Hne].
  - now apply baseGet_cloneDeep_baseSet_other.
  - destruct (castPath p (cloneDeep o)) as [|k' pr] eqn:E;
      [now apply castPath_nonempty in E|].
    destruct (castPath_head_named _ _ _ _ Hpl E) as (Hl & Hi & _).
    cbn [baseGet].
    rewrite !isObject_not_nullish
      by (rewrite isObject_cloneDeep; try apply isObject_baseSet; assumption).
    now rewrite get_prop_cloneDeep_baseSet_keeps.
Qed.

(** Assigning a property keeps what is read at a path that starts with
    another name. *)
Lemma objectGet_set_prop_other o k v p :
  plain_key k = true -> plain_path p = true -> hd_error p <> Some k ->
  objectGet (set_prop o k v) p = objectGet o p.
Proof.
  intros Hk Hpl Hne. destruct p as [|k' pr]; [reflexivity|].
  rewrite !objectGet_cast by discriminate.
  assert (Hcast : castPath (k' :: pr) (set_prop o k v) = castPath (k' :: pr) o).
  { apply castPath_eq. intros k1 k2 r E. rewrite E.
    destruct (dotted_named k1 k2 r) as (Hl & Hi & _).
    apply has_key_set_prop_other; try assumption.
    now apply plain_key_not_dotted. }
  rewrite Hcast.
  destruct (castPath (k' :: pr) o) as [|k1 r1] eqn:E;
    [now apply castPath_nonempty in E|].
  destruct (castPath_head_named _ _ _ _ Hpl E) as (Hl & Hi & _).
  assert (Hk1 : k <> k1).
  { destruct (castPath_cases (k' :: pr) o) as [H|((k2 & k3 & r & H') & _ & H)];
      rewrite H in E; injection E as <- <-.
    - intros ->. now apply Hne.
    - rewrite H'. now apply plain_key_not_dotted. }
  destruct (isObject o) eqn:Ho.
  - cbn [baseGet].
    rewrite !isObject_not_nullish by now rewrite ?isObject_set_prop.
    now rewrite get_set_prop_other_named.
  - now destruct o.
Qed.

(** Along a route of plain objects, reading commutes with the deep
    copy. *)
Lemma objectGet_cloneDeep_route o p :
  p <> [] -> record_route o (castPath p o) = true ->
  objectGet (cloneDeep o) p = cloneDeep (objectGet o p).
Proof.
  intros Hp Hr. rewrite !objectGet_cast by assumption.
  assert (Hcast : castPath p (cloneDeep o) = castPath p o).
  { apply castPath_eq. intros k k2 r ->.
    destruct (dotted_named k k2 r) as (Hl & Hi & _).
    rewrite has_key_cloneDeep by assumption.
    destruct (castPath (k :: k2 :: r) o) as [|k1 r1] eqn:E;
      [now apply castPath_nonempty in E|].
    cbn [record_route] in Hr. apply andb_true_iff in Hr as [-> _].
    reflexivity. }
  rewrite Hcast. now apply baseGet_cloneDeep_route.
Qed.

Lemma record_route_objectSet q p o v :
  (q = p \/ comparable q p = false) ->
  plain_path q = true -> plain_path p = true -> p <> [] ->
  record_route o (castPath p o) = true ->
  record_route (objectSet o q v) (castPath p (objectSet o q v)) = true.
Proof.
  intros Hqp Hq Hp Hpn Hr.
  destruct Hqp as [->|Hc].
  - rewrite castPath_objectSet_same by assumption.
    unfold objectSet. destruct (isObject o) eqn:Ho; [|assumption].
    destruct (castPath_cases p o) as [E|((k & k2 & r & ->) & _ & E)];
      rewrite E in *.
    + now apply record_route_baseSet_same.
    + cbn [record_route] in *. now rewrite isArray_baseSet.
  - rewrite castPath_objectSet_other by auto.
    unfold objectSet. destruct (isObject o) eqn:Ho; [|assumption].
    destruct (castPath_heads_apart q p o o Hc Hp (or_introl Hq))
      as [[-> E]|Hne].
    + rewrite E in *. now apply record_route_baseSet_other.
    + destruct (castPath p o) as [|k' pr] eqn:E;
        [now apply castPath_nonempty in E|].
      destruct (castPath_head_named _ _ _ _ Hp E) as (Hl & Hi & _).
      cbn [record_route] in *.
      now rewrite isArray_baseSet, (proj1 (baseSet_keeps o _ v k' Hl Hi Hne)).
Qed.

End JSFacts.

Module MergerFacts.
Import JS Settings JSFacts.

Lemma comparable_sym p : forall q, comparable p q = comparable q p.
Proof.
  induction p as [|k p IH]; intros [|k' q]; simpl; try reflexivity.
  now rewrite IH, String.eqb_sym.
Qed.

Lemma includes_In l p : includes l p = true <-> In p l.
Proof.
  unfold includes. rewrite bool_decide_eq_true. apply list_elem_of_In.
Qed.

Lemma includes_not_In l p : includes l p = false <-> ~ In p l.
Proof.
  rewrite <- includes_In. destruct (includes l p); split; congruence.
Qed.

Lemma In_localProperties SP RM p :
  In p (localProperties SP RM) <-> In p SP /\ ~ In p RM.
Proof.
  unfold localProperties. rewrite filter_In, negb_true_iff.
  now rewrite includes_not_In.
Qed.

Lemma independent_spec l p :
  independent l = true -> In p l ->
  p <> [] /\ plain_path p = true /\
  forall q, In q l -> q <> p -> comparable q p = false.
Proof.
  unfold independent. rewrite forallb_forall. intros H Hp.
  specialize (H p Hp).
  apply andb_true_iff in H as [H Hall].
  apply andb_true_iff in H as [Hne Hpl].
  split; [now destruct p|]. split; [assumption|].
  intros q Hq Hqp. rewrite forallb_forall in Hall.
  specialize (Hall q Hq). apply orb_true_iff in Hall as [Heq|Hc].
  - apply bool_decide_eq_true in Heq. congruence.
  - rewrite comparable_sym. now apply negb_true_iff.
Qed.

Lemma independent_all_plain l :
  independent l = true -> forallb plain_path l = true.
Proof.
  intros Hind. apply forallb_forall. intros q Hq.
  now destruct (independent_spec _ _ Hind Hq) as (_ & Hpl & _).
Qed.

Lemma apart_from_spec l r q :
  apart_from l r = true -> In q l -> comparable q r = false.
Proof.
  unfold apart_from. rewrite forallb_forall. intros H Hq.
  now apply negb_true_iff, H.
Qed.

Section Loop.
Variables SensitiveProperties RootBotManagedProperties : list path.
Variable localSetting : value.

Local Abbreviation step :=
  (mergeProperty RootBotManagedProperties localSetting).
Local Abbreviation assigned :=
  (localProperties SensitiveProperties RootBotManagedProperties).

Lemma mergeProperty_managed m q :
  In q RootBotManagedProperties -> step m q = m.
Proof.
  intros H. unfold mergeProperty.
  now rewrite (proj2 (includes_In _ _) H).
Qed.

Lemma mergeProperty_assigned m q :
  ~ In q RootBotManagedProperties ->
  step m q = objectSet m q (localValue localSetting q).
Proof.
  intros H. unfold mergeProperty, localValue.
  rewrite (proj2 (includes_not_In _ _) H).
  now destruct (truthy (objectGet localSetting q)).
Qed.

(** A property of the merged settings that every assignment of the
    loop keeps is kept by the loop. *)
Lemma loop_invariant (I : value -> Prop) (l : list path) :
  (forall q m, In q l -> ~ In q RootBotManagedProperties ->
               I m -> I (objectSet m q (localValue localSetting q))) ->
  forall m, I m -> I (fold_left step l m).
Proof.
  induction l as [|q l IH]; intros Hstep m Hm; [assumption|].
  simpl. apply IH.
  - intros q' m' Hq'. apply Hstep. now right.
  - destruct (includes RootBotManagedProperties q) eqn:E.
    + apply includes_In in E. now rewrite mergeProperty_managed.
    + apply includes_not_In in E.
      rewrite mergeProperty_assigned by assumption.
      apply Hstep; [now left|assumption|assumption].
Qed.

Lemma loop_isObject l m :
  isObject m = true -> isObject (fold_left step l m) = true.
Proof.
  apply (loop_invariant (fun m => isObject m = true)).
  intros q m' _ _ H. now rewrite isObject_objectSet.
Qed.

(** After the loop, an assigned property holds the value the loop
    gave it. *)
Lemma loop_assigns p m :
  independent assigned = true ->
  In p SensitiveProperties -> ~ In p RootBotManagedProperties ->
  isObject m = true ->
  objectGet (fold_left step SensitiveProperties m) p
  = localValue localSetting p.
Proof.
  intros Hind Hp Hout Hm.
  assert (Hpa : In p assigned) by now apply In_localProperties.
  destruct (independent_spec _ _ Hind Hpa) as (Hne & Hpl & Hothers).
  assert (Hsub : forall q, In q SensitiveProperties ->
            ~ In q RootBotManagedProperties -> q <> p ->
            comparable q p = false /\ plain_path q = true).
  { intros q Hq Hqo Hqp. split.
    - apply Hothers; [|assumption]. now apply In_localProperties.
    - eapply independent_spec; [eassumption|]. now apply In_localProperties. }
  clear Hind Hpa Hothers.
  revert m Hm Hp Hsub.
  generalize SensitiveProperties as l.
  intros l m Hm Hp Hsub.
  apply in_split in Hp as (l1 & l2 & ->).
  rewrite fold_left_app. simpl.
  rewrite mergeProperty_assigned by assumption.
  set (m1 := fold_left step l1 m).
  assert (Hm1 : isObject m1 = true) by now apply loop_isObject.
  apply (loop_invariant
           (fun x => isObject x = true /\
                     objectGet x p = localValue localSetting p)).
  - intros q x Hq Hqo [Hx Hget]. split; [now rewrite isObject_objectSet|].
    destruct (decide (q = p)) as [->|Hqp].
    + now apply objectGet_objectSet_same.
    + destruct (Hsub q) as [Hc Hql]; auto.
      { apply in_or_app. right. now right. }
      rewrite objectGet_objectSet_other; auto.
  - split; [now rewrite isObject_objectSet|].
    now apply objectGet_objectSet_same.
Qed.

(** The loop leaves alone what no assigned property interferes
    with. *)
Lemma assigned_plain q :
  forallb plain_path assigned = true ->
  In q SensitiveProperties -> ~ In q RootBotManagedProperties ->
  plain_path q = true.
Proof.
  rewrite forallb_forall. intros H Hq Hqo.
  apply H. now apply In_localProperties.
Qed.

Lemma independent_plain :
  independent assigned = true -> forallb plain_path assigned = true.
Proof. apply independent_all_plain. Qed.

(** The assigned properties are paths of plain names, or [r] is a
    single name. *)
Lemma loop_frame r m :
  apart_from assigned r = true -> plain_path r = true ->
  forallb plain_path assigned = true \/ tl r = [] ->
  objectGet (fold_left step SensitiveProperties m) r = objectGet m r.
Proof.
  intros Hap Hpl Hq.
  apply (loop_invariant (fun x => objectGet x r = objectGet m r));
    [|reflexivity].
  intros q x Hq' Hqo <-.
  apply objectGet_objectSet_other; [|assumption|].
  - eapply apart_from_spec; [eassumption|]. now apply In_localProperties.
  - destruct Hq as [Hq|Hq]; [left|now right]. now apply assigned_plain.
Qed.

Lemma loop_frame_clone r m :
  apart_from assigned r = true -> plain_path r = true ->
  forallb plain_path assigned = true \/ tl r = [] ->
  objectGet (cloneDeep (fold_left step SensitiveProperties m)) r
  = objectGet (cloneDeep m) r.
Proof.
  intros Hap Hpl Hq.
  apply (loop_invariant
           (fun x => objectGet (cloneDeep x) r = objectGet (cloneDeep m) r));
    [|reflexivity].
  intros q x Hq' Hqo <-.
  apply objectGet_cloneDeep_objectSet_other; [|assumption|].
  - eapply apart_from_spec; [eassumption|]. now apply In_localProperties.
  - destruct Hq as [Hq|Hq]; [left|now right]. now apply assigned_plain.
Qed.

Lemma loop_route p m :
  independent assigned = true ->
  In p SensitiveProperties -> ~ In p RootBotManagedProperties ->
  record_route m (castPath p m) = true ->
  let x := fold_left step SensitiveProperties m in
  record_route x (castPath p x) = true.
Proof.
  intros Hind Hp Hout Hr.
  assert (Hpa : In p assigned) by now apply In_localProperties.
  destruct (independent_spec _ _ Hind Hpa) as (Hne & Hpl & Hothers).
  apply (loop_invariant
           (fun x => record_route x (castPath p x) = true)); [|assumption].
  intros q x Hq Hqo Hx.
  assert (Hqa : In q assigned) by now apply In_localProperties.
  destruct (independent_spec _ _ Hind Hqa) as (_ & Hql & _).
  apply record_route_objectSet; try assumption.
  destruct (decide (q = p)) as [->|Hqp]; auto.
Qed.

End Loop.
End MergerFacts.

Module MergerTheorems.
Import JS Settings JSFacts MergerFacts Examples.

Section Theorems.
Variables SensitiveProperties RootBotManagedProperties : list path.
Variable convertSkillsToDictionary : value -> value.

Local Abbreviation assigned :=
  (localProperties SensitiveProperties RootBotManagedProperties).
Local Abbreviation mergeLocalStorage' :=
  (mergeLocalStorage SensitiveProperties RootBotManagedProperties).
Local Abbreviation getMergedSettings' :=
  (getMergedSettings SensitiveProperties RootBotManagedProperties
     convertSkillsToDictionary).

Lemma mergeLocalStorage_isObject storage projectId props :
  isObject (mergeLocalStorage' storage projectId (VObj props)) = true.
Proof.
  unfold mergeLocalStorage. cbn [spread].
  destruct (truthy _); [|reflexivity]. now apply loop_isObject.
Qed.

Lemma mergeLocalStorage_frame_clone storage projectId props r :
  apart_from assigned r = true -> plain_path r = true ->
  forallb plain_path assigned = true \/ tl r = [] ->
  objectGet (cloneDeep (mergeLocalStorage' storage projectId (VObj props))) r
  = objectGet (cloneDeep (VObj props)) r.
Proof.
  intros Hap Hpl Hq. unfold mergeLocalStorage. cbn [spread].
  destruct (truthy _); [|reflexivity]. now apply loop_frame_clone.
Qed.

Lemma baseGet_single o k : isObject o = true -> baseGet o [k] = get_prop o k.
Proof. intros Ho. simpl. now rewrite isObject_not_nullish. Qed.

Lemma mergeLuisName_isObject m botName :
  isObject m = true -> isObject (mergeLuisName m botName) = true.
Proof.
  intros Hm. unfold mergeLuisName.
  now rewrite isObject_objectSet, isObject_cloneDeep.
Qed.

(** The [skill] field tested by [getMergedSettings] is a copy of the
    incoming one. *)
Lemma skill_after_merges storage projectId props botName :
  apart_from assigned ["skill"] = true ->
  get_prop (mergeLuisName (mergeLocalStorage' storage projectId (VObj props))
              botName) "skill"
  = get_prop (cloneDeep (VObj props)) "skill".
Proof.
  intros Hap.
  rewrite <- !baseGet_single
    by (try apply mergeLuisName_isObject; try apply mergeLocalStorage_isObject;
        reflexivity).
  unfold mergeLuisName.
  change (baseGet ?o ["skill"]) with (objectGet o ["skill"]).
  rewrite objectGet_objectSet_other by (reflexivity || now right).
  apply mergeLocalStorage_frame_clone; [assumption|reflexivity|now right].
Qed.

(** Reading a path that does not start with [skill] is not affected by
    the conversion of the skill list. *)
Lemma getMergedSettings_outside_skill storage projectId props botName p :
  comparable ["skill"] p = false -> plain_path p = true ->
  objectGet (getMergedSettings' storage projectId (VObj props) botName) p
  = objectGet (mergeLuisName
                 (mergeLocalStorage' storage projectId (VObj props)) botName) p.
Proof.
  intros Hc Hpl. unfold getMergedSettings.
  set (y := mergeLuisName _ _).
  destruct (get_prop y "skill") eqn:E; try reflexivity.
  apply objectGet_set_prop_other; [reflexivity|assumption|].
  destruct p as [|k rest]; [discriminate|].
  intros [= ->]. simpl in Hc. now destruct rest.
Qed.

Lemma mergeLuisName_other m botName p :
  comparable ["luis"; "name"] p = false -> plain_path p = true ->
  objectGet (mergeLuisName m botName) p = objectGet (cloneDeep m) p.
Proof.
  intros Hc Hpl. unfold mergeLuisName.
  apply objectGet_objectSet_other; [assumption|assumption|now left].
Qed.

(** C1: every sensitive property that the root bot does not manage
    holds, in the settings returned by [getMergedSettings], the value
    stored locally for the project whenever that value is truthy and
    no array lies on the way to the property in the incoming settings;
    the root-bot-managed sensitive properties read the same before and
    after the local-storage merge, and in the result they do not
    depend on the local storage.  The properties written by the merge
    are paths of plain names, none a prefix of another, of [luis.name]
    or of [skill], and the stored entry is JSON data.  Properties are
    read as the code reads them, with lodash [get]. *)
Theorem local_sensitive_values_override
    (storage : gmap string value) (projectId : string)
    (props : props_t) (botName : value) :
  independent assigned = true ->
  apart_from assigned ["luis"; "name"] = true ->
  apart_from assigned ["skill"] = true ->
  let localSetting := settingStorage_get storage projectId in
  (forall p,
      In p SensitiveProperties -> ~ In p RootBotManagedProperties ->
      truthy localSetting = true -> json localSetting = true ->
      truthy (objectGet localSetting p) = true ->
      record_route (VObj props) (castPath p (VObj props)) = true ->
      objectGet (getMergedSettings' storage projectId (VObj props) botName) p
      = objectGet localSetting p)
  /\ (forall r,
      In r SensitiveProperties -> In r RootBotManagedProperties ->
      plain_path r = true -> apart_from assigned r = true ->
      objectGet (mergeLocalStorage' storage projectId (VObj props)) r
      = objectGet (VObj props) r
      /\ (comparable ["luis"; "name"] r = false ->
          comparable ["skill"] r = false ->
          objectGet (getMergedSettings' storage projectId (VObj props) botName) r
          = objectGet (getMergedSettings' ∅ projectId (VObj props) botName) r)).
Proof.
  intros Hind Hluis Hskill localSetting.
  pose proof (independent_plain _ _ Hind) as Hplain. split.
  - intros p Hp Hout Hlocal Hjson Hval Hroute.
    assert (Hpa : In p assigned) by now apply In_localProperties.
    destruct (independent_spec _ _ Hind Hpa) as (Hne & Hpl & _).
    rewrite getMergedSettings_outside_skill;
      [|rewrite comparable_sym; eapply apart_from_spec; eassumption|assumption].
    rewrite mergeLuisName_other;
      [|rewrite comparable_sym; eapply apart_from_spec; eassumption|assumption].
    assert (Hm : mergeLocalStorage' storage projectId (VObj props)
                 = fold_left (mergeProperty RootBotManagedProperties localSetting)
                     SensitiveProperties (VObj props)).
    { unfold mergeLocalStorage. fold localSetting. now rewrite Hlocal. }
    rewrite Hm.
    rewrite objectGet_cloneDeep_route by (try assumption; now apply loop_route).
    rewrite loop_assigns by (try assumption; reflexivity).
    unfold localValue. rewrite Hval.
    apply cloneDeep_json. now apply json_objectGet.
  - intros r Hr Hman Hpl Hap. split.
    + unfold mergeLocalStorage. cbn [spread].
      destruct (truthy _); [|reflexivity]. apply loop_frame; auto.
    + intros Hcl Hcs.
      rewrite !getMergedSettings_outside_skill by assumption.
      rewrite !mergeLuisName_other by assumption.
      rewrite !mergeLocalStorage_frame_clone by auto. reflexivity.
Qed.



(** C8: when the incoming [skill] field is an array, the settings
    returned by [getMergedSettings] are those of the preceding merge
    steps with [skill] replaced by [convertSkillsToDictionary] applied
    to the array of shallow copies of its elements; when it is not an
    array, they are those of the preceding merge steps.  The settings
    are JSON data, and no property written by the local-storage merge
    lies under [skill]. *)
Theorem skill_array_to_dictionary
    (storage : gmap string value) (projectId : string)
    (props : props_t) (botName : value) :
  apart_from assigned ["skill"] = true ->
  json (VObj props) = true ->
  let merged :=
    mergeLuisName (mergeLocalStorage' storage projectId (VObj props)) botName in
  let result := getMergedSettings' storage projectId (VObj props) botName in
  (forall elems named,
      get_prop (VObj props) "skill" = VArr elems named ->
      result = set_prop merged "skill"
                 (convertSkillsToDictionary (VArr (map spread elems) []))
      /\ get_prop result "skill"
         = convertSkillsToDictionary (VArr (map spread elems) []))
  /\ (isArray (get_prop (VObj props) "skill") = false -> result = merged).
Proof.
  intros Hap Hjson merged result.
  assert (Hskill : get_prop merged "skill" = get_prop (VObj props) "skill").
  { unfold merged. rewrite skill_after_merges by assumption.
    now rewrite (cloneDeep_json _ Hjson). }
  assert (Hobj : isObject merged = true)
    by apply mergeLuisName_isObject, mergeLocalStorage_isObject.
  split.
  - intros elems named Harr.
    assert (Hres : result = set_prop merged "skill"
              (convertSkillsToDictionary (VArr (map spread elems) []))).
    { unfold result, getMergedSettings. fold merged.
      now rewrite Hskill, Harr. }
    split; [assumption|].
    rewrite Hres. now apply get_set_prop_same.
  - intros Hnot. unfold result, getMergedSettings. fold merged.
    rewrite Hskill. now destruct (get_prop (VObj props) "skill").
Qed.

(** C5: the result of [getMergedSettings] is determined by its
    arguments together with the entry that local storage holds for the
    project: two calls with equal arguments and an equal stored entry
    return equal results. *)
Theorem getMergedSettings_determined
    (storage1 storage2 : gmap string value) (projectId : string)
    (settings : value) (botName : value) :
  settingStorage_get storage1 projectId = settingStorage_get storage2 projectId ->
  getMergedSettings' storage1 projectId settings botName
  = getMergedSettings' storage2 projectId settings botName.
Proof.
  intros H. unfold getMergedSettings, mergeLocalStorage. now rewrite H.
Qed.

End Theorems.

Lemma local_sensitive_values_override_witness :
  objectGet (getMergedSettings exampleSensitive exampleRootManaged
               exampleConvert exampleStorage "bot-1" (VObj exampleSettings)
               (VStr "EchoBot")) ["MicrosoftAppPassword"]
  = VStr "secret"
  /\ objectGet (mergeLocalStorage exampleSensitive exampleRootManaged
                 exampleStorage "bot-1" (VObj exampleSettings))
       ["luis"; "authoringKey"]
     = VStr "remote-key"
  /\ objectGet (getMergedSettings exampleSensitive exampleRootManaged
                 exampleConvert exampleKeyStorage "bot-1"
                 (VObj exampleFlatSettings) (VStr "EchoBot"))
       ["qna"; "endpointKey"]
     = VStr "local-endpoint".
Proof.
  pose proof (local_sensitive_values_override exampleSensitive
                exampleRootManaged exampleConvert exampleStorage "bot-1"
                exampleSettings (VStr "EchoBot") eq_refl eq_refl eq_refl) as [Ha Hb].
  pose proof (local_sensitive_values_override exampleSensitive
                exampleRootManaged exampleConvert exampleKeyStorage "bot-1"
                exampleFlatSettings (VStr "EchoBot") eq_refl eq_refl eq_refl)
    as [Hflat _].
  split; [|split].
  - apply (Ha ["MicrosoftAppPassword"]); try reflexivity.
    + simpl. auto.
    + simpl. intros [H|[H|[H|[]]]]; discriminate.
  - apply (Hb ["luis"; "authoringKey"]); try reflexivity; simpl; auto.
  - apply (Hflat ["qna"; "endpointKey"]); try reflexivity.
    + simpl. auto 10.
    + simpl. intros [H|[H|[H|[]]]]; discriminate.
Defined.



Lemma skill_array_to_dictionary_witness :
  get_prop (getMergedSettings exampleSensitive exampleRootManaged
              exampleConvert exampleStorage "bot-1" (VObj exampleSettings)
              (VStr "EchoBot")) "skill"
  = VObj [("echo", VObj [("name", VStr "echo"); ("msAppId", VStr "42")])].
Proof.
  exact (proj2 (proj1 (skill_array_to_dictionary exampleSensitive
           exampleRootManaged exampleConvert exampleStorage "bot-1"
           exampleSettings (VStr "EchoBot") eq_refl eq_refl) _ _ eq_refl)).
Defined.

Lemma getMergedSettings_determined_witness :
  getMergedSettings exampleSensitive exampleRootManaged exampleConvert
    exampleStorage "bot-1" (VObj exampleSettings) (VStr "EchoBot")
  = getMergedSettings exampleSensitive exampleRootManaged exampleConvert
      (<["bot-2" := VNull]> exampleStorage) "bot-1" (VObj exampleSettings)
      (VStr "EchoBot").
Proof.
  apply getMergedSettings_determined. reflexivity.
Defined.

(** C1: with an array on the way to the property in the incoming
    settings, the locally stored value is lost.  lodash [set] steps
    into the array and assigns the value as a named property of it,
    and [cloneDeep], in [mergeLuisName], copies the elements of an
    array only. *)
Lemma local_value_lost_behind_array :
  In ["qna"; "endpointKey"] exampleSensitive
  /\ ~ In ["qna"; "endpointKey"] exampleRootManaged
  /\ truthy (settingStorage_get exampleKeyStorage "bot-1") = true
  /\ objectGet (settingStorage_get exampleKeyStorage "bot-1")
       ["qna"; "endpointKey"] = VStr "local-endpoint"
  /\ objectGet (mergeLocalStorage exampleSensitive exampleRootManaged
                  exampleKeyStorage "bot-1" (VObj exampleArraySettings))
       ["qna"; "endpointKey"] = VStr "local-endpoint"
  /\ objectGet (getMergedSettings exampleSensitive exampleRootManaged
                  exampleConvert exampleKeyStorage "bot-1"
                  (VObj exampleArraySettings) (VStr "EchoBot"))
       ["qna"; "endpointKey"] = VUndefined.
Proof.
  repeat split; try reflexivity.
  - simpl. auto 10.
  - simpl. intros [H|[H|[H|[]]]]; discriminate.
Qed.

(** Settings with properties whose own names are dotted paths: lodash
    reads and assigns those very properties, and makes no [luis] or
    [qna] object. *)
Lemma getMergedSettings_flat_names :
  getMergedSettings exampleSensitive exampleRootManaged exampleConvert
    exampleStorage "bot-1" (VObj exampleFlatSettings) (VStr "EchoBot")
  = VObj [("luis.name", VStr "Flat"); ("qna.endpointKey", VStr "");
          ("MicrosoftAppPassword", VStr "secret")].
Proof. reflexivity. Qed.

(** C5: with the same arguments, the result of [getMergedSettings]
    changes with what local storage holds for the project. *)
Lemma getMergedSettings_reads_local_storage :
  getMergedSettings exampleSensitive exampleRootManaged exampleConvert
    exampleStorage "bot-1" (VObj exampleSettings) (VStr "EchoBot")
  <> getMergedSettings exampleSensitive exampleRootManaged exampleConvert
       ∅ "bot-1" (VObj exampleSettings) (VStr "EchoBot").
Proof. vm_compute. discriminate. Qed.

End MergerTheorems.

Module StoreFacts.
Import JS Settings Examples.

(** On the sample project, the merge over the store returns what the
    merge over plain data computes. *)
Lemma run_mergeLocalStorage_result :
  fst (Store.run_mergeLocalStorage exampleSensitive exampleRootManaged
         (settingStorage_get exampleStorage "bot-1") (VObj exampleSettings))
  = mergeLocalStorage exampleSensitive exampleRootManaged exampleStorage
      "bot-1" (VObj exampleSettings).
Proof. vm_compute. reflexivity. Qed.

(** The top level of the caller's settings is copied, the nested objects
    are not: after the call, [qna.endpointKey] of the settings passed in
    has been overwritten, while [MicrosoftAppPassword] has not. *)
Lemma mergeLocalStorage_assigns_into_settings :
  let after :=
    snd (Store.run_mergeLocalStorage exampleSensitive exampleRootManaged
           (settingStorage_get exampleStorage "bot-1") (VObj exampleSettings)) in
  objectGet (VObj exampleSettings) ["qna"; "endpointKey"]
  = VStr "remote-endpoint"
  /\ objectGet after ["qna"; "endpointKey"] = VStr ""
  /\ objectGet after ["MicrosoftAppPassword"]
     = objectGet (VObj exampleSettings) ["MicrosoftAppPassword"].
Proof. vm_compute. auto. Qed.

End StoreFacts.

Module LoaderTheorems.
Import JS Exn Settings Loader Examples.
Local Open Scope outcome_scope.

Lemma bind_returned {A B} (c : outcome A) (k : A -> outcome B) r :
  bind c k = Returned r -> exists a, c = Returned a /\ k a = Returned r.
Proof. destruct c; simpl; [eauto|discriminate]. Qed.

Section Theorems.
Variables SensitiveProperties RootBotManagedProperties : list path.
Variable convertSkillsToDictionary : value -> value.
Variable storage : gmap string value.
Variable httpClient_put : string -> value -> outcome value.
Variable httpClient_get : string -> outcome value.
Variable indexer_index : value -> value -> outcome value.
Variable lgWorker_addProject : value -> outcome unit.
Variable BotIndexer_validate : value -> outcome value.

Local Abbreviation loadProjectData' :=
  (loadProjectData SensitiveProperties RootBotManagedProperties
     convertSkillsToDictionary storage indexer_index lgWorker_addProject
     BotIndexer_validate).
Local Abbreviation fetchProjectDataByPath' :=
  (fetchProjectDataByPath SensitiveProperties RootBotManagedProperties
     convertSkillsToDictionary storage httpClient_put indexer_index
     lgWorker_addProject BotIndexer_validate).
Local Abbreviation fetchProjectDataById' :=
  (fetchProjectDataById SensitiveProperties RootBotManagedProperties
     convertSkillsToDictionary storage httpClient_get indexer_index
     lgWorker_addProject BotIndexer_validate).

(** A project that loads carries no error. *)
Lemma loadProjectData_error data r :
  loadProjectData' data = Returned r -> error r = VUndefined.
Proof.
  unfold loadProjectData. intros H.
  repeat (apply bind_returned in H as (? & _ & H)).
  now inversion H.
Qed.

(** Whatever the request does, the [try] block with its [catch]
    returns a result record. *)
Lemma entry_point_resolves (request : outcome value) :
  exists r,
    try_catch
      (response <- request ;;
       data <- member response "data" ;;
       projectData <- loadProjectData' data ;;
       Returned projectData)
      failed
    = Returned r
    /\ match
         (response <- request ;;
          data <- member response "data" ;;
          loadProjectData' data)
       with
       | Returned loaded => r = loaded /\ error r = VUndefined
       | Thrown ex =>
           botFiles r = VUndefined /\ projectData r = VUndefined /\
           error r = ex
       end.
Proof.
  destruct request as [response|ex]; cbn [bind try_catch].
  - destruct (member response "data") as [data|ex]; cbn [bind try_catch].
    + destruct (loadProjectData' data) as [loaded|ex] eqn:E;
        cbn [bind try_catch].
      * exists loaded. split; [reflexivity|]. split; [reflexivity|].
        now apply loadProjectData_error in E.
      * eexists. split; [reflexivity|]. now cbn.
    + eexists. split; [reflexivity|]. now cbn.
  - eexists. split; [reflexivity|]. now cbn.
Qed.

(** C4: [fetchProjectDataByPath] and [fetchProjectDataById] always
    resolve to a result record.  When the request or the processing of
    the project data throws, the record has [botFiles] and
    [projectData] undefined and [error] is what was thrown; otherwise
    it is the loaded project, with [error] undefined. *)
Theorem fetch_resolves_to_result_or_error
    (path : string) (storageId : value) (isRootBot : bool)
    (projectId : value) :
  (exists r,
      fetchProjectDataByPath' path storageId isRootBot = Returned r /\
      match
        (response <- httpClient_put "/projects/open"
                       (VObj [("path", VStr path); ("storageId", storageId);
                              ("isRootBot", VBool isRootBot)]) ;;
         data <- member response "data" ;;
         loadProjectData' data)
      with
      | Returned loaded => r = loaded /\ error r = VUndefined
      | Thrown ex =>
          botFiles r = VUndefined /\ projectData r = VUndefined /\
          error r = ex
      end)
  /\ (exists r,
      fetchProjectDataById' projectId = Returned r /\
      match
        (response <- httpClient_get ("/projects/" ++ js_string projectId) ;;
         data <- member response "data" ;;
         loadProjectData' data)
      with
      | Returned loaded => r = loaded /\ error r = VUndefined
      | Thrown ex =>
          botFiles r = VUndefined /\ projectData r = VUndefined /\
          error r = ex
      end).
Proof.
  split; apply entry_point_resolves.
Qed.

End Theorems.

(** A project that loads: the merged settings carry the locally stored
    password, and the project data handed back hold the settings as the
    merge left them. *)
Example fetchProjectDataById_loads :
  exists r,
    fetchProjectDataById exampleSensitive exampleRootManaged exampleConvert
      exampleStorage exampleHttpGet exampleIndexer exampleAddProject
      exampleValidate (VStr "bot-1") = Returned r
    /\ error r = VUndefined
    /\ objectGet (botFiles r) ["mergedSettings"; "MicrosoftAppPassword"]
       = VStr "secret"
    /\ objectGet (botFiles r) ["lgFiles"; "0"; "isContentUnparsed"]
       = VBool true
    /\ objectGet (projectData r) ["settings"; "qna"; "endpointKey"]
       = VStr "".
Proof. eexists. split; [vm_compute; reflexivity|]. vm_compute. auto. Qed.

(** A request that is rejected: the rejection is the [error] of the
    result. *)
Example fetchProjectDataById_fails :
  fetchProjectDataById exampleSensitive exampleRootManaged exampleConvert
    exampleStorage exampleHttpGet exampleIndexer exampleAddProject
    exampleValidate (VStr "bot-2")
  = Returned {| botFiles := VUndefined; projectData := VUndefined;
                error := VObj [("message", VStr "Not Found")] |}.
Proof. reflexivity. Qed.

(** A response without project data: the [TypeError] of the
    destructuring is the [error] of the result. *)
Example fetchProjectDataByPath_bad_response :
  fetchProjectDataByPath exampleSensitive exampleRootManaged exampleConvert
    exampleStorage (fun _ _ => Returned (VObj [("status", VNum 204)]))
    exampleIndexer exampleAddProject exampleValidate "/bots/echo"
    (VStr "default") true
  = Returned {| botFiles := VUndefined; projectData := VUndefined;
                error := TypeError |}.
Proof. reflexivity. Qed.

End LoaderTheorems.

Module FailureTheorems.
Import JS Exn Recoil Failure Examples.
Local Open Scope outcome_scope.

Section Theorems.
Variables checkIfDotnetVersionMissing checkIfFunctionsMissing
  : value -> bool.
Variable setError : atoms -> value -> atoms.

Local Abbreviation handleProjectFailure' :=
  (handleProjectFailure checkIfDotnetVersionMissing
     checkIfFunctionsMissing setError).



End Theorems.


End FailureTheorems.

Module SkillTreeFacts.
Import JS Exn Recoil SkillTree.

(** *** What the callbacks do to the project space *)

Lemma addProjectToBotProjectSpace_ids a projectId skillCt :
  botProjectIdsState (addProjectToBotProjectSpace a projectId skillCt)
  = botProjectIdsState a ++ [projectId].
Proof.
  unfold addProjectToBotProjectSpace. now destruct (Nat.eqb _ _).
Qed.

Lemma addProjectToBotProjectSpace_flag a projectId skillCt :
  let a' := addProjectToBotProjectSpace a projectId skillCt in
  if Nat.eqb (length (botProjectIdsState a')) skillCt
  then loadedWrites a' = S (loadedWrites a)
       /\ botProjectSpaceLoadedState a' = true
  else loadedWrites a' = loadedWrites a
       /\ botProjectSpaceLoadedState a' = botProjectSpaceLoadedState a.
Proof.
  cbv zeta. rewrite addProjectToBotProjectSpace_ids.
  unfold addProjectToBotProjectSpace.
  destruct (Nat.eqb _ _); auto.
Qed.

Lemma addProjectToBotProjectSpace_counted total writes0 flag0 a projectId :
  counted total writes0 flag0 a ->
  counted total writes0 flag0 (addProjectToBotProjectSpace a projectId total).
Proof.
  intros [Hw Hf]. unfold counted.
  pose proof (addProjectToBotProjectSpace_flag a projectId total) as H.
  cbv zeta in H. revert H.
  rewrite addProjectToBotProjectSpace_ids, length_app. simpl.
  set (n := length (botProjectIdsState a)) in *.
  unfold crossed in *.
  destruct (Nat.eqb_spec (n + 1) total) as [E|E]; intros [-> ->].
  - rewrite Hw. destruct (Nat.leb_spec total n); [lia|].
    destruct (Nat.leb_spec total (n + 1)); [|lia]. split; [lia|reflexivity].
  - rewrite Hw, Hf.
    destruct (Nat.leb_spec total n), (Nat.leb_spec total (n + 1));
      try lia; split; reflexivity.
Qed.

Lemma setErrorOnBotProject_space a projectId payload :
  let a' := setErrorOnBotProject a projectId payload in
  botProjectIdsState a' = botProjectIdsState a
  /\ loadedWrites a' = loadedWrites a
  /\ botProjectSpaceLoadedState a' = botProjectSpaceLoadedState a.
Proof. unfold setErrorOnBotProject. now destruct (truthy _). Qed.

Lemma handleSkillLoadingFailure_space a isRemote ex name uuid :
  let a' := handleSkillLoadingFailure a isRemote ex name uuid in
  botProjectIdsState a' = botProjectIdsState a
  /\ loadedWrites a' = loadedWrites a
  /\ botProjectSpaceLoadedState a' = botProjectSpaceLoadedState a.
Proof.
  unfold handleSkillLoadingFailure. cbv zeta.
  now destruct (setErrorOnBotProject_space
                  (set_botNameIdentifier uuid name
                     (set_botDisplayName uuid name
                        (set_projectMetaData uuid false isRemote a)))
                  uuid ex) as (-> & -> & ->).
Qed.

Lemma handleSkillLoadingFailure_counted total writes0 flag0 a isRemote ex name uuid :
  counted total writes0 flag0 a ->
  counted total writes0 flag0
    (handleSkillLoadingFailure a isRemote ex name uuid).
Proof.
  unfold counted.
  now destruct (handleSkillLoadingFailure_space a isRemote ex name uuid)
    as (-> & -> & ->).
Qed.

Lemma settle_counted skill writes0 flag0 a how :
  counted (totalProjectsCount skill) writes0 flag0 a ->
  counted (totalProjectsCount skill) writes0 flag0 (settle skill a how).
Proof.
  intros H. destruct how as [projectId manifestResponse [[ex uuid]|]|ex uuid];
    simpl; unfold onFulfilled, onRejected;
    repeat (apply addProjectToBotProjectSpace_counted
            || apply handleSkillLoadingFailure_counted); assumption.
Qed.

Lemma settle_ids skill a how :
  botProjectIdsState (settle skill a how)
  = botProjectIdsState a ++ collected how.
Proof.
  destruct how as [projectId manifestResponse [[ex uuid]|]|ex uuid];
    simpl; unfold onFulfilled, onRejected;
    rewrite ?addProjectToBotProjectSpace_ids;
    rewrite ?(proj1 (handleSkillLoadingFailure_space _ _ _ _ _));
    rewrite ?addProjectToBotProjectSpace_ids, <- ?app_assoc; reflexivity.
Qed.

(** *** Loads in flight *)

Lemma take_Some name l skill others :
  take name l = Some (skill, others) ->
  nameIdentifier skill = name /\ In skill l
  /\ length l = S (length others)
  /\ (forall s, In s others -> In s l).
Proof.
  revert skill others. induction l as [|s r IH]; intros skill others; simpl;
    [discriminate|].
  destruct (named name s) eqn:E.
  - intros [= <- <-]. unfold named in E. apply String.eqb_eq in E.
    repeat split; auto.
  - destruct (take name r) as [[x r']|] eqn:Et; [|discriminate].
    intros [= <- <-]. destruct (IH _ _ eq_refl) as (Hn & Hin & Hlen & Hsub).
    split; [assumption|]. split; [now right|]. split.
    + simpl. simpl in Hlen. lia.
    + intros s' [<-|Hs']; [now left|right; auto].
Qed.

Lemma take_None name l :
  take name l = None <-> ~ In name (map nameIdentifier l).
Proof.
  induction l as [|s r IH]; simpl; [tauto|].
  unfold named at 1.
  destruct (String.eqb_spec name (nameIdentifier s)) as [->|Hne].
  - split; [discriminate|]. intros H. exfalso. apply H. now left.
  - destruct (take name r) as [[x r']|].
    + split; [discriminate|]. intros H. exfalso.
      assert (Hr : ~ In name (map nameIdentifier r)) by tauto.
      apply IH in Hr. discriminate.
    + split; [|reflexivity]. intros _ [H|H]; [congruence|].
      now apply (proj1 IH).
Qed.

Lemma take_In skill l :
  In skill l -> is_Some (take (nameIdentifier skill) l).
Proof.
  intros H. destruct (take (nameIdentifier skill) l) eqn:E; [eauto|].
  apply take_None in E. exfalso. apply E. now apply in_map.
Qed.

Lemma step_tracked total writes0 flag0 m event m' :
  tracked total writes0 flag0 m -> step m event = Some m' ->
  tracked total writes0 flag0 m'
  /\ botProjectIdsState (recoil m')
     = botProjectIdsState (recoil m) ++ collected (snd event)
  /\ length (pending m) = S (length (pending m'))
  /\ (forall s, In s (pending m') -> In s (pending m)).
Proof.
  intros [Hall Hc]. unfold step.
  destruct (take (fst event) (pending m)) as [[skill others]|] eqn:E;
    [|discriminate].
  intros [= <-]. simpl.
  destruct (take_Some _ _ _ _ E) as (Hn & Hin & Hlen & Hsub).
  rewrite List.Forall_forall in Hall.
  pose proof (Hall _ Hin) as Ht.
  split; [split|split; [|split]].
  - apply List.Forall_forall. auto.
  - rewrite <- Ht. apply settle_counted. now rewrite Ht.
  - apply settle_ids.
  - assumption.
  - assumption.
Qed.

Lemma run_tracked total writes0 flag0 events : forall m m',
  tracked total writes0 flag0 m -> run m events = Some m' ->
  tracked total writes0 flag0 m'
  /\ botProjectIdsState (recoil m')
     = botProjectIdsState (recoil m)
       ++ flat_map (fun e => collected (snd e)) events
  /\ length (pending m) = length events + length (pending m')
  /\ (forall s, In s (pending m') -> In s (pending m)).
Proof.
  induction events as [|e events IH]; intros m m' Ht; simpl.
  - intros [= <-]. rewrite app_nil_r. auto 6.
  - destruct (step m e) as [m1|] eqn:E; [|discriminate]. intros Hrun.
    destruct (step_tracked _ _ _ _ _ _ Ht E) as (Ht1 & Hids1 & Hlen1 & Hsub1).
    destruct (IH _ _ Ht1 Hrun) as (Ht' & Hids & Hlen & Hsub).
    split; [assumption|split; [|split]].
    + now rewrite Hids, Hids1, <- app_assoc.
    + lia.
    + auto.
Qed.

(** *** The loads started by [openRootBotAndSkills] *)

Section Opener.
Variable path_join : string -> string -> string.
Variable camelCase : string -> string.

Local Abbreviation startSkill' := (startSkill path_join).
Local Abbreviation openRootBotAndSkills' :=
  (openRootBotAndSkills path_join camelCase).

Lemma startSkill_Some root location storageId total entry p :
  startSkill' root location storageId total entry = Some p ->
  openable (snd entry) = true /\ nameIdentifier p = fst entry
  /\ totalProjectsCount p = total.
Proof.
  unfold startSkill, openable.
  destruct (negb (remote (snd entry)) && given (workspace (snd entry))).
  - now intros [= <-].
  - destruct (given (manifest (snd entry))); [|discriminate].
    now intros [= <-].
Qed.

Lemma startSkill_None root location storageId total entry :
  startSkill' root location storageId total entry = None
  <-> openable (snd entry) = false.
Proof.
  unfold startSkill, openable.
  destruct (negb (remote (snd entry)) && given (workspace (snd entry)));
    [split; discriminate|].
  destruct (given (manifest (snd entry))); split; (discriminate || reflexivity).
Qed.

Lemma omap_cons {A B} (f : A -> option B) x l :
  omap f (x :: l)
  = match f x with Some y => y :: omap f l | None => omap f l end.
Proof. reflexivity. Qed.

Lemma started_In root location storageId total skills p :
  In p (omap (startSkill' root location storageId total) skills) ->
  exists entry, In entry skills /\ openable (snd entry) = true
                /\ nameIdentifier p = fst entry
                /\ totalProjectsCount p = total.
Proof.
  induction skills as [|e skills IH]; [simpl; tauto|].
  rewrite omap_cons.
  destruct (startSkill' root location storageId total e) as [q|] eqn:E.
  - intros [<-|Hin].
    + exists e. split; [now left|]. eapply startSkill_Some. eassumption.
    + destruct (IH Hin) as (entry & ? & ?). exists entry. split; [now right|auto].
  - intros Hin. destruct (IH Hin) as (entry & ? & ?).
    exists entry. split; [now right|auto].
Qed.

Lemma started_length root location storageId total skills :
  length (omap (startSkill' root location storageId total) skills)
  <= length skills.
Proof.
  induction skills as [|e skills IH]; [simpl; lia|].
  rewrite omap_cons.
  destruct (startSkill' root location storageId total e); simpl; lia.
Qed.

Lemma started_all root location storageId total skills :
  forallb (fun e => openable (snd e)) skills = true ->
  length (omap (startSkill' root location storageId total) skills)
  = length skills.
Proof.
  induction skills as [|e skills IH]; [reflexivity|].
  rewrite omap_cons. simpl.
  intros [He Hall]%andb_true_iff.
  destruct (startSkill' root location storageId total e) eqn:E.
  - simpl. now rewrite IH.
  - apply startSkill_None in E. congruence.
Qed.

Lemma started_fewer root location storageId total skills entry :
  In entry skills -> openable (snd entry) = false ->
  length (omap (startSkill' root location storageId total) skills)
  < length skills.
Proof.
  induction skills as [|e skills IH]; [simpl; tauto|].
  rewrite omap_cons.
  intros [<-|Hin] Hno.
  - rewrite (proj2 (startSkill_None root location storageId total e) Hno).
    pose proof (started_length root location storageId total skills).
    simpl. lia.
  - specialize (IH Hin Hno).
    destruct (startSkill' root location storageId total e); simpl; lia.
Qed.

(** The machine [openRootBotAndSkills] leaves when the bot has
    skills. *)
Lemma openRootBotAndSkills_started a root name location storageId
    skills others :
  skills <> [] ->
  let total := length skills + 1 in
  let m := fst (openRootBotAndSkills' a root name location storageId
                  (skills :: others)) in
  pending m = omap (startSkill' root location storageId total) skills
  /\ botProjectIdsState (recoil m) = [root]
  /\ tracked total (loadedWrites a) (botProjectSpaceLoadedState a) m.
Proof.
  intros Hne total m.
  assert (Hlt : Nat.ltb 1 total = true).
  { apply Nat.ltb_lt. unfold total. destruct skills; [congruence|simpl; lia]. }
  unfold m, openRootBotAndSkills. fold total. rewrite Hlt. simpl.
  split; [reflexivity|]. split; [reflexivity|].
  split.
  - apply List.Forall_forall. intros p Hp.
    now destruct (started_In _ _ _ _ _ _ Hp) as (_ & _ & _ & _ & ->).
  - unfold counted, crossed. simpl.
    apply Nat.ltb_lt in Hlt.
    destruct (Nat.leb_spec total 1); [lia|]. split; [lia|reflexivity].
Qed.

End Opener.
End SkillTreeFacts.

Module SkillTreeTheorems.
Import JS Exn Recoil SkillTree SkillTreeFacts Examples.

Section Theorems.
Variable path_join : string -> string -> string.
Variable camelCase : string -> string.

Local Abbreviation startSkill' := (startSkill path_join).
Local Abbreviation openRootBotAndSkills' :=
  (openRootBotAndSkills path_join camelCase).

(** C2: [addProjectToBotProjectSpace] writes the loaded flag exactly
    when the project ids it has collected number [skillCt].  When the
    bot has no skill, [openRootBotAndSkills] writes the flag at once.
    When it has skills, however the loads settle, the project ids are
    the root bot followed by the ids collected from the settlements,
    and the flag has been written once if their number has reached the
    number of skills plus one, and not at all otherwise; it has been
    written exactly once when every skill is openable and every load
    has settled. *)
Theorem loaded_flag_set_once
    (a : atoms) (root name location storageId : string)
    (skills : list (string * BotProjectSpaceSkill))
    (others : list (list (string * BotProjectSpaceSkill))) :
  let total := length skills + 1 in
  let started :=
    openRootBotAndSkills' a root name location storageId (skills :: others) in
  (forall a0 projectId skillCt,
      let a1 := addProjectToBotProjectSpace a0 projectId skillCt in
      botProjectIdsState a1 = botProjectIdsState a0 ++ [projectId]
      /\ if Nat.eqb (length (botProjectIdsState a1)) skillCt
         then loadedWrites a1 = S (loadedWrites a0)
              /\ botProjectSpaceLoadedState a1 = true
         else loadedWrites a1 = loadedWrites a0
              /\ botProjectSpaceLoadedState a1
                 = botProjectSpaceLoadedState a0)
  /\ (skills = [] ->
      pending (fst started) = []
      /\ loadedWrites (recoil (fst started)) = S (loadedWrites a)
      /\ botProjectSpaceLoadedState (recoil (fst started)) = true)
  /\ (skills <> [] ->
      forall events m,
        run (fst started) events = Some m ->
        let ids := botProjectIdsState (recoil m) in
        ids = root :: flat_map (fun e => collected (snd e)) events
        /\ loadedWrites (recoil m)
           = loadedWrites a + (if (total <=? length ids)%nat then 1 else 0)
        /\ botProjectSpaceLoadedState (recoil m)
           = (if (total <=? length ids)%nat then true
              else botProjectSpaceLoadedState a)
        /\ (forallb (fun e => openable (snd e)) skills = true ->
            pending m = [] ->
            loadedWrites (recoil m) = S (loadedWrites a)
            /\ botProjectSpaceLoadedState (recoil m) = true)).
Proof.
  intros total started. split; [|split].
  - intros a0 projectId skillCt. split.
    + apply addProjectToBotProjectSpace_ids.
    + apply addProjectToBotProjectSpace_flag.
  - intros ->. unfold started, openRootBotAndSkills. simpl. auto.
  - intros Hne events m Hrun.
    destruct (openRootBotAndSkills_started path_join camelCase a root name
                location storageId skills others Hne)
      as (Hpending & Hids0 & Htracked).
    fold total in Hpending, Htracked. fold started in Hpending, Hids0, Htracked.
    destruct (run_tracked _ _ _ _ _ _ Htracked Hrun)
      as ((_ & Hw & Hf) & Hids & Hlen & _).
    rewrite Hids0 in Hids. simpl in Hids.
    split; [assumption|]. split; [exact Hw|]. split; [exact Hf|].
    intros Hall Hdone.
    assert (Hreached : (total <=? length (botProjectIdsState (recoil m)))%nat
                       = true).
    { apply Nat.leb_le. rewrite Hids. simpl.
      rewrite Hpending, started_all, Hdone in Hlen by assumption.
      simpl in Hlen. rewrite Nat.add_0_r in Hlen.
      assert (length events <=
              length (flat_map (fun e => collected (snd e)) events)).
      { clear. induction events as [|[n h] ev IH]; simpl; [lia|].
        rewrite length_app.
        destruct h as [? ? [[? ?]|]|]; simpl; lia. }
      unfold total. lia. }
    rewrite Hw, Hf. unfold crossed. rewrite Hreached. split; [lia|reflexivity].
Qed.

(** The entries of the other projects are not touched by the failure
    callback. *)
Lemma handleSkillLoadingFailure_other a isRemote ex name uuid projectId :
  projectId <> uuid ->
  let a' := handleSkillLoadingFailure a isRemote ex name uuid in
  projectMetaDataState a' !! projectId = projectMetaDataState a !! projectId
  /\ botDisplayNameState a' !! projectId = botDisplayNameState a !! projectId
  /\ botNameIdentifierState a' !! projectId
     = botNameIdentifierState a !! projectId
  /\ botErrorState a' !! projectId = botErrorState a !! projectId.
Proof.
  intros Hne. unfold handleSkillLoadingFailure, setErrorOnBotProject.
  cbv zeta. destruct (truthy _); simpl;
    rewrite !lookup_insert_ne by congruence; auto.
Qed.

Lemma addProjectToBotProjectSpace_families a projectId skillCt :
  let a' := addProjectToBotProjectSpace a projectId skillCt in
  projectMetaDataState a' = projectMetaDataState a
  /\ botDisplayNameState a' = botDisplayNameState a
  /\ botNameIdentifierState a' = botNameIdentifierState a
  /\ botErrorState a' = botErrorState a.
Proof.
  unfold addProjectToBotProjectSpace. now destruct (Nat.eqb _ _).
Qed.

(** C3: when the load of a skill rejects, its callback registers a
    placeholder project under the generated project id: not a root
    bot, remote or not as the skill is, with display name and name
    identifier the skill's name identifier, and with the error (its
    [response.data] when that carries a message) as the project's
    error.  The id is added to the project space, where it counts
    toward the total like an opened skill, the entries of the other
    projects stay as they were, and every other load in flight stays
    in flight and can still settle.  [openRootBotAndSkills] starts a
    load for every openable skill. *)
Theorem skill_failure_is_handled_per_skill
    (m : machine) (name : string) (skill : pendingSkill)
    (others : list pendingSkill) (ex : value) (uuid : string) :
  take name (pending m) = Some (skill, others) ->
  exists m',
    step m (name, Rejected ex uuid) = Some m'
    /\ nameIdentifier skill = name
    /\ projectMetaDataState (recoil m') !! uuid = Some (false, isRemote skill)
    /\ botDisplayNameState (recoil m') !! uuid = Some name
    /\ botNameIdentifierState (recoil m') !! uuid = Some name
    /\ botErrorState (recoil m') !! uuid
       = Some (if truthy (optional (optional (optional ex "response") "data")
                            "message")
               then get_prop (get_prop ex "response") "data"
               else ex)
    /\ botProjectIdsState (recoil m')
       = botProjectIdsState (recoil m) ++ [uuid]
    /\ (loadedWrites (recoil m')
        = loadedWrites (recoil m)
          + (if Nat.eqb (length (botProjectIdsState (recoil m'))) 
                        (totalProjectsCount skill)
             then 1 else 0))
    /\ (forall projectId, projectId <> uuid ->
          projectMetaDataState (recoil m') !! projectId
          = projectMetaDataState (recoil m) !! projectId
          /\ botDisplayNameState (recoil m') !! projectId
             = botDisplayNameState (recoil m) !! projectId
          /\ botNameIdentifierState (recoil m') !! projectId
             = botNameIdentifierState (recoil m) !! projectId
          /\ botErrorState (recoil m') !! projectId
             = botErrorState (recoil m) !! projectId)
    /\ pending m' = others
    /\ (forall sibling how,
          In sibling others ->
          is_Some (step m' (nameIdentifier sibling, how)))
    /\ (forall a root rootName location storageId skills more,
          skills <> [] ->
          pending (fst (openRootBotAndSkills' a root rootName location
                          storageId (skills :: more)))
          = omap (startSkill' root location storageId (length skills + 1))
              skills).
Proof.
  intros Htake.
  destruct (take_Some _ _ _ _ Htake) as (Hname & Hin & Hlen & Hsub).
  eexists. split; [unfold step; simpl; rewrite Htake; reflexivity|].
  cbn [recoil pending settle fst snd]. unfold onRejected.
  set (failed := handleSkillLoadingFailure (recoil m) (isRemote skill) ex
                   (nameIdentifier skill) uuid).
  destruct (addProjectToBotProjectSpace_families failed uuid
              (totalProjectsCount skill)) as (-> & -> & -> & ->).
  rewrite addProjectToBotProjectSpace_ids.
  pose proof (addProjectToBotProjectSpace_flag failed uuid
                (totalProjectsCount skill)) as Hflag.
  cbv zeta in Hflag. rewrite addProjectToBotProjectSpace_ids in Hflag.
  destruct (handleSkillLoadingFailure_space (recoil m) (isRemote skill) ex
              (nameIdentifier skill) uuid) as (Hids & Hw & _).
  fold failed in Hids, Hw. rewrite Hids in *. rewrite Hw in Hflag.
  split; [assumption|].
  assert (Hfamilies :
    projectMetaDataState failed !! uuid = Some (false, isRemote skill)
    /\ botDisplayNameState failed !! uuid = Some name
    /\ botNameIdentifierState failed !! uuid = Some name
    /\ botErrorState failed !! uuid
       = Some (if truthy (optional (optional (optional ex "response") "data")
                            "message")
               then get_prop (get_prop ex "response") "data"
               else ex)).
  { unfold failed, handleSkillLoadingFailure, setErrorOnBotProject.
    cbv zeta. rewrite Hname.
    destruct (truthy _); simpl; rewrite !lookup_insert_eq; auto. }
  destruct Hfamilies as (Hmeta & Hdisplay & Hident & Herr).
  repeat (split; [assumption|]).
  split; [reflexivity|].
  split.
  { destruct (Nat.eqb _ _); destruct Hflag as [-> _]; lia. }
  split.
  { intros projectId Hne.
    now apply handleSkillLoadingFailure_other. }
  split; [reflexivity|].
  split.
  { intros sibling how Hsib. unfold step. cbn [pending fst].
    destruct (take_In _ _ Hsib) as [[s r] ->]. eauto. }
  intros a root rootName location storageId skills more Hne.
  now destruct (openRootBotAndSkills_started path_join camelCase a root
                  rootName location storageId skills more Hne) as (-> & _).
Qed.

Lemma unique_name {A} (l : list (string * A)) x y :
  NoDup (map fst l) -> In x l -> In y l -> fst x = fst y -> x = y.
Proof.
  induction l as [|z l IH]; intros Hnodup Hx Hy Hxy; [destruct Hx|].
  inversion Hnodup as [|? ? Hz Hl]; subst.
  destruct Hx as [->|Hx], Hy as [->|Hy]; auto.
  - exfalso. apply Hz. rewrite Hxy. now apply list_elem_of_In, in_map.
  - exfalso. apply Hz. rewrite <- Hxy. now apply list_elem_of_In, in_map.
Qed.

Lemma quiet_collected events :
  forallb (fun e => quiet (snd e)) events = true ->
  length (flat_map (fun e : string * settlement => collected (snd e)) events)
  = length events.
Proof.
  induction events as [|[n h] events IH]; simpl; [reflexivity|].
  intros [Hq Hall]%andb_true_iff. rewrite length_app, IH by assumption.
  destruct h as [? ? [[? ?]|]|]; simpl in *; (discriminate || reflexivity).
Qed.

(** C9: when a skill entry of the bot-project file can be opened
    neither from a workspace nor from a manifest, fewer loads than
    skills are started, no load is ever in flight for that entry (its
    name being that of no other entry, no settlement is ever accepted
    for it), and, as long as the [then] callback of every load that
    fulfils runs to its end without throwing, the loaded flag is never
    written. *)
Theorem unopenable_skill_blocks_loaded_flag
    (a : atoms) (root name location storageId : string)
    (skills : list (string * BotProjectSpaceSkill))
    (others : list (list (string * BotProjectSpaceSkill)))
    (entry : string * BotProjectSpaceSkill) :
  In entry skills -> openable (snd entry) = false ->
  let started :=
    fst (openRootBotAndSkills' a root name location storageId
           (skills :: others)) in
  length (pending started) < length skills
  /\ (NoDup (map fst skills) ->
      forall events m how,
        run started events = Some m -> step m (fst entry, how) = None)
  /\ (forall events m,
        run started events = Some m ->
        forallb (fun e => quiet (snd e)) events = true ->
        length (botProjectIdsState (recoil m)) < length skills + 1
        /\ loadedWrites (recoil m) = loadedWrites a
        /\ botProjectSpaceLoadedState (recoil m)
           = botProjectSpaceLoadedState a).
Proof.
  intros Hin Hno started.
  assert (Hne : skills <> []) by (intros ->; destruct Hin).
  destruct (openRootBotAndSkills_started path_join camelCase a root name
              location storageId skills others Hne)
    as (Hpending & Hids0 & Htracked).
  fold started in Hpending, Hids0, Htracked.
  pose proof (started_fewer path_join camelCase root location storageId
                (length skills + 1) skills entry Hin Hno) as Hfewer.
  rewrite <- Hpending in Hfewer.
  split; [assumption|]. split.
  - intros Hnodup events m how Hrun.
    destruct (run_tracked _ _ _ _ _ _ Htracked Hrun) as (_ & _ & _ & Hsub).
    unfold step. cbn [fst].
    destruct (take (fst entry) (pending m)) as [[s r]|] eqn:E; [|reflexivity].
    exfalso.
    destruct (take_Some _ _ _ _ E) as (Hs & Hsin & _).
    apply Hsub in Hsin. rewrite Hpending in Hsin.
    destruct (started_In _ camelCase _ _ _ _ _ _ Hsin) as (e & He & Hopen & Hname & _).
    assert (e = entry) by (eapply unique_name; eauto; congruence).
    congruence.
  - intros events m Hrun Hquiet.
    destruct (run_tracked _ _ _ _ _ _ Htracked Hrun)
      as ((_ & Hw & Hf) & Hids & Hlen & _).
    assert (Hshort : length (botProjectIdsState (recoil m))
                     < length skills + 1).
    { rewrite Hids, Hids0, length_app, quiet_collected by assumption.
      simpl. lia. }
    split; [assumption|].
    rewrite Hw, Hf. unfold crossed.
    destruct (Nat.leb_spec (length skills + 1)
                (length (botProjectIdsState (recoil m)))); [lia|].
    split; [lia|reflexivity].
Qed.

End Theorems.

Lemma loaded_flag_set_once_witness :
  exists m,
    run (fst (openRootBotAndSkills examplePathJoin exampleCamelCase
                exampleAtoms "root" "Root Bot" "/bots/root" "default"
                [exampleSkills]))
      [("weather", Rejected (VStr "offline") "generated-1");
       ("echo", Fulfilled "echo-1" VUndefined None)]
    = Some m
    /\ botProjectIdsState (recoil m) = ["root"; "generated-1"; "echo-1"]
    /\ loadedWrites (recoil m) = 1
    /\ botProjectSpaceLoadedState (recoil m) = true.
Proof.
  pose proof (loaded_flag_set_once examplePathJoin exampleCamelCase
                exampleAtoms "root" "Root Bot" "/bots/root" "default"
                exampleSkills []) as (_ & _ & H).
  specialize (H ltac:(discriminate)
                [("weather", Rejected (VStr "offline") "generated-1");
                 ("echo", Fulfilled "echo-1" VUndefined None)]).
  destruct (run _ _) as [m|] eqn:E; [|vm_compute in E; discriminate E].
  exists m. split; [reflexivity|].
  destruct (H m eq_refl) as (Hids & _ & _ & Hdone).
  split; [exact Hids|]. apply Hdone; [reflexivity|].
  vm_compute in E. now inversion E.
Defined.

Lemma skill_failure_is_handled_per_skill_witness :
  exists m',
    step (fst (openRootBotAndSkills examplePathJoin exampleCamelCase
                 exampleAtoms "root" "Root Bot" "/bots/root" "default"
                 [exampleSkills]))
      ("weather", Rejected (VStr "offline") "generated-1") = Some m'
    /\ botDisplayNameState (recoil m') !! "generated-1" = Some "weather"
    /\ botErrorState (recoil m') !! "generated-1" = Some (VStr "offline")
    /\ map nameIdentifier (pending m') = ["echo"].
Proof.
  destruct (skill_failure_is_handled_per_skill examplePathJoin
              exampleCamelCase
              (fst (openRootBotAndSkills examplePathJoin exampleCamelCase
                      exampleAtoms "root" "Root Bot" "/bots/root" "default"
                      [exampleSkills]))
              "weather" _ _ (VStr "offline") "generated-1" eq_refl)
    as (m' & Hstep & _ & _ & Hdisplay & _ & Herror & _ & _ & _ & Hpending & _).
  exists m'. split; [exact Hstep|]. split; [exact Hdisplay|].
  split; [exact Herror|]. now rewrite Hpending.
Defined.

(** C9: a [then] callback that throws after it has added its project
    id runs the [catch] callback too, which adds a generated id for
    the same skill.  With one skill that cannot be opened and one whose
    callback throws, the project ids reach the number of skills plus
    one, and the loaded flag is written. *)
Lemma unopenable_skill_flag_written_after_throw :
  openable (snd exampleOrphan) = false
  /\ exists m,
      run (fst (openRootBotAndSkills examplePathJoin exampleCamelCase
                  exampleAtoms "root" "rootBot" "/bots/root" "default"
                  [[exampleWeather; exampleOrphan]]))
        [("weather",
          Fulfilled "weather-1" VUndefined (Some (VStr "boom", "generated-1")))]
      = Some m
      /\ pending m = []
      /\ botProjectIdsState (recoil m) = ["root"; "weather-1"; "generated-1"]
      /\ loadedWrites (recoil m) = 1
      /\ botProjectSpaceLoadedState (recoil m) = true.
Proof.
  split; [reflexivity|]. eexists. split; [reflexivity|].
  repeat split.
Qed.

Lemma unopenable_skill_blocks_loaded_flag_witness :
  let started :=
    fst (openRootBotAndSkills examplePathJoin exampleCamelCase exampleAtoms
           "root" "Root Bot" "/bots/root" "default"
           [exampleSkills ++ [exampleOrphan]]) in
  length (pending started) < 3
  /\ forall m,
      run started [("weather", Rejected (VStr "offline") "generated-1");
                   ("echo", Fulfilled "echo-1" VUndefined None)] = Some m ->
      loadedWrites (recoil m) = 0
      /\ botProjectSpaceLoadedState (recoil m) = false.
Proof.
  pose proof (unopenable_skill_blocks_loaded_flag examplePathJoin
                exampleCamelCase exampleAtoms "root" "Root Bot" "/bots/root"
                "default" (exampleSkills ++ [exampleOrphan]) [] exampleOrphan
                ltac:(simpl; auto) eq_refl) as (Hfewer & _ & Hnever).
  split; [exact Hfewer|].
  intros m Hrun. exact (proj2 (Hnever _ m Hrun eq_refl)).
Defined.

End SkillTreeTheorems.

(** ** Assigning a list of properties *)
Module AssignFacts.
Import JS Exn Settings JSFacts MergerFacts ManagedSettings.
Local Open Scope outcome_scope.

Lemma assignAll_cons f q l m :
  assignAll f (q :: l) m = assignAll f l (objectSet m q (f q)).
Proof. reflexivity. Qed.

Lemma assignAll_isObject f l : forall m,
  isObject (assignAll f l m) = isObject m.
Proof.
  induction l as [|q l IH]; intros m; [reflexivity|].
  now rewrite assignAll_cons, IH, isObject_objectSet.
Qed.

Lemma assignAll_frame f r l : forall m,
  apart_from l r = true -> plain_path r = true ->
  forallb plain_path l = true ->
  objectGet (assignAll f l m) r = objectGet m r.
Proof.
  induction l as [|q l IH]; intros m Hap Hpl Hl; [reflexivity|].
  simpl in Hap. apply andb_true_iff in Hap as [Hq Hap].
  simpl in Hl. apply andb_true_iff in Hl as [Hql Hl].
  rewrite assignAll_cons, IH by assumption.
  apply objectGet_objectSet_other; [|assumption|now left].
  now apply negb_true_iff.
Qed.

Lemma assignAll_same f p l : forall m,
  independent l = true -> In p l -> isObject m = true ->
  objectGet (assignAll f l m) p = f p.
Proof.
  intros m Hind Hp Hm.
  destruct (independent_spec _ _ Hind Hp) as (Hne & Hpl & Hothers).
  pose proof (independent_all_plain _ Hind) as Hall.
  clear Hind. revert m Hm.
  induction l as [|q l IH]; intros m Hm; [destruct Hp|].
  simpl in Hall. apply andb_true_iff in Hall as [Hqpl Hall].
  rewrite assignAll_cons.
  assert (Hstep : isObject (objectSet m q (f q)) = true)
    by now rewrite isObject_objectSet.
  destruct (includes l p) eqn:E;
    [apply includes_In in E as Hin|apply includes_not_In in E as Hout].
  - apply IH; auto. intros q' Hq'. apply Hothers. now right.
  - destruct Hp as [->|Hp]; [|contradiction].
    assert (Hap : apart_from l p = true).
    { unfold apart_from. apply forallb_forall. intros q Hq.
      apply negb_true_iff, Hothers; [now right|]. intros ->. contradiction. }
    rewrite assignAll_frame by assumption.
    now apply objectGet_objectSet_same.
Qed.

Lemma independent_filter (keep : path -> bool) l :
  independent l = true -> independent (List.filter keep l) = true.
Proof.
  unfold independent. rewrite !forallb_forall.
  intros H p Hp. apply filter_In in Hp as [Hp _].
  specialize (H p Hp).
  apply andb_true_iff in H as [H Hall]. rewrite H. simpl.
  rewrite forallb_forall in Hall. apply forallb_forall.
  intros q Hq. apply filter_In in Hq as [Hq _]. auto.
Qed.

Lemma objectGet_empty p : objectGet (VObj []) p = VUndefined.
Proof.
  now destruct p as [|k [|k2 rest]].
Qed.

(** *** The loop of [mergePropertiesManagedByRootBot] *)

Lemma member_defined o k : nullish o = false -> member o k = Returned (get_prop o k).
Proof. intros H. unfold member. now rewrite H. Qed.

Lemma nullish_objectGetOr o p :
  nullish (objectGetOr o p (VObj [])) = true <-> objectGet o p = VNull.
Proof.
  unfold objectGetOr. destruct (objectGet o p); simpl; split; congruence.
Qed.

Lemma mergeManagedProperty_defined localSetting projectId root m p :
  objectGet localSetting p <> VNull ->
  mergeManagedProperty localSetting projectId root m p
  = Returned (objectSet m p (managedValue localSetting projectId root p)).
Proof.
  intros H. unfold mergeManagedProperty, managedValue, owner.
  assert (Hn : nullish (objectGetOr localSetting p (VObj [])) = false).
  { destruct (nullish _) eqn:E; [|reflexivity].
    now apply nullish_objectGetOr in E. }
  rewrite !member_defined by assumption. cbn [bind].
  now destruct (String.eqb projectId root).
Qed.

Lemma mergeManagedProperty_null localSetting projectId root m p :
  objectGet localSetting p = VNull ->
  mergeManagedProperty localSetting projectId root m p = Thrown TypeError.
Proof.
  intros H. unfold mergeManagedProperty, member.
  now rewrite (proj2 (nullish_objectGetOr _ _) H).
Qed.

Lemma foldM_defined localSetting projectId root l : forall m,
  (forall p, In p l -> objectGet localSetting p <> VNull) ->
  foldM (mergeManagedProperty localSetting projectId root) l m
  = Returned (assignAll (managedValue localSetting projectId root) l m).
Proof.
  induction l as [|q l IH]; intros m H; [reflexivity|].
  simpl. rewrite mergeManagedProperty_defined by (apply H; now left).
  cbn [bind]. apply IH. intros p Hp. apply H. now right.
Qed.

Lemma foldM_null localSetting projectId root l : forall m p,
  In p l -> objectGet localSetting p = VNull ->
  foldM (mergeManagedProperty localSetting projectId root) l m
  = Thrown TypeError.
Proof.
  induction l as [|q l IH]; intros m p Hp Hnull; [destruct Hp|].
  simpl.
  destruct (objectGet localSetting q) eqn:E;
    try (rewrite mergeManagedProperty_defined by (rewrite E; discriminate);
         cbn [bind];
         destruct Hp as [->|Hp]; [congruence|]; eapply IH; eassumption).
  now rewrite mergeManagedProperty_null.
Qed.

End AssignFacts.

(** ** The sensitive values and the properties of the root bot *)
Module ManagedSettingsTheorems.
Import JS Exn Settings JSFacts MergerFacts ManagedSettings AssignFacts.
Import Examples MoreExamples.
Local Open Scope outcome_scope.

Section Theorems.
Variables SensitiveProperties RootBotManagedProperties : list path.

Local Abbreviation getSensitiveProperties' :=
  (getSensitiveProperties SensitiveProperties).
Local Abbreviation mergeManaged' :=
  (mergePropertiesManagedByRootBot RootBotManagedProperties).

Lemma getSensitiveProperties_assigns settings :
  getSensitiveProperties' settings
  = assignAll (fun p => objectGetOr settings p (VStr ""))
      SensitiveProperties (VObj []).
Proof. reflexivity. Qed.

(** X1: [getSensitiveProperties] returns an object that holds, at every
    sensitive property, the value of the settings there, or the empty
    string when the settings have none; every path of plain names that
    no sensitive property interferes with reads [undefined] in it.  The
    sensitive properties are paths of plain names, none a prefix of
    another; a plain name is not an inherited one, and properties are
    read as the code reads them, with lodash [get]. *)
Theorem getSensitiveProperties_extracts (settings : value) :
  independent SensitiveProperties = true ->
  isObject (getSensitiveProperties' settings) = true
  /\ (forall p, In p SensitiveProperties ->
        objectGet (getSensitiveProperties' settings) p
        = match objectGet settings p with
          | VUndefined => VStr ""
          | found => found
          end)
  /\ (forall r, apart_from SensitiveProperties r = true ->
        plain_path r = true ->
        objectGet (getSensitiveProperties' settings) r = VUndefined).
Proof.
  intros Hind. rewrite getSensitiveProperties_assigns. split; [|split].
  - now rewrite assignAll_isObject.
  - intros p Hp. now rewrite assignAll_same.
  - intros r Hap Hpl.
    rewrite assignAll_frame by (try assumption; now apply independent_all_plain).
    apply objectGet_empty.
Qed.

(** X2: saving and merging back.  When the entry that local storage
    holds for a project is what [getSensitiveProperties] extracted from
    some settings, [mergeLocalStorage] gives every sensitive property
    that the root bot does not manage the value those settings had
    there when it was truthy, and the empty string otherwise, whatever
    the settings it merges into hold. *)
Theorem saved_sensitive_values_restored
    (storage : gmap string value) (projectId : string)
    (saved : value) (props : props_t) (p : path) :
  independent SensitiveProperties = true ->
  In p SensitiveProperties -> ~ In p RootBotManagedProperties ->
  objectGet
    (mergeLocalStorage SensitiveProperties RootBotManagedProperties
       (<[projectId := getSensitiveProperties' saved]> storage) projectId
       (VObj props)) p
  = if truthy (objectGet saved p) then objectGet saved p else VStr "".
Proof.
  intros Hind Hp Hout.
  destruct (getSensitiveProperties_extracts saved Hind) as (Hobj & Hget & _).
  unfold mergeLocalStorage, settingStorage_get.
  rewrite lookup_insert_eq.
  change (default VUndefined (Some ?e)) with e.
  destruct (getSensitiveProperties' saved) as [| | | | | |entry] eqn:E;
    try discriminate Hobj.
  - cbn [truthy spread].
    rewrite loop_assigns
      by (try assumption; try reflexivity; now apply independent_filter).
    unfold localValue. rewrite (Hget p Hp).
    now destruct (objectGet saved p) as [| |[|]| | | |].
  - cbn [truthy spread].
    rewrite loop_assigns
      by (try assumption; try reflexivity; now apply independent_filter).
    unfold localValue. rewrite (Hget p Hp).
    now destruct (objectGet saved p) as [| |[|]| | | |].
Qed.

Lemma foldM_returned localSetting projectId root l : forall m merged,
  foldM (mergeManagedProperty localSetting projectId root) l m
  = Returned merged ->
  merged = assignAll (managedValue localSetting projectId root) l m.
Proof.
  induction l as [|q l IH]; intros m merged; simpl; [now intros [= <-]|].
  destruct (objectGet localSetting q) eqn:E;
    try (rewrite mergeManagedProperty_defined by (rewrite E; discriminate);
         cbn [bind]; apply IH).
  now rewrite mergeManagedProperty_null.
Qed.

(** X3: when the root bot has a local-storage entry in which no
    root-bot-managed property is stored as [null],
    [mergePropertiesManagedByRootBot] returns settings in which every
    managed property holds what the entry keeps for the project (its
    [root] field for the root bot itself, the field named by the
    project id for a skill), or the empty string when the entry keeps
    nothing for it.  The managed properties are paths of plain names,
    none a prefix of another, and the project id of a skill is not an
    inherited name such as [constructor]. *)
Theorem managed_properties_assigned
    (storage : gmap string value) (projectId rootBotProjectId : string)
    (entry : value) (props : props_t) :
  storage !! rootBotProjectId = Some entry -> truthy entry = true ->
  independent RootBotManagedProperties = true ->
  inherited (owner projectId rootBotProjectId) = false ->
  (forall q, In q RootBotManagedProperties -> objectGet entry q <> VNull) ->
  exists merged,
    mergeManaged' storage projectId rootBotProjectId (VObj props)
    = Returned merged
    /\ forall p, In p RootBotManagedProperties ->
         let stored :=
           match objectGet entry p with
           | VUndefined => VObj []
           | found => found
           end in
         let kept :=
           get_prop stored
             (if String.eqb projectId rootBotProjectId then "root"
              else projectId) in
         objectGet merged p = if nullish kept then VStr "" else kept.
Proof.
  intros Hentry Htruthy Hind _ Hnonnull.
  unfold mergePropertiesManagedByRootBot, settingStorage_get.
  rewrite Hentry. change (default VUndefined (Some entry)) with entry.
  rewrite Htruthy, foldM_defined by assumption.
  eexists. split; [reflexivity|].
  intros p Hp. cbv zeta.
  now rewrite assignAll_same.
Qed.

(** X4: when the root bot's entry stores [null] at a managed property,
    [mergePropertiesManagedByRootBot] throws a [TypeError], for the
    root bot as for a skill: the default [{}] of the lookup replaces
    [undefined] only. *)
Theorem managed_null_throws
    (storage : gmap string value) (projectId rootBotProjectId : string)
    (entry : value) (settings : value) (p : path) :
  storage !! rootBotProjectId = Some entry -> truthy entry = true ->
  In p RootBotManagedProperties -> objectGet entry p = VNull ->
  mergeManaged' storage projectId rootBotProjectId settings
  = Thrown TypeError.
Proof.
  intros Hentry Htruthy Hp Hnull.
  unfold mergePropertiesManagedByRootBot, settingStorage_get.
  rewrite Hentry. change (default VUndefined (Some entry)) with entry.
  rewrite Htruthy. eapply foldM_null; eassumption.
Qed.

(** X5: whatever local storage holds, the settings that
    [mergePropertiesManagedByRootBot] returns read as a deep copy of
    the settings passed in at every path of plain names that no managed
    property interferes with, and they are that deep copy when the root
    bot has no entry.  The managed properties are paths of plain names;
    a path is read as the code reads it, with lodash [get], which takes
    a property whose own name is the whole dotted path when there is
    one. *)
Theorem managed_merge_keeps_the_rest
    (storage : gmap string value) (projectId rootBotProjectId : string)
    (settings merged : value) :
  forallb plain_path RootBotManagedProperties = true ->
  mergeManaged' storage projectId rootBotProjectId settings
  = Returned merged ->
  (forall r, apart_from RootBotManagedProperties r = true ->
     plain_path r = true ->
     objectGet merged r = objectGet (cloneDeep settings) r)
  /\ (storage !! rootBotProjectId = None -> merged = cloneDeep settings).
Proof.
  unfold mergePropertiesManagedByRootBot, settingStorage_get.
  intros Hplain H. split.
  - intros r Hap Hpl.
    destruct (truthy (default VUndefined (storage !! rootBotProjectId))).
    + apply foldM_returned in H as ->. now apply assignAll_frame.
    + now inversion H.
  - intros Hnone. rewrite Hnone in H. now inversion H.
Qed.

End Theorems.

Lemma getSensitiveProperties_extracts_witness :
  objectGet (getSensitiveProperties exampleSensitive (VObj exampleSettings))
    ["luis"; "authoringKey"] = VStr "remote-key"
  /\ objectGet (getSensitiveProperties exampleSensitive (VObj exampleSettings))
       ["qna"; "subscriptionKey"] = VStr ""
  /\ objectGet (getSensitiveProperties exampleSensitive (VObj exampleSettings))
       ["luis"; "name"] = VUndefined
  /\ objectGet (getSensitiveProperties exampleSensitive
                 (VObj exampleFlatSettings))
       ["qna"; "endpointKey"] = VStr "remote".
Proof.
  destruct (getSensitiveProperties_extracts exampleSensitive
              (VObj exampleSettings) eq_refl) as (_ & Hget & Hrest).
  destruct (getSensitiveProperties_extracts exampleSensitive
              (VObj exampleFlatSettings) eq_refl) as (_ & Hflat & _).
  split; [|split; [|split]].
  - apply (Hget ["luis"; "authoringKey"]). simpl. auto.
  - apply (Hget ["qna"; "subscriptionKey"]). simpl. auto.
  - apply (Hrest ["luis"; "name"]); reflexivity.
  - apply (Hflat ["qna"; "endpointKey"]). simpl. auto 10.
Defined.

Lemma saved_sensitive_values_restored_witness :
  objectGet
    (mergeLocalStorage exampleSensitive exampleRootManaged
       (<["bot-1" := getSensitiveProperties exampleSensitive
                       (VObj exampleSettings)]> exampleStorage)
       "bot-1" (VObj [("qna", VObj [("endpointKey", VStr "other")])]))
    ["qna"; "endpointKey"]
  = VStr "remote-endpoint".
Proof.
  apply (saved_sensitive_values_restored exampleSensitive exampleRootManaged
           exampleStorage "bot-1" (VObj exampleSettings)
           [("qna", VObj [("endpointKey", VStr "other")])]
           ["qna"; "endpointKey"]).
  - reflexivity.
  - simpl. auto 10.
  - simpl. intros [H|[H|[H|[]]]]; discriminate.
Defined.

Lemma managed_properties_assigned_witness :
  exists merged,
    mergePropertiesManagedByRootBot exampleRootManaged exampleManagedStorage
      "skill-1" "bot-1" (VObj exampleSettings) = Returned merged
    /\ objectGet merged ["luis"; "authoringKey"] = VStr "skill-key"
    /\ objectGet merged ["luis"; "endpointKey"] = VStr ""
    /\ objectGet merged ["qna"; "subscriptionKey"] = VStr "".
Proof.
  destruct (managed_properties_assigned exampleRootManaged
              exampleManagedStorage "skill-1" "bot-1" _ exampleSettings
              eq_refl eq_refl eq_refl eq_refl) as (merged & Hm & Hget).
  - simpl. intros q [<-|[<-|[<-|[]]]]; discriminate.
  - exists merged. split; [exact Hm|]. split; [|split].
    + apply (Hget ["luis"; "authoringKey"]). simpl. auto.
    + apply (Hget ["luis"; "endpointKey"]). simpl. auto.
    + apply (Hget ["qna"; "subscriptionKey"]). simpl. auto.
Defined.

Lemma managed_null_throws_witness :
  mergePropertiesManagedByRootBot exampleRootManaged exampleBrokenStorage
    "bot-1" "bot-1" (VObj exampleSettings) = Thrown TypeError.
Proof.
  apply (managed_null_throws exampleRootManaged exampleBrokenStorage "bot-1"
           "bot-1" _ (VObj exampleSettings) ["luis"; "authoringKey"] eq_refl
           eq_refl).
  - simpl. auto.
  - reflexivity.
Defined.

Lemma managed_merge_keeps_the_rest_witness :
  exists merged,
    mergePropertiesManagedByRootBot exampleRootManaged exampleManagedStorage
      "bot-1" "bot-1" (VObj exampleSettings) = Returned merged
    /\ objectGet merged ["qna"; "endpointKey"] = VStr "remote-endpoint".
Proof.
  destruct (mergePropertiesManagedByRootBot exampleRootManaged
              exampleManagedStorage "bot-1" "bot-1" (VObj exampleSettings))
    as [merged|ex] eqn:E; [|vm_compute in E; discriminate E].
  exists merged. split; [reflexivity|].
  apply (proj1 (managed_merge_keeps_the_rest exampleRootManaged
                  exampleManagedStorage "bot-1" "bot-1" (VObj exampleSettings)
                  merged eq_refl E) ["qna"; "endpointKey"]); reflexivity.
Defined.

End ManagedSettingsTheorems.

(** ** Loops that may throw *)
Module ExnFacts.
Import JS Exn.
Local Open Scope outcome_scope.

Lemma bind_Returned_inv {A B} (c : outcome A) (k : A -> outcome B) r :
  bind c k = Returned r -> exists a, c = Returned a /\ k a = Returned r.
Proof. destruct c; simpl; [eauto|discriminate]. Qed.

Lemma member_Returned_inv o k v :
  member o k = Returned v -> nullish o = false /\ v = get_prop o k.
Proof.
  unfold member. destruct (nullish o); [discriminate|]. now intros [= <-].
Qed.

Lemma member_Thrown o k ex : member o k = Thrown ex -> ex = TypeError.
Proof.
  unfold member. destruct (nullish o); [|discriminate]. now intros [= <-].
Qed.

Lemma mapM_Forall2 {A B} (f : A -> outcome B) l : forall r,
  mapM f l = Returned r -> Forall2 (fun x y => f x = Returned y) l r.
Proof.
  induction l as [|x l IH]; intros r; simpl.
  - intros [= <-]. constructor.
  - intros H. apply bind_Returned_inv in H as (y & Hy & H).
    apply bind_Returned_inv in H as (ys & Hys & H).
    injection H as <-. constructor; auto.
Qed.

Lemma Forall2_mapM {A B} (f : A -> outcome B) l r :
  Forall2 (fun x y => f x = Returned y) l r -> mapM f l = Returned r.
Proof.
  induction 1 as [|x y l r Hxy _ IH]; simpl; [reflexivity|].
  now rewrite Hxy, IH.
Qed.

Lemma mapM_defined {A B} (f : A -> outcome B) (g : A -> B) l :
  (forall x, In x l -> f x = Returned (g x)) ->
  mapM f l = Returned (map g l).
Proof.
  induction l as [|x l IH]; intros H; simpl; [reflexivity|].
  rewrite H by now left. cbn [bind].
  rewrite IH by (intros y Hy; apply H; now right). reflexivity.
Qed.

Lemma mapM_Thrown {A B} (f : A -> outcome B) l ex :
  mapM f l = Thrown ex -> exists x, In x l /\ f x = Thrown ex.
Proof.
  induction l as [|x l IH]; simpl; [discriminate|].
  destruct (f x) as [y|ex'] eqn:E; cbn [bind].
  - destruct (mapM f l) as [ys|ex''] eqn:E'; cbn [bind]; [discriminate|].
    intros [= <-]. destruct (IH eq_refl) as (x' & Hin & Hx').
    exists x'. split; [now right|assumption].
  - intros [= <-]. exists x. split; [now left|assumption].
Qed.

Lemma get_prop_set_object ps k v k' :
  get_prop (set_prop (VObj ps) k v) k'
  = if String.eqb k k' then v else get_prop (VObj ps) k'.
Proof.
  cbn [set_prop get_prop].
  destruct (String.eqb_spec k k') as [<-|Hne].
  - now rewrite JSFacts.assoc_get_set_same.
  - now rewrite JSFacts.assoc_get_set_other.
Qed.

Lemma isObject_spread v : exists ps, spread v = VObj ps.
Proof. destruct v; simpl; eauto. Qed.

End ExnFacts.

(** ** Parsed files and their status *)
Module FilesTheorems.
Import JS Exn Files ExnFacts Examples MoreExamples.
Local Open Scope outcome_scope.

Lemma strict_equal_eq a b : strict_equal a b = true -> a = b.
Proof.
  destruct a, b; simpl; try discriminate; try reflexivity.
  - intros H. apply Bool.eqb_prop in H. now subst.
  - intros H. apply Z.eqb_eq in H. now subst.
  - intros H. apply String.eqb_eq in H. now subst.
Qed.

(** The search reads [item] only through its [id]. *)
Lemma find_by_id_same_id item item' files :
  nullish item = nullish item' ->
  get_prop item "id" = get_prop item' "id" ->
  find_by_id item files = find_by_id item' files.
Proof.
  intros Hn Hid. induction files as [|file rest IH]; [reflexivity|].
  simpl. unfold member. rewrite <- Hn, <- Hid, IH. reflexivity.
Qed.

Lemma find_by_id_found item files file :
  find_by_id item files = Returned file ->
  file = VUndefined
  \/ (In file files /\ nullish file = false /\ nullish item = false
      /\ get_prop file "id" = get_prop item "id").
Proof.
  induction files as [|f rest IH]; simpl.
  - intros [= <-]. now left.
  - intros H. apply bind_Returned_inv in H as (fileId & Hf & H).
    apply bind_Returned_inv in H as (itemId & Hi & H).
    apply member_Returned_inv in Hf as [Hfn ->].
    apply member_Returned_inv in Hi as [Hin ->].
    destruct (strict_equal _ _) eqn:E.
    + injection H as <-. right. apply strict_equal_eq in E. auto.
    + destruct (IH H) as [->|(? & ? & ? & ?)]; [now left|right; auto].
Qed.

Lemma takeParsed_cases parsedFiles item out :
  takeParsed parsedFiles item = Returned out ->
  out = item
  \/ (truthy (get_prop item "isContentUnparsed") = true
      /\ truthy out = true /\ In out parsedFiles
      /\ get_prop out "id" = get_prop item "id"
      /\ find_by_id item parsedFiles = Returned out).
Proof.
  unfold takeParsed. intros H.
  apply bind_Returned_inv in H as (file & Hfind & H).
  destruct (truthy file) eqn:Ht.
  - apply bind_Returned_inv in H as (unparsed & Hu & H).
    apply member_Returned_inv in Hu as [_ ->].
    destruct (truthy (get_prop item "isContentUnparsed")) eqn:E;
      injection H as <-; [right|now left].
    destruct (find_by_id_found _ _ _ Hfind) as [->|(? & ? & ? & ?)];
      [discriminate|auto 6].
  - injection H as <-. now left.
Qed.

Lemma takeParsed_again parsedFiles item out :
  takeParsed parsedFiles item = Returned out ->
  takeParsed parsedFiles out = Returned out.
Proof.
  intros H.
  destruct (takeParsed_cases _ _ _ H) as [->|(_ & Ht & _ & Hid & Hfind)];
    [assumption|].
  destruct (find_by_id_found _ _ _ Hfind) as [->|(_ & Hn & Hni & _)];
    [discriminate|].
  unfold takeParsed.
  rewrite (find_by_id_same_id out item) by congruence.
  rewrite Hfind. cbn [bind]. rewrite Ht.
  unfold member. rewrite Hn. cbn [bind].
  now destruct (truthy (get_prop out "isContentUnparsed")).
Qed.

(** X6: the updater of the lg and lu files in [parseAllAssets] keeps
    the number and the order of the files; each file is either left as
    it is or, when its content was unparsed, replaced by a truthy
    parsed file of the same id.  A file whose content is already parsed
    is never replaced. *)
Theorem parsed_files_replace_unparsed_only
    (parsedFiles oldFiles files : list value) :
  mergeParsedFiles parsedFiles oldFiles = Returned files ->
  length files = length oldFiles
  /\ Forall2
       (fun item out =>
          out = item
          \/ (truthy (get_prop item "isContentUnparsed") = true
              /\ truthy out = true /\ In out parsedFiles
              /\ get_prop out "id" = get_prop item "id"))
       oldFiles files.
Proof.
  intros H. apply mapM_Forall2 in H. split.
  - symmetry. eapply Forall2_length. eassumption.
  - eapply Forall2_impl; [eassumption|].
    intros item out Hout. cbv beta in Hout.
    destruct (takeParsed_cases _ _ _ Hout) as [->|(? & ? & ? & ? & _)]; auto.
Qed.

(** X7: applying the updater of the lg and lu files a second time with
    the same parsed files changes nothing. *)
Theorem parsed_files_update_is_idempotent
    (parsedFiles oldFiles files : list value) :
  mergeParsedFiles parsedFiles oldFiles = Returned files ->
  mergeParsedFiles parsedFiles files = Returned files.
Proof.
  intros H. apply mapM_Forall2 in H. apply Forall2_mapM.
  induction H as [|item out l r Hout _ IH]; constructor; [|assumption].
  eapply takeParsed_again. eassumption.
Qed.

Lemma keepParsed_cases oldFiles newFile out :
  keepParsed oldFiles newFile = Returned out ->
  out = newFile
  \/ (truthy (get_prop out "isContentUnparsed") = false
      /\ truthy out = true /\ In out oldFiles
      /\ get_prop out "id" = get_prop newFile "id").
Proof.
  unfold keepParsed. intros H.
  apply bind_Returned_inv in H as (file & Hfind & H).
  destruct (truthy file) eqn:Ht.
  - apply bind_Returned_inv in H as (unparsed & Hu & H).
    apply member_Returned_inv in Hu as [_ ->].
    destruct (truthy (get_prop file "isContentUnparsed")) eqn:E;
      injection H as <-; [now left|right].
    destruct (find_by_id_found _ _ _ Hfind) as [->|(? & ? & ? & ?)];
      [discriminate|auto 6].
  - injection H as <-. now left.
Qed.

(** X8: the updater of the qna files in [parseAllAssets] returns one
    file per migrated file, in the order of the migrated files: the
    migrated file itself, or a truthy file of the same id that the atom
    held with its content parsed.  The files the atom held under other
    ids are dropped. *)
Theorem qna_files_follow_migrated
    (migratedQnAFiles oldFiles files : list value) :
  mergeQnaFiles migratedQnAFiles oldFiles = Returned files ->
  length files = length migratedQnAFiles
  /\ Forall2
       (fun newFile out =>
          out = newFile
          \/ (truthy (get_prop out "isContentUnparsed") = false
              /\ truthy out = true /\ In out oldFiles
              /\ get_prop out "id" = get_prop newFile "id"))
       migratedQnAFiles files.
Proof.
  intros H. apply mapM_Forall2 in H. split.
  - symmetry. eapply Forall2_length. eassumption.
  - eapply Forall2_impl; [eassumption|].
    intros item out Hout. now apply keepParsed_cases.
Qed.

Lemma withPublished_cases status file out :
  withPublished status file = Returned out ->
  nullish status = false /\ nullish file = false
  /\ get_prop out "published"
     = VBool (match get_prop status (Loader.js_string (get_prop file "id")) with
              | VBool b => b
              | _ => false
              end)
  /\ forall key, key <> "published" ->
       get_prop out key = get_prop (spread file) key.
Proof.
  unfold withPublished. intros H.
  apply bind_Returned_inv in H as (fileId & Hf & H).
  apply bind_Returned_inv in H as (stored & Hs & H).
  apply member_Returned_inv in Hf as [Hfn ->].
  apply member_Returned_inv in Hs as [Hsn ->].
  destruct (isObject_spread file) as [ps Hps].
  split; [assumption|]. split; [assumption|].
  assert (Hother : forall b key, key <> "published" ->
            get_prop (set_prop (VObj ps) "published" (VBool b)) key
            = get_prop (VObj ps) key).
  { intros b key Hkey. rewrite get_prop_set_object.
    destruct (String.eqb_spec "published" key); congruence. }
  rewrite Hps in H |- *.
  destruct (get_prop status _); injection H as <-;
    (split; [cbn [get_prop]; now rewrite JSFacts.assoc_get_set_same|];
     intros key Hkey; exact (Hother _ key Hkey)).
Qed.

(** X9: [updateLuFilesStatus] and [updateQnaFilesStatus] keep the
    number and the order of the files; each file comes back as a copy
    whose [published] is a boolean, [true] exactly when the stored
    status of the file is the boolean [true], and whose other
    properties are those of the file. *)
Theorem files_status_is_boolean
    (status : value) (luFiles files : list value) :
  updateLuFilesStatus status luFiles = Returned files ->
  updateQnaFilesStatus status luFiles = Returned files
  /\ length files = length luFiles
  /\ Forall2
       (fun file out =>
          get_prop out "published"
          = VBool (match get_prop status
                           (Loader.js_string (get_prop file "id")) with
                   | VBool b => b
                   | _ => false
                   end)
          /\ forall key, key <> "published" ->
               get_prop out key = get_prop (spread file) key)
       luFiles files.
Proof.
  intros H. split; [exact H|].
  apply mapM_Forall2 in H. split.
  - symmetry. eapply Forall2_length. eassumption.
  - eapply Forall2_impl; [eassumption|].
    intros file out Hout.
    now destruct (withPublished_cases _ _ _ Hout) as (_ & _ & ? & ?).
Qed.

(** X10: [updateLuFilesStatus] returns when there is no file, or when
    the stored status and every file are objects or primitives; it
    throws a [TypeError] as soon as there is a file and the status
    storage has nothing for the project. *)
Theorem files_status_needs_a_status
    (status : value) (luFiles : list value) :
  (nullish status = false ->
   Forall (fun file => nullish file = false) luFiles ->
   exists files, updateLuFilesStatus status luFiles = Returned files)
  /\ (nullish status = true -> luFiles <> [] ->
      updateLuFilesStatus status luFiles = Thrown TypeError)
  /\ updateLuFilesStatus status [] = Returned [].
Proof.
  split; [|split; [|reflexivity]].
  - intros Hs Hall. unfold updateLuFilesStatus.
    induction Hall as [|file rest Hfile _ [files IH]]; [now exists []|].
    simpl. unfold withPublished at 1, member.
    rewrite Hfile, Hs. cbn [bind].
    destruct (get_prop status _); cbn [bind]; rewrite IH; cbn [bind]; eauto.
  - intros Hs Hne. destruct luFiles as [|file rest]; [congruence|].
    unfold updateLuFilesStatus. simpl. unfold withPublished, member.
    rewrite Hs. now destruct (nullish file).
Qed.

Lemma parsed_files_replace_unparsed_only_witness :
  mergeParsedFiles exampleParsedFiles exampleOldFiles
  = Returned exampleMergedFiles
  /\ length exampleMergedFiles = length exampleOldFiles.
Proof.
  split; [reflexivity|].
  exact (proj1 (parsed_files_replace_unparsed_only exampleParsedFiles
                  exampleOldFiles exampleMergedFiles eq_refl)).
Defined.

Lemma parsed_files_update_is_idempotent_witness :
  mergeParsedFiles exampleParsedFiles exampleMergedFiles
  = Returned exampleMergedFiles.
Proof.
  exact (parsed_files_update_is_idempotent exampleParsedFiles
           exampleOldFiles exampleMergedFiles eq_refl).
Defined.

Lemma qna_files_follow_migrated_witness :
  mergeQnaFiles exampleMigratedQna exampleOldQna = Returned exampleMergedQna
  /\ length exampleMergedQna = length exampleMigratedQna.
Proof.
  split; [reflexivity|].
  exact (proj1 (qna_files_follow_migrated exampleMigratedQna exampleOldQna
                  exampleMergedQna eq_refl)).
Defined.

Lemma files_status_is_boolean_witness :
  exists files,
    updateLuFilesStatus exampleStatus exampleLuFiles = Returned files
    /\ map (fun out => get_prop out "published") files
       = [VBool true; VBool false].
Proof.
  eexists. split; [reflexivity|].
  pose proof (proj2 (proj2 (files_status_is_boolean exampleStatus
                              exampleLuFiles _ eq_refl))) as H.
  inversion H as [|? ? ? ? [Hmain _] Hrest]; subst.
  inversion Hrest as [|? ? ? ? [Hhelp _] _]; subst.
  exact (f_equal2 (fun a b => [a; b]) Hmain Hhelp).
Defined.

End FilesTheorems.

(** ** Runtime tests *)
Module RuntimeTheorems.
Import JS Exn Runtime ExnFacts.
Local Open Scope outcome_scope.

Lemma adaptive_key_is_not_old s :
  String.prefix "adaptive-runtime" s = true ->
  String.eqb s "node-azurewebapp" || String.eqb s "csharp-azurewebapp" = false.
Proof.
  destruct s as [|c s]; [discriminate|]. cbn [String.prefix].
  destruct (ascii_dec "a" c) as [<-|]; [intros _; reflexivity|discriminate].
Qed.

(** X11: no settings are both of the adaptive runtime and of an old
    custom runtime; for settings of the adaptive runtime
    [requiresMigrate] is false whatever the publish targets are, which
    are then not looked at. *)
Theorem runtime_kinds_are_exclusive (settings : value) :
  (isAdaptiveRuntime settings = Returned true ->
   isOldCustomRuntime settings = false
   /\ requiresMigrate settings = Returned false)
  /\ (isOldCustomRuntime settings = true ->
      isAdaptiveRuntime settings = Returned false).
Proof.
  unfold requiresMigrate, isAdaptiveRuntime, isOldCustomRuntime.
  destruct (optional (optional settings "runtime") "key") as [| | | |s| |];
    split; try discriminate; try reflexivity.
  - intros [= H]. rewrite H. split; [|reflexivity].
    now apply adaptive_key_is_not_old.
  - intros H. destruct (String.prefix "adaptive-runtime" s) eqn:E;
      [|reflexivity].
    apply adaptive_key_is_not_old in E. congruence.
Qed.

Lemma somePva_first before target after :
  Forall (fun t => nullish t = false) before ->
  get_prop target "type" = VStr "pva-publish-composer" ->
  somePva (before ++ target :: after) = Returned true.
Proof.
  intros Hall Htype. induction Hall as [|t before Ht _ IH]; simpl.
  - unfold member.
    destruct (nullish target) eqn:E; [now destruct target|].
    cbn [bind]. now rewrite Htype.
  - unfold member at 1. rewrite Ht. cbn [bind].
    destruct (get_prop t "type"); try assumption.
    now destruct (String.eqb _ _).
Qed.

(** X12: [isPVA] answers [undefined], not a boolean, for settings
    without publish targets, and [requiresMigrate] is then true unless
    the runtime is the adaptive one.  It answers [true] as soon as a
    target of type [pva-publish-composer] is met, the targets after it
    not being looked at, and [requiresMigrate] is then false. *)
Theorem requiresMigrate_by_publish_targets (settings : value) :
  (nullish (optional settings "publishTargets") = true ->
   isPVA settings = Returned VUndefined
   /\ (isAdaptiveRuntime settings = Returned false ->
       requiresMigrate settings = Returned true))
  /\ (forall before target after,
        optional settings "publishTargets"
        = VArr (before ++ target :: after) [] ->
        Forall (fun t => nullish t = false) before ->
        get_prop target "type" = VStr "pva-publish-composer" ->
        isPVA settings = Returned (VBool true)
        /\ forall adaptive,
             isAdaptiveRuntime settings = Returned adaptive ->
             requiresMigrate settings = Returned false).
Proof.
  unfold requiresMigrate, isPVA. split.
  - intros H.
    destruct (optional settings "publishTargets"); try discriminate H;
      (split; [reflexivity|]); now intros ->.
  - intros before target after -> Hall Htype. cbn [assoc_get].
    rewrite somePva_first by assumption.
    split; [reflexivity|].
    intros adaptive ->. now destruct adaptive.
Qed.

End RuntimeTheorems.

(** ** Looking a bot up in the bot-project file *)
Module LookupTheorems.
Import JS Exn SkillTree Lookup SkillTreeFacts Examples.

Section Theorems.
Variable path_join : string -> string -> string.

Local Abbreviation check := (checkIfBotExistsInBotProjectFile path_join).

(** A skill entry that the lookup accepts. *)
Local Abbreviation accepted rootBotLocation pathOrManifest remote skill :=
  (if remote : bool then manifest skill = Some pathOrManifest
   else given (workspace skill) = true
        /\ pathOrManifest
           = path_join rootBotLocation (default "" (workspace skill))).

Lemma skillMatches_spec rootBotLocation pathOrManifest remote skills :
  skillMatches path_join rootBotLocation pathOrManifest remote skills = true
  <-> exists entry, In entry skills
        /\ accepted rootBotLocation pathOrManifest remote (snd entry).
Proof.
  induction skills as [|[name skill] rest IH]; simpl.
  - split; [discriminate|]. now intros (? & [] & _).
  - destruct remote.
    + destruct (manifest skill) as [url|] eqn:Em.
      * destruct (String.eqb_spec url pathOrManifest) as [->|Hne].
        -- split; [|reflexivity]. intros _. exists (name, skill). auto.
        -- rewrite IH. split.
           ++ intros (e & He & Ha). exists e. auto.
           ++ intros (e & [<-|He] & Ha); [|eauto].
              simpl in Ha. congruence.
      * rewrite IH. split.
        -- intros (e & He & Ha). exists e. auto.
        -- intros (e & [<-|He] & Ha); [|eauto].
           simpl in Ha. congruence.
    + destruct (given (workspace skill)) eqn:Eg.
      * destruct (String.eqb_spec pathOrManifest
                    (path_join rootBotLocation (default "" (workspace skill))))
          as [->|Hne].
        -- split; [|reflexivity]. intros _. exists (name, skill). auto.
        -- rewrite IH. split.
           ++ intros (e & He & Ha). exists e. auto.
           ++ intros (e & [<-|He] & Ha); [|eauto].
              simpl in Ha. now destruct Ha.
      * rewrite IH. split.
        -- intros (e & He & Ha). exists e. auto.
        -- intros (e & [<-|He] & Ha); [|eauto].
           simpl in Ha. destruct Ha. congruence.
Qed.

Lemma lookup_returns (rootBotProjectId : option string) rootBotLocation
    skills pathOrManifest remote :
  given rootBotProjectId = true ->
  exists found,
    check rootBotProjectId rootBotLocation skills pathOrManifest remote
    = Returned found
    /\ (found = true
        <-> rootBotLocation = pathOrManifest
            \/ exists entry, In entry skills
                 /\ accepted rootBotLocation pathOrManifest remote
                      (snd entry)).
Proof.
  unfold checkIfBotExistsInBotProjectFile. intros ->. simpl.
  destruct (String.eqb_spec rootBotLocation pathOrManifest) as [->|Hne].
  - exists true. split; [reflexivity|]. split; auto.
  - eexists. split; [reflexivity|].
    rewrite skillMatches_spec. split; [auto|].
    intros [H|H]; [contradiction|assumption].
Qed.

(** X13: [checkIfBotExistsInBotProjectFile] throws when there is no
    root bot; otherwise it returns, and it returns [true] exactly when
    the path is the location of the root bot or some skill of the
    bot-project file is accepted: for a remote lookup, a skill whose
    manifest is the given one; for a local lookup, a skill with a
    workspace that, joined to the location of the root bot, is the
    given path.  The [remote] flag of the skill is not read. *)
Theorem bot_lookup_characterised
    (rootBotProjectId : option string) (rootBotLocation : string)
    (skills : list (string * BotProjectSpaceSkill))
    (pathOrManifest : string) (remote : bool) :
  (given rootBotProjectId = false ->
   exists ex, check rootBotProjectId rootBotLocation skills pathOrManifest
                remote = Thrown ex)
  /\ (given rootBotProjectId = true ->
      exists found,
        check rootBotProjectId rootBotLocation skills pathOrManifest remote
        = Returned found
        /\ (found = true
            <-> rootBotLocation = pathOrManifest
                \/ exists entry, In entry skills
                     /\ accepted rootBotLocation pathOrManifest remote
                          (snd entry))).
Proof.
  split.
  - unfold checkIfBotExistsInBotProjectFile. intros ->. simpl. eauto.
  - apply lookup_returns.
Qed.

(** X14: every load that [openRootBotAndSkills] starts for a skill is
    found by the lookup in the same bot-project file: a local load by
    its path with a local lookup, a remote load by its manifest with a
    remote lookup. *)
Theorem started_loads_are_found
    (rootBotProjectId location storageId : string) (total : nat)
    (skills : list (string * BotProjectSpaceSkill)) (p : pendingSkill) :
  In p (omap (startSkill path_join rootBotProjectId location storageId total)
          skills) ->
  rootBotProjectId <> "" ->
  match load p with
  | OpenLocalSkill pathToBot _ _ =>
      isRemote p = false
      /\ check (Some rootBotProjectId) location skills pathToBot false
         = Returned true
  | OpenRemoteSkill manifestUrl _ _ =>
      isRemote p = true
      /\ check (Some rootBotProjectId) location skills manifestUrl true
         = Returned true
  end.
Proof.
  intros Hin Hroot.
  assert (Hgiven : given (Some rootBotProjectId) = true).
  { simpl. now destruct (String.eqb_spec rootBotProjectId ""). }
  assert (Hentry : exists entry, In entry skills
            /\ startSkill path_join rootBotProjectId location storageId total
                 entry = Some p).
  { clear Hroot Hgiven. induction skills as [|e skills IH]; [destruct Hin|].
    rewrite omap_cons in Hin.
    destruct (startSkill path_join rootBotProjectId location storageId total e)
      as [q|] eqn:E.
    - destruct Hin as [<-|Hin].
      + exists e. split; [now left|assumption].
      + destruct (IH Hin) as (e' & ? & ?). exists e'. split; [now right|auto].
    - destruct (IH Hin) as (e' & ? & ?). exists e'. split; [now right|auto]. }
  destruct Hentry as (entry & Hentry & Hstart).
  unfold startSkill in Hstart.
  destruct (negb (remote (snd entry)) && given (workspace (snd entry))) eqn:E.
  - injection Hstart as <-. cbn [load isRemote]. split; [reflexivity|].
    apply andb_true_iff in E as [_ Hw].
    destruct (lookup_returns (Some rootBotProjectId) location skills
                (path_join location (default "" (workspace (snd entry))))
                false Hgiven) as (found & -> & Hfound).
    f_equal. apply Hfound. right. exists entry. auto.
  - destruct (given (manifest (snd entry))) eqn:Em; [|discriminate].
    injection Hstart as <-. cbn [load isRemote]. split; [reflexivity|].
    destruct (manifest (snd entry)) as [url|] eqn:Eu; [|discriminate].
    change (default "" (Some url)) with url.
    destruct (lookup_returns (Some rootBotProjectId) location skills url true
                Hgiven) as (found & -> & Hfound).
    f_equal. apply Hfound. right. exists entry. auto.
Qed.

End Theorems.

Lemma started_loads_are_found_witness :
  checkIfBotExistsInBotProjectFile examplePathJoin (Some "root") "/bots/root"
    exampleSkills "/bots/root/../echo" false
  = Returned true.
Proof.
  exact (proj2 (started_loads_are_found examplePathJoin "root" "/bots/root"
                  "default" 3 exampleSkills
                  {| nameIdentifier := "echo"; isRemote := false;
                     load := OpenLocalSkill "/bots/root/../echo" "default"
                               "echo";
                     totalProjectsCount := 3 |}
                  ltac:(simpl; auto) ltac:(discriminate))).
Defined.

End LookupTheorems.

(** ** The callers of the project loader *)
Module CallersTheorems.
Import JS Exn Settings Loader Callers ExnFacts.
Local Open Scope outcome_scope.

Section Theorems.
Variables SensitiveProperties RootBotManagedProperties : list path.
Variable convertSkillsToDictionary : value -> value.
Variable storage : gmap string value.
Variable httpClient_put : string -> value -> outcome value.
Variable httpClient_get : string -> outcome value.
Variable httpClient_post : string -> value -> outcome value.
Variable indexer_index : value -> value -> outcome value.
Variable lgWorker_addProject : value -> outcome unit.
Variable BotIndexer_validate : value -> outcome value.
Variable opener : ProjectResult -> value -> outcome value.

Local Abbreviation loadProjectData' :=
  (loadProjectData SensitiveProperties RootBotManagedProperties
     convertSkillsToDictionary storage indexer_index lgWorker_addProject
     BotIndexer_validate).
Local Abbreviation openRootBotAndSkillsByPath' :=
  (openRootBotAndSkillsByPath SensitiveProperties RootBotManagedProperties
     convertSkillsToDictionary storage httpClient_put indexer_index
     lgWorker_addProject BotIndexer_validate opener).
Local Abbreviation openRootBotAndSkillsByProjectId' :=
  (openRootBotAndSkillsByProjectId SensitiveProperties
     RootBotManagedProperties convertSkillsToDictionary storage
     httpClient_get indexer_index lgWorker_addProject BotIndexer_validate
     opener).
Local Abbreviation saveProject' :=
  (saveProject SensitiveProperties RootBotManagedProperties
     convertSkillsToDictionary storage httpClient_post indexer_index
     lgWorker_addProject BotIndexer_validate opener).

Lemma loaded_without_error data r :
  loadProjectData' data = Returned r -> error r = VUndefined.
Proof.
  unfold loadProjectData. intros H.
  repeat (apply bind_Returned_inv in H as (? & _ & H)).
  now inversion H.
Qed.

(** What a caller makes of a request followed by the loading of its
    response. *)
Lemma caller_after_fetch (request : outcome value) storageId :
  (data <- try_catch
             (response <- request ;;
              data <- member response "data" ;;
              projectData <- loadProjectData' data ;;
              Returned projectData)
             failed ;;
   if truthy (error data) then Thrown (error data)
   else opener data storageId)
  = match (response <- request ;;
           data <- member response "data" ;;
           loadProjectData' data) with
    | Returned loaded => opener loaded storageId
    | Thrown ex =>
        if truthy ex then Thrown ex
        else opener {| botFiles := VUndefined; projectData := VUndefined;
                       error := ex |} storageId
    end.
Proof.
  destruct request as [response|ex]; cbn [bind try_catch].
  - destruct (member response "data") as [data|ex]; cbn [bind try_catch].
    + destruct (loadProjectData' data) as [loaded|ex] eqn:E;
        cbn [bind try_catch].
      * now rewrite (loaded_without_error _ _ E).
      * unfold failed. cbn [bind error]. now destruct (truthy ex).
    + unfold failed. cbn [bind error]. now destruct (truthy ex).
  - unfold failed. cbn [bind error]. now destruct (truthy ex).
Qed.

(** X15: [openRootBotAndSkillsByPath] and
    [openRootBotAndSkillsByProjectId] open the project that the request
    and the loading of its response yield.  When either throws a
    truthy value, the caller throws that same value and opens nothing;
    a falsy value thrown there is not thrown again: the caller goes on
    to open a result without files and without project data. *)
Theorem openers_rethrow_truthy_errors
    (path : string) (storageId projectId : value) :
  let put :=
    httpClient_put "/projects/open"
      (VObj [("path", VStr path); ("storageId", storageId);
             ("isRootBot", VBool true)]) in
  let get := httpClient_get ("/projects/" ++ js_string projectId) in
  let outcomeOf (request : outcome value) (storageId : value) :=
    match (response <- request ;;
           data <- member response "data" ;;
           loadProjectData' data) with
    | Returned loaded => opener loaded storageId
    | Thrown ex =>
        if truthy ex then Thrown ex
        else opener {| botFiles := VUndefined; projectData := VUndefined;
                       error := ex |} storageId
    end in
  openRootBotAndSkillsByPath' path storageId = outcomeOf put storageId
  /\ openRootBotAndSkillsByProjectId' projectId = outcomeOf get VUndefined.
Proof.
  intros put get outcomeOf. split.
  - unfold openRootBotAndSkillsByPath, fetchProjectDataByPath.
    apply caller_after_fetch.
  - unfold openRootBotAndSkillsByProjectId, fetchProjectDataById.
    apply caller_after_fetch.
Qed.

(** X16: in [saveProject] the test of [data.error] never fires: a
    project that [loadProjectData] returns carries no error, and what
    [loadProjectData] throws is thrown by [saveProject] itself.  The
    project is opened with the default storage. *)
Theorem saveProject_error_check_is_dead (oldProjectData : value) :
  saveProject' oldProjectData
  = (_ <- coercible oldProjectData ;;
     response <-
       httpClient_post
         ("/projects/" ++ js_string (get_prop oldProjectData "oldProjectId")
            ++ "/project/saveAs")
         (VObj [("storageId", VStr "default");
                ("name", get_prop oldProjectData "name");
                ("description", get_prop oldProjectData "description");
                ("location", get_prop oldProjectData "location")]) ;;
     responseData <- member response "data" ;;
     data <- loadProjectData' responseData ;;
     opener data VUndefined).
Proof.
  unfold saveProject.
  destruct (coercible oldProjectData); [|reflexivity]. cbn [bind].
  destruct (httpClient_post _ _) as [response|]; [|reflexivity]. cbn [bind].
  destruct (member response "data") as [responseData|]; [|reflexivity].
  cbn [bind].
  destruct (loadProjectData' responseData) as [data|] eqn:E; [|reflexivity].
  cbn [bind]. now rewrite (loaded_without_error _ _ E).
Qed.

End Theorems.
End CallersTheorems.

(** ** Recent projects, the main dialog, and a missing error *)
Module BotStateTheorems.
Import JS Exn Files Recent BotState Recoil Failure ExnFacts.
Import Examples MoreExamples.
Local Open Scope outcome_scope.

Lemma withoutPath_defined path projects :
  Forall (fun p => nullish p = false) projects ->
  withoutPath path projects
  = Returned (List.filter (fun p => negb (hasPath path p)) projects).
Proof.
  induction 1 as [|p rest Hp _ IH]; [reflexivity|].
  simpl. unfold member. rewrite Hp, IH. cbn [bind]. unfold hasPath.
  now destruct (strict_equal _ _).
Qed.

Lemma withoutPath_nullish path projects :
  Exists (fun p => nullish p = true) projects ->
  withoutPath path projects = Thrown TypeError.
Proof.
  induction 1 as [p rest Hp|p rest _ IH]; simpl; unfold member.
  - now rewrite Hp.
  - destruct (nullish p); [reflexivity|]. cbn [bind]. now rewrite IH.
Qed.

(** X17: when the recent projects can be read and each of them is an
    object or a primitive, [removeRecentProject] leaves exactly those
    whose [path] is not the given one, in their order, and a second
    call with the same path changes nothing more; when reading them
    fails, or one of them is [null] or [undefined], the recent projects
    stay as they were. *)
Theorem removeRecentProject_outcome
    (recentProjects current : list value) (path : string) :
  (Forall (fun p => nullish p = false) current ->
   let left := removeRecentProject recentProjects (Returned current) path in
   left = List.filter (fun p => negb (strict_equal (get_prop p "path")
                                        (VStr path))) current
   /\ Forall (fun p => get_prop p "path" <> VStr path) left
   /\ removeRecentProject left (Returned left) path = left)
  /\ (Exists (fun p => nullish p = true) current ->
      removeRecentProject recentProjects (Returned current) path
      = recentProjects)
  /\ (forall ex,
        removeRecentProject recentProjects (Thrown ex) path = recentProjects).
Proof.
  split; [|split].
  - intros Hall left.
    assert (Hleft : left = List.filter (fun p => negb (hasPath path p)) current).
    { unfold left, removeRecentProject. cbn [bind].
      now rewrite withoutPath_defined. }
    split; [exact Hleft|].
    assert (Hkept : Forall (fun p => nullish p = false
                                     /\ hasPath path p = false) left).
    { rewrite Hleft. apply List.Forall_forall. intros p Hp.
      apply filter_In in Hp as [Hp Hneg].
      rewrite List.Forall_forall in Hall. split; [auto|].
      now apply negb_true_iff. }
    split.
    + eapply List.Forall_impl; [|exact Hkept].
      intros p [_ Hp] Heq. unfold hasPath in Hp. rewrite Heq in Hp.
      simpl in Hp. now rewrite String.eqb_refl in Hp.
    + unfold removeRecentProject. cbn [bind].
      rewrite withoutPath_defined
        by (eapply List.Forall_impl; [|exact Hkept]; now intros p [? _]).
      clear Hleft. induction Hkept as [|p rest [_ Hp] _ IH]; [reflexivity|].
      simpl. rewrite Hp. simpl. now rewrite IH.
  - intros Hex. unfold removeRecentProject. cbn [bind].
    now rewrite withoutPath_nullish.
  - reflexivity.
Qed.

Lemma dialogLoop_defined dialogs : forall mainDialog dialogIds,
  Forall (fun d => nullish d = false) dialogs ->
  dialogLoop dialogs mainDialog dialogIds
  = Returned
      (fold_left (fun main d => if truthy (get_prop d "isRoot")
                                then get_prop d "id" else main)
         dialogs mainDialog,
       dialogIds ++ map (fun d => get_prop d "id") dialogs).
Proof.
  induction dialogs as [|d rest IH]; intros mainDialog dialogIds Hall; simpl.
  - now rewrite app_nil_r.
  - inversion Hall as [|? ? Hd Hrest]; subst.
    unfold member. rewrite Hd. cbn [bind].
    rewrite IH by assumption. now rewrite <- app_assoc.
Qed.

Lemma no_root_keeps dialogs : forall mainDialog,
  Forall (fun d => truthy (get_prop d "isRoot") = false) dialogs ->
  fold_left (fun main d => if truthy (get_prop d "isRoot")
                           then get_prop d "id" else main)
    dialogs mainDialog
  = mainDialog.
Proof.
  induction dialogs as [|d rest IH]; intros mainDialog Hall; [reflexivity|].
  inversion Hall as [|? ? Hd Hrest]; subst. simpl. rewrite Hd. now apply IH.
Qed.

(** X18: the loop of [initBotState] over the dialogs collects the id
    of every dialog, in order, and the main dialog it yields is the id
    of the last dialog marked as root, or the empty string when no
    dialog is. *)
Theorem last_root_dialog_is_main (dialogs : list value) :
  Forall (fun d => nullish d = false) dialogs ->
  exists mainDialog,
    mainDialogOf dialogs
    = Returned (mainDialog, map (fun d => get_prop d "id") dialogs)
    /\ (Forall (fun d => truthy (get_prop d "isRoot") = false) dialogs ->
        mainDialog = VStr "")
    /\ (forall before root after,
          dialogs = before ++ root :: after ->
          truthy (get_prop root "isRoot") = true ->
          Forall (fun d => truthy (get_prop d "isRoot") = false) after ->
          mainDialog = get_prop root "id").
Proof.
  intros Hall. unfold mainDialogOf.
  rewrite dialogLoop_defined by assumption.
  eexists. split; [reflexivity|]. split.
  - apply no_root_keeps.
  - intros before root after -> Hroot Hafter.
    rewrite fold_left_app. simpl. rewrite Hroot. now apply no_root_keeps.
Qed.

Section Failure.
Variables checkIfDotnetVersionMissing checkIfFunctionsMissing
  : value -> bool.
Variable setError : atoms -> value -> atoms.

(** X19: [handleProjectFailure] called with [null] or [undefined] as
    the error throws a [TypeError] before any atom is written. *)
Theorem handleProjectFailure_needs_an_error (a : atoms) (error : value) :
  nullish error = true ->
  handleProjectFailure checkIfDotnetVersionMissing checkIfFunctionsMissing
    setError a error
  = Thrown TypeError.
Proof.
  intros H. unfold handleProjectFailure, failureMessage, member.
  now rewrite H.
Qed.

End Failure.

Lemma removeRecentProject_outcome_witness :
  removeRecentProject []
    (Returned [VObj [("path", VStr "/bots/echo")];
               VObj [("path", VStr "/bots/root")]]) "/bots/echo"
  = [VObj [("path", VStr "/bots/root")]].
Proof.
  exact (proj1 (proj1 (removeRecentProject_outcome []
                         [VObj [("path", VStr "/bots/echo")];
                          VObj [("path", VStr "/bots/root")]] "/bots/echo")
                  ltac:(repeat constructor))).
Defined.

Lemma last_root_dialog_is_main_witness :
  mainDialogOf [VObj [("id", VStr "main"); ("isRoot", VBool true)];
                VObj [("id", VStr "help"); ("isRoot", VBool false)]]
  = Returned (VStr "main", [VStr "main"; VStr "help"]).
Proof.
  destruct (last_root_dialog_is_main
              [VObj [("id", VStr "main"); ("isRoot", VBool true)];
               VObj [("id", VStr "help"); ("isRoot", VBool false)]]
              ltac:(repeat constructor)) as (mainDialog & Hrun & _ & Hmain).
  rewrite Hrun.
  now rewrite (Hmain [] _ _ eq_refl eq_refl ltac:(repeat constructor)).
Defined.

Lemma handleProjectFailure_needs_an_error_witness :
  handleProjectFailure exampleDotnetCheck exampleFunctionsCheck
    exampleSetError exampleAtoms VUndefined
  = Thrown TypeError.
Proof.
  exact (handleProjectFailure_needs_an_error exampleDotnetCheck
           exampleFunctionsCheck exampleSetError exampleAtoms VUndefined
           eq_refl).
Defined.

End BotStateTheorems.

(** ** What the local-storage merge does to the caller's objects *)
Module StoreTheorems.
Import JS Settings MergerFacts Examples MoreExamples.

Lemma set_prop_frame h l key v :
  length (Store.set_prop h l key v) = length h
  /\ forall l', l' <> l -> Store.set_prop h l key v !! l' = h !! l'.
Proof.
  assert (Hins : forall c,
    length (<[l := c]> h) = length h
    /\ forall l', l' <> l -> <[l := c]> h !! l' = h !! l').
  { intros c. split; [apply length_insert|].
    intros l' Hl'. apply list_lookup_insert_ne. congruence. }
  unfold Store.set_prop.
  destruct (h !! l) as [[es nm|ps]|]; [| |now split].
  - destruct (String.eqb key "length").
    + destruct v; try now split.
      destruct ((0 <=? n)%Z && (n <? 2 ^ 32)%Z); [apply Hins|now split].
    + destruct (array_index key); apply Hins.
  - apply Hins.
Qed.

Lemma get_prop_object (h : Store.store) l ps key :
  h !! l = Some (Store.CObj ps) ->
  Store.get_prop h (Store.HRef l) key
  = default Store.HUndefined (assoc_get key ps).
Proof. intros H. unfold Store.get_prop. now rewrite H. Qed.

Lemma set_prop_object (h : Store.store) l ps key v :
  h !! l = Some (Store.CObj ps) ->
  Store.set_prop h l key v = <[l := Store.CObj (assoc_set key v ps)]> h.
Proof. intros H. unfold Store.set_prop. now rewrite H. Qed.

Lemma spread_alloc h v :
  exists c, Store.spread h v = (h ++ [c], Store.HRef (length h)).
Proof.
  unfold Store.spread, Store.alloc.
  destruct v; eauto. destruct (h !! l) as [[es nm|ps]|]; eauto.
Qed.

Section Theorems.
Variables SensitiveProperties RootBotManagedProperties : list path.

Local Abbreviation mergeLocalStorage' :=
  (Store.mergeLocalStorage SensitiveProperties RootBotManagedProperties).

Lemma mergeProperty_top_level localSetting l h p :
  (~ In p RootBotManagedProperties -> length p <= 1) ->
  let h' :=
    Store.mergeProperty RootBotManagedProperties localSetting (Store.HRef l)
      h p in
  length h' = length h /\ forall l', l' <> l -> h' !! l' = h !! l'.
Proof.
  intros Hshort. unfold Store.mergeProperty.
  destruct (bool_decide (p ∈ RootBotManagedProperties)) eqn:E; [auto|].
  apply bool_decide_eq_false in E. rewrite list_elem_of_In in E.
  specialize (Hshort E).
  assert (Hset : forall v,
    length (Store.objectSet h (Store.HRef l) p v) = length h
    /\ forall l', l' <> l ->
         Store.objectSet h (Store.HRef l) p v !! l' = h !! l').
  { intros v. unfold Store.objectSet.
    destruct p as [|k [|k2 rest]]; simpl in *; [auto| |lia].
    destruct (unsafe_key k); [auto|]. apply set_prop_frame. }
  cbv zeta. destruct (Store.truthy _); apply Hset.
Qed.

(** X20: when every sensitive property that the local-storage merge
    assigns is a top-level one, [mergeLocalStorage] returns a new
    object and changes no object that existed before the call: the
    caller's settings and everything they refer to stay as they
    were. *)
Theorem top_level_merge_leaves_caller_untouched
    (h : Store.store) (localSetting settings : Store.hvalue) :
  Forall (fun p => length p <= 1)
    (localProperties SensitiveProperties RootBotManagedProperties) ->
  let result := mergeLocalStorage' h localSetting settings in
  snd result = Store.HRef (length h)
  /\ length (fst result) = S (length h)
  /\ forall l, l < length h -> fst result !! l = h !! l.
Proof.
  intros Hshort. unfold Store.mergeLocalStorage.
  destruct (spread_alloc h settings) as [c ->]. cbv zeta.
  assert (Hbase : length (h ++ [c]) = S (length h)
                  /\ forall l, l < length h -> (h ++ [c]) !! l = h !! l).
  { rewrite length_app. simpl. split; [lia|].
    intros l Hl. now apply lookup_app_l. }
  destruct (Store.truthy localSetting); [|now split].
  cbn [fst snd]. split; [reflexivity|].
  assert (Hall : forall p, In p SensitiveProperties ->
            ~ In p RootBotManagedProperties -> length p <= 1).
  { intros p Hp Hout. rewrite List.Forall_forall in Hshort.
    apply Hshort. now apply In_localProperties. }
  clear Hshort. revert Hbase Hall. generalize (h ++ [c]) as h1.
  induction SensitiveProperties as [|p l IH]; intros h1 Hbase Hall;
    [assumption|].
  simpl. apply IH.
  - destruct (mergeProperty_top_level localSetting (length h) h1 p
                (Hall p (or_introl eq_refl))) as [Hlen Hsame].
    destruct Hbase as [Hlen1 Hsame1]. split; [congruence|].
    intros l' Hl'. rewrite Hsame by lia. now apply Hsame1.
  - intros q Hq. apply Hall. now right.
Qed.

End Theorems.

(** The copy keeps its reference to a nested object while the loop
    assigns other top-level properties. *)
Lemma mergeProperty_keeps_link RootBotManagedProperties localSetting
    (c lk : nat) (k dk : string) (x : Store.store) (p : path)
    (ps : list (string * Store.hvalue)) :
  (~ In p RootBotManagedProperties ->
   exists k', p = [k'] /\ k' <> k /\ k' <> dk) ->
  x !! c = Some (Store.CObj ps) ->
  assoc_get k ps = Some (Store.HRef lk) -> assoc_get dk ps = None ->
  let x' :=
    Store.mergeProperty RootBotManagedProperties localSetting (Store.HRef c)
      x p in
  length x' = length x
  /\ (forall l, l <> c -> x' !! l = x !! l)
  /\ exists ps', x' !! c = Some (Store.CObj ps')
       /\ assoc_get k ps' = Some (Store.HRef lk) /\ assoc_get dk ps' = None.
Proof.
  intros Hp Hc Hk Hdk x'.
  assert (Hkeep : length x = length x /\ (forall l, l <> c -> x !! l = x !! l)
            /\ exists ps', x !! c = Some (Store.CObj ps')
                 /\ assoc_get k ps' = Some (Store.HRef lk)
                 /\ assoc_get dk ps' = None) by eauto 10.
  unfold x', Store.mergeProperty.
  destruct (bool_decide (p ∈ RootBotManagedProperties)) eqn:E;
    [exact Hkeep|].
  apply bool_decide_eq_false in E. rewrite list_elem_of_In in E.
  destruct (Hp E) as (k' & -> & Hne & Hnd).
  assert (Hset : forall v,
    let y := Store.objectSet x (Store.HRef c) [k'] v in
    length y = length x /\ (forall l, l <> c -> y !! l = x !! l)
    /\ exists ps', y !! c = Some (Store.CObj ps')
         /\ assoc_get k ps' = Some (Store.HRef lk)
         /\ assoc_get dk ps' = None).
  { intros v. unfold Store.objectSet. cbn [Store.castPath Store.baseSet].
    destruct (unsafe_key k'); [exact Hkeep|].
    destruct (set_prop_frame x c k' v) as [Hlen Hsame].
    split; [exact Hlen|]. split; [exact Hsame|].
    exists (assoc_set k' v ps). split.
    - rewrite (set_prop_object x c ps k' v Hc).
      apply list_lookup_insert_eq. apply lookup_lt_is_Some. eauto.
    - now rewrite !JSFacts.assoc_get_set_other. }
  cbv zeta in Hset. destruct (Store.truthy _); apply Hset.
Qed.

Lemma loop_keeps_link RootBotManagedProperties localSetting
    (c lk : nat) (k dk : string) (l : list path) :
  forall (x : Store.store) (ps : list (string * Store.hvalue)),
  (forall p, In p l -> ~ In p RootBotManagedProperties ->
             exists k', p = [k'] /\ k' <> k /\ k' <> dk) ->
  x !! c = Some (Store.CObj ps) ->
  assoc_get k ps = Some (Store.HRef lk) -> assoc_get dk ps = None ->
  let x' :=
    fold_left (Store.mergeProperty RootBotManagedProperties localSetting
                 (Store.HRef c)) l x in
  length x' = length x
  /\ (forall l0, l0 <> c -> x' !! l0 = x !! l0)
  /\ exists ps', x' !! c = Some (Store.CObj ps')
       /\ assoc_get k ps' = Some (Store.HRef lk) /\ assoc_get dk ps' = None.
Proof.
  induction l as [|p l IH]; intros x ps Hall Hc Hk Hdk; [cbn; eauto 10|].
  cbn [fold_left].
  destruct (mergeProperty_keeps_link RootBotManagedProperties localSetting
              c lk k dk x p ps (Hall p (or_introl eq_refl)) Hc Hk Hdk)
    as (Hlen & Hsame & ps1 & Hc1 & Hk1 & Hdk1).
  destruct (IH _ ps1 (fun q Hq => Hall q (or_intror Hq)) Hc1 Hk1 Hdk1)
    as (Hlen2 & Hsame2 & Hlink).
  split; [congruence|]. split; [|exact Hlink].
  intros l0 Hl0. rewrite Hsame2 by assumption. now apply Hsame.
Qed.

(** Reading a property one level down. *)
Lemma objectGet_nested (x : Store.store) (l lk : nat) (k k2 : string)
    (ps qs : list (string * Store.hvalue)) :
  x !! l = Some (Store.CObj ps) ->
  assoc_get (dotted [k; k2]) ps = None ->
  assoc_get k ps = Some (Store.HRef lk) ->
  x !! lk = Some (Store.CObj qs) ->
  Store.objectGet x (Store.HRef l) [k; k2]
  = default Store.HUndefined (assoc_get k2 qs).
Proof.
  intros Hl Hdk Hk Hlk. unfold Store.objectGet, Store.castPath, Store.has_key.
  rewrite Hl, Hdk. cbn [bool_decide decide_rel Store.baseGet Store.nullish].
  rewrite bool_decide_eq_false_2 by (intros [? ?]; discriminate).
  cbn [Store.baseGet Store.nullish].
  rewrite (get_prop_object x l ps k Hl), Hk.
  cbn [default from_option id Store.nullish].
  now rewrite (get_prop_object x lk qs k2 Hlk).
Qed.

(** X21: when a sensitive property lies one level down, in an object
    that the settings refer to, and the other properties that the merge
    assigns are top-level ones, [mergeLocalStorage] assigns into that
    very object: after the call the caller's settings read the merged
    value there, as the returned settings do.  The merged value is the
    one the loop reads in the stored entry when it comes to the
    property, or the empty string when that one is falsy; the settings
    have no property whose own name is the dotted path. *)
Theorem nested_merge_writes_through
    (RootBotManagedProperties : list path)
    (h : Store.store) (localSetting : Store.hvalue) (s lk : nat)
    (k k2 : string) (ps qs : list (string * Store.hvalue))
    (before after : list path) :
  h !! s = Some (Store.CObj ps) ->
  assoc_get k ps = Some (Store.HRef lk) ->
  h !! lk = Some (Store.CObj qs) -> lk <> s ->
  unsafe_key k = false -> unsafe_key k2 = false ->
  assoc_get (dotted [k; k2]) ps = None ->
  ~ In [k; k2] RootBotManagedProperties ->
  (forall p, In p (before ++ after) -> ~ In p RootBotManagedProperties ->
     exists k', p = [k'] /\ k' <> k /\ k' <> dotted [k; k2]) ->
  Store.truthy localSetting = true ->
  let result :=
    Store.mergeLocalStorage (before ++ [k; k2] :: after)
      RootBotManagedProperties h localSetting (Store.HRef s) in
  let reached :=
    fold_left (Store.mergeProperty RootBotManagedProperties localSetting
                 (Store.HRef (length h))) before (h ++ [Store.CObj ps]) in
  let stored := Store.objectGet reached localSetting [k; k2] in
  let merged := if Store.truthy stored then stored else Store.HStr "" in
  Store.objectGet (fst result) (Store.HRef s) [k; k2] = merged
  /\ Store.objectGet (fst result) (snd result) [k; k2] = merged.
Proof.
  intros Hs Hk Hlk Hne Hsafe Hsafe2 Hflat Hout Hothers Hlocal
    result reached stored merged.
  assert (Hs_lt : s < length h) by (apply lookup_lt_is_Some; eauto).
  assert (Hlk_lt : lk < length h) by (apply lookup_lt_is_Some; eauto).
  set (h1 := h ++ [Store.CObj ps]) in *.
  assert (H1n : h1 !! length h = Some (Store.CObj ps))
    by (unfold h1; now apply list_lookup_middle).
  destruct (loop_keeps_link RootBotManagedProperties localSetting
              (length h) lk k (dotted [k; k2]) before h1 ps
              (fun p Hp => Hothers p (in_or_app _ _ _ (or_introl Hp)))
              H1n Hk Hflat) as (Hlen1 & Hsame1 & ps1 & Hc1 & Hk1 & Hflat1).
  fold reached in Hlen1, Hsame1, Hc1.
  assert (H1s : reached !! s = Some (Store.CObj ps)).
  { rewrite Hsame1 by lia. rewrite <- Hs. now apply lookup_app_l. }
  assert (H1lk : reached !! lk = Some (Store.CObj qs)).
  { rewrite Hsame1 by lia. rewrite <- Hlk. now apply lookup_app_l. }
  set (h2 := <[lk := Store.CObj (assoc_set k2 merged qs)]> reached).
  assert (Hstep :
    Store.mergeProperty RootBotManagedProperties localSetting
      (Store.HRef (length h)) reached [k; k2] = h2).
  { unfold Store.mergeProperty.
    rewrite bool_decide_eq_false_2 by now rewrite list_elem_of_In.
    assert (Hset : forall v,
      Store.objectSet reached (Store.HRef (length h)) [k; k2] v
      = <[lk := Store.CObj (assoc_set k2 v qs)]> reached).
    { intros v. unfold Store.objectSet, Store.castPath, Store.has_key.
      rewrite Hc1, Hflat1.
      rewrite bool_decide_eq_false_2 by (intros [? ?]; discriminate).
      cbn [Store.baseSet].
      rewrite Hsafe, (get_prop_object reached _ ps1) by assumption.
      rewrite Hk1. cbn [default from_option id]. rewrite Hsafe2.
      now apply set_prop_object. }
    unfold h2, merged, stored.
    destruct (Store.truthy (Store.objectGet reached localSetting [k; k2]));
      apply Hset. }
  assert (Hlk_lt1 : lk < length reached)
    by (apply lookup_lt_is_Some; eauto).
  assert (H2lk : h2 !! lk = Some (Store.CObj (assoc_set k2 merged qs)))
    by (unfold h2; now apply list_lookup_insert_eq).
  assert (H2s : h2 !! s = Some (Store.CObj ps))
    by (unfold h2; rewrite <- H1s; now apply list_lookup_insert_ne).
  assert (H2c : h2 !! length h = Some (Store.CObj ps1))
    by (unfold h2; rewrite <- Hc1; apply list_lookup_insert_ne; lia).
  destruct (loop_keeps_link RootBotManagedProperties localSetting
              (length h) lk k (dotted [k; k2]) after h2 ps1
              (fun p Hp =>
                 Hothers p (in_or_app _ _ _ (or_intror Hp)))
              H2c Hk1 Hflat1) as (Hlen3 & Hsame3 & ps3 & Hc3 & Hk3 & Hflat3).
  assert (Hresult :
    result = (fold_left
                (Store.mergeProperty RootBotManagedProperties localSetting
                   (Store.HRef (length h))) after h2,
              Store.HRef (length h))).
  { unfold result, Store.mergeLocalStorage, Store.spread, Store.alloc.
    rewrite Hs, Hlocal. fold h1. rewrite fold_left_app. cbn [fold_left].
    fold reached. now rewrite Hstep. }
  rewrite Hresult. cbn [fst snd].
  set (h3 := fold_left _ after h2) in *.
  assert (H3lk : h3 !! lk = Some (Store.CObj (assoc_set k2 merged qs)))
    by (rewrite Hsame3 by lia; assumption).
  assert (H3s : h3 !! s = Some (Store.CObj ps))
    by (rewrite Hsame3 by lia; assumption).
  split.
  - rewrite (objectGet_nested h3 s lk k k2 ps _ H3s Hflat Hk H3lk).
    now rewrite JSFacts.assoc_get_set_same.
  - rewrite (objectGet_nested h3 (length h) lk k k2 ps3 _ Hc3 Hflat3 Hk3 H3lk).
    now rewrite JSFacts.assoc_get_set_same.
Qed.

Lemma top_level_merge_leaves_caller_untouched_witness :
  let result :=
    Store.mergeLocalStorage [["MicrosoftAppPassword"]] [] exampleHeap
      (Store.HRef 3) (Store.HRef 1) in
  snd result = Store.HRef 4
  /\ fst result !! 1 = exampleHeap !! 1.
Proof.
  destruct (top_level_merge_leaves_caller_untouched
              [["MicrosoftAppPassword"]] [] exampleHeap (Store.HRef 3)
              (Store.HRef 1) ltac:(repeat constructor)) as (Href & _ & Hsame).
  split; [exact Href|]. apply Hsame. simpl. lia.
Defined.

Lemma nested_merge_writes_through_witness :
  Store.objectGet
    (fst (Store.mergeLocalStorage exampleSensitive exampleRootManaged
            exampleHeap (Store.HRef 3) (Store.HRef 1)))
    (Store.HRef 1) ["qna"; "endpointKey"]
  = Store.HStr "local-endpoint".
Proof.
  refine (proj1 (nested_merge_writes_through exampleRootManaged
                   exampleHeap (Store.HRef 3) 1 0 "qna" "endpointKey" _ _
                   [["MicrosoftAppPassword"]; ["luis"; "authoringKey"];
                    ["luis"; "endpointKey"]; ["qna"; "subscriptionKey"]] []
                   eq_refl eq_refl eq_refl ltac:(discriminate) eq_refl
                   eq_refl eq_refl _ _ eq_refl)).
  - simpl. intros [H|[H|[H|[]]]]; discriminate H.
  - simpl. intros p [<-|[<-|[<-|[<-|[]]]]] Hout.
    + exists "MicrosoftAppPassword". repeat split; discriminate.
    + exfalso. apply Hout. auto.
    + exfalso. apply Hout. auto.
    + exfalso. apply Hout. auto.
Defined.

End StoreTheorems.

(** ** What a loaded project holds *)
Module LoadedTheorems.
Import JS Exn Settings Loader ExnFacts Examples.
Local Open Scope outcome_scope.

Lemma mapResources_Returned make resources v :
  mapResources make resources = Returned v ->
  exists elems named,
    resources = VArr elems named
    /\ v = VArr (map (fun r => make (get_prop r "id") (get_prop r "content"))
                  elems) []
    /\ Forall (fun r => nullish r = false) elems.
Proof.
  unfold mapResources.
  destruct resources as [| | | | |elems named|]; try discriminate.
  intros H. apply bind_Returned_inv in H as (files & Hmap & H).
  injection H as <-. exists elems, named. split; [reflexivity|].
  apply mapM_Forall2 in Hmap.
  induction Hmap as [|r f elems files Hr _ [IHv IHn]]; [now split|].
  unfold coercible in Hr.
  destruct (nullish r) eqn:E; [discriminate|]. cbn [bind] in Hr.
  injection Hr as <-. split.
  - simpl. now injection IHv as ->.
  - now constructor.
Qed.

Section Theorems.
Variables SensitiveProperties RootBotManagedProperties : list path.
Variable convertSkillsToDictionary : value -> value.
Variable storage : gmap string value.
Variable indexer_index : value -> value -> outcome value.
Variable lgWorker_addProject : value -> outcome unit.
Variable BotIndexer_validate : value -> outcome value.

Local Abbreviation loadProjectData' :=
  (loadProjectData SensitiveProperties RootBotManagedProperties
     convertSkillsToDictionary storage indexer_index lgWorker_addProject
     BotIndexer_validate).

(** X22: the files of a project that [loadProjectData] returns hold
    the merged settings of the project; for each kind of resource, one
    placeholder file per resource that the indexer found, in order,
    with the id and the content of the resource and its content marked
    as unparsed; and, under every other name but [diagnostics], what
    the indexer returned. *)
Theorem loaded_project_holds_placeholders (data : value) (r : ProjectResult) :
  loadProjectData' data = Returned r ->
  exists indexed,
    indexer_index (get_prop data "files") (get_prop data "botName")
    = Returned indexed
    /\ get_prop (botFiles r) "mergedSettings"
       = getMergedSettings SensitiveProperties RootBotManagedProperties
           convertSkillsToDictionary storage
           (js_string (get_prop data "id")) (get_prop data "settings")
           (get_prop data "botName")
    /\ (forall files resources make,
          In (files, resources, make)
            [("lgFiles", "lgResources", emptyLgFile);
             ("luFiles", "luResources", emptyLuFile);
             ("qnaFiles", "qnaResources", emptyQnaFile)] ->
          exists elems named,
            get_prop indexed resources = VArr elems named
            /\ get_prop (botFiles r) files
               = VArr (map (fun resource =>
                              make (get_prop resource "id")
                                   (get_prop resource "content")) elems) []
            /\ Forall (fun file =>
                         get_prop file "isContentUnparsed" = VBool true)
                 (map (fun resource =>
                         make (get_prop resource "id")
                              (get_prop resource "content")) elems))
    /\ forall key,
         ~ In key ["lgFiles"; "luFiles"; "qnaFiles"; "mergedSettings";
                   "diagnostics"] ->
         get_prop (botFiles r) key = get_prop (spread indexed) key.
Proof.
  unfold loadProjectData. intros H.
  apply bind_Returned_inv in H as (? & _ & H).
  apply bind_Returned_inv in H as (indexed & Hindexed & H).
  apply bind_Returned_inv in H as (? & _ & H).
  apply bind_Returned_inv in H as (? & _ & H).
  apply bind_Returned_inv in H as (lgFiles & Hlg & H).
  apply bind_Returned_inv in H as (luFiles & Hlu & H).
  apply bind_Returned_inv in H as (qnaFiles & Hqna & H).
  apply bind_Returned_inv in H as (? & _ & H).
  apply bind_Returned_inv in H as (diagnostics & _ & H).
  injection H as <-. cbn [botFiles].
  exists indexed. split; [assumption|].
  destruct (isObject_spread indexed) as [ps Hps].
  rewrite Hps. cbn [set_prop spread get_prop].
  apply mapResources_Returned in Hlg as (lg & lgNamed & Hlg & -> & _).
  apply mapResources_Returned in Hlu as (lu & luNamed & Hlu & -> & _).
  apply mapResources_Returned in Hqna as (qna & qnaNamed & Hqna & -> & _).
  split; [|split].
  - now rewrite JSFacts.assoc_get_set_other, JSFacts.assoc_get_set_same
      by discriminate.
  - assert (Hunparsed : forall make elems,
      In make [emptyLgFile; emptyLuFile; emptyQnaFile] ->
      Forall (fun file => get_prop file "isContentUnparsed" = VBool true)
        (map (fun resource : value =>
                make (get_prop resource "id") (get_prop resource "content"))
           elems)).
    { intros make elems Hmake. apply List.Forall_forall.
      intros file Hfile. apply in_map_iff in Hfile as (resource & <- & _).
      destruct Hmake as [<-|[<-|[<-|[]]]]; reflexivity. }
    intros files resources make [Hin|[Hin|[Hin|[]]]];
      injection Hin as <- <- <-.
    + exists lg, lgNamed. split; [assumption|]. split.
      * now rewrite !JSFacts.assoc_get_set_other, JSFacts.assoc_get_set_same
          by discriminate.
      * apply Hunparsed. simpl. auto.
    + exists lu, luNamed. split; [assumption|]. split.
      * now rewrite !JSFacts.assoc_get_set_other, JSFacts.assoc_get_set_same
          by discriminate.
      * apply Hunparsed. simpl. auto.
    + exists qna, qnaNamed. split; [assumption|]. split.
      * now rewrite !JSFacts.assoc_get_set_other, JSFacts.assoc_get_set_same
          by discriminate.
      * apply Hunparsed. simpl. auto.
  - intros key Hkey.
    rewrite !JSFacts.assoc_get_set_other; [reflexivity|..];
      intros <-; apply Hkey; simpl; auto 10.
Qed.

End Theorems.

Lemma loaded_project_holds_placeholders_witness :
  exists r,
    loadProjectData exampleSensitive exampleRootManaged exampleConvert
      exampleStorage exampleIndexer exampleAddProject exampleValidate
      (get_prop exampleResponse "data") = Returned r
    /\ get_prop (botFiles r) "botProjectSpaceFiles"
       = VArr [VObj [("id", VStr "EchoBot")]] [].
Proof.
  destruct (loadProjectData exampleSensitive exampleRootManaged exampleConvert
              exampleStorage exampleIndexer exampleAddProject exampleValidate
              (get_prop exampleResponse "data")) as [r|ex] eqn:E;
    [|vm_compute in E; discriminate E].
  exists r. split; [reflexivity|].
  destruct (loaded_project_holds_placeholders _ _ _ _ _ _ _ _ _ E)
    as (indexed & Hindexed & _ & _ & Hrest).
  injection Hindexed as <-.
  apply (Hrest "botProjectSpaceFiles").
  simpl. intros [H|[H|[H|[H|[H|[]]]]]]; discriminate.
Defined.

End LoadedTheorems.

(** ** The atoms that the skill-tree opener leaves alone *)
Module PlaceholderTheorems.
Import JS Exn Recoil SkillTree SkillTreeFacts Placeholders Examples.

(** The entries of a project in the four atom families. *)
Local Abbreviation entries a projectId :=
  (projectMetaDataState a !! projectId, botDisplayNameState a !! projectId,
   botNameIdentifierState a !! projectId, botErrorState a !! projectId).

(** The atoms that are not indexed by a project. *)
Local Abbreviation scalars a :=
  (currentProjectIdState a, warnAboutDotNetState a, warnAboutFunctionsState a).





Section Theorems.
Variable path_join : string -> string -> string.
Variable camelCase : string -> string.


End Theorems.


End PlaceholderTheorems.

(** ** The order in which the loads settle *)
Module OrderTheorems.
Import JS Exn Recoil SkillTree SkillTreeFacts Examples.

Local Abbreviation names l := (map nameIdentifier l).

(** The loads that none of the events settles. *)
Local Abbreviation unsettled events :=
  (fun s : pendingSkill =>
     negb (existsb (String.eqb (nameIdentifier s))
             (map fst (events : list (string * settlement))))).

Lemma filter_all {A} (f : A -> bool) l :
  (forall x, In x l -> f x = true) -> List.filter f l = l.
Proof.
  induction l as [|a l IH]; intros H; [reflexivity|].
  simpl. rewrite H by now left. f_equal. apply IH. intros x Hx. apply H.
  now right.
Qed.

Lemma filter_twice {A} (f g : A -> bool) l :
  List.filter g (List.filter f l) = List.filter (fun x => f x && g x) l.
Proof.
  induction l as [|a l IH]; [reflexivity|].
  simpl. destruct (f a); simpl; [destruct (g a)|]; now rewrite IH.
Qed.

Lemma names_filter (f : pendingSkill -> bool) l n :
  In n (names (List.filter f l)) -> In n (names l).
Proof.
  rewrite !in_map_iff. intros (s & <- & Hs). apply filter_In in Hs as [Hs _].
  eauto.
Qed.

Lemma NoDup_names_filter (f : pendingSkill -> bool) l :
  List.NoDup (names l) -> List.NoDup (names (List.filter f l)).
Proof.
  induction l as [|a l IH]; intros H; [assumption|].
  inversion H as [|? ? Ha Hl]; subst. simpl.
  destruct (f a); [|auto]. simpl. constructor; [|auto].
  intros Hin. apply Ha. eapply names_filter. eassumption.
Qed.

Lemma take_filter name l : forall s r,
  List.NoDup (names l) -> take name l = Some (s, r) ->
  r = List.filter (fun x => negb (named name x)) l.
Proof.
  induction l as [|a l IH]; intros s r Hnd; simpl; [discriminate|].
  inversion Hnd as [|? ? Ha Hl]; subst.
  destruct (named name a) eqn:E.
  - intros [= <- <-]. simpl. symmetry. apply filter_all.
    intros x Hx. apply negb_true_iff. unfold named in *.
    apply String.eqb_eq in E. subst name.
    destruct (String.eqb_spec (nameIdentifier a) (nameIdentifier x)) as [Heq|];
      [|reflexivity].
    exfalso. apply Ha. rewrite Heq. now apply in_map.
  - destruct (take name l) as [[x r']|] eqn:Et; [|discriminate].
    intros [= <- <-]. simpl. f_equal. eapply IH; eauto.
Qed.

Lemma unsettled_cons e events s :
  unsettled (e :: events) s
  = negb (named (fst e) s) && unsettled events s.
Proof.
  unfold named. simpl. now rewrite negb_orb, String.eqb_sym.
Qed.

Lemma existsb_same (f : string -> bool) l l' :
  (forall n, In n l' <-> In n l) -> existsb f l' = existsb f l.
Proof.
  intros H. destruct (existsb f l) eqn:E.
  - apply existsb_exists in E as (n & Hn & Hf).
    apply existsb_exists. exists n. split; [now apply H|assumption].
  - destruct (existsb f l') eqn:E'; [|reflexivity].
    apply existsb_exists in E' as (n & Hn & Hf).
    rewrite <- E. symmetry. apply existsb_exists. exists n.
    split; [now apply H|assumption].
Qed.

(** A run is accepted exactly when it settles loads in flight, each
    once; the loads it leaves in flight are the others. *)
Lemma run_pending events : forall m m',
  List.NoDup (names (pending m)) -> run m events = Some m' ->
  pending m' = List.filter (unsettled events) (pending m)
  /\ List.NoDup (map fst events)
  /\ (forall n, In n (map fst events) -> In n (names (pending m))).
Proof.
  induction events as [|e events IH]; intros m m' Hnd; simpl.
  - intros [= <-]. split; [|split].
    + symmetry. now apply filter_all.
    + constructor.
    + intros n [].
  - unfold step.
    destruct (take (fst e) (pending m)) as [[skill others]|] eqn:Et;
      [|discriminate].
    intros Hrun.
    pose proof (take_filter _ _ _ _ Hnd Et) as Hothers.
    destruct (take_Some _ _ _ _ Et) as (Hname & Hin & _ & _).
    assert (Hnd' : List.NoDup (names others))
      by (rewrite Hothers; now apply NoDup_names_filter).
    destruct (IH {| recoil := settle skill (recoil m) (snd e);
                    pending := others |} m' Hnd' Hrun)
      as (Hpending & Hnames & Hsub).
    cbn [pending] in *. split; [|split].
    + rewrite Hpending, Hothers, filter_twice.
      apply List.filter_ext. intros s. symmetry. apply unsettled_cons.
    + constructor; [|assumption]. intros Hdup.
      apply Hsub in Hdup. rewrite Hothers in Hdup.
      apply in_map_iff in Hdup as (s & Hs & Hfilter).
      apply filter_In in Hfilter as [_ Hno]. unfold named in Hno.
      rewrite Hs, String.eqb_refl in Hno. discriminate.
    + intros n [<-|Hn].
      * rewrite <- Hname. now apply in_map.
      * apply Hsub in Hn. rewrite Hothers in Hn.
        eapply names_filter. eassumption.
Qed.

Lemma run_accepted events : forall m,
  List.NoDup (names (pending m)) -> List.NoDup (map fst events) ->
  (forall n, In n (map fst events) -> In n (names (pending m))) ->
  is_Some (run m events).
Proof.
  induction events as [|e events IH]; intros m Hnd Hnames Hsub; simpl;
    [eauto|].
  inversion Hnames as [|? ? He Hrest]; subst.
  unfold step.
  destruct (take (fst e) (pending m)) as [[skill others]|] eqn:Et.
  - pose proof (take_filter _ _ _ _ Hnd Et) as Hothers.
    apply IH; cbn [pending].
    + rewrite Hothers. now apply NoDup_names_filter.
    + assumption.
    + intros n Hn. rewrite Hothers.
      assert (Hin : In n (names (pending m))) by (apply Hsub; now right).
      apply in_map_iff in Hin as (s & <- & Hs).
      apply in_map, filter_In. split; [assumption|].
      apply negb_true_iff. unfold named.
      destruct (String.eqb_spec (fst e) (nameIdentifier s)) as [Heq|];
        [|reflexivity].
      exfalso. apply He. now rewrite Heq.
  - apply take_None in Et. exfalso. apply Et, Hsub. now left.
Qed.

Lemma run_collected events : forall m m',
  run m events = Some m' ->
  botProjectIdsState (recoil m')
  = botProjectIdsState (recoil m)
    ++ flat_map (fun e => collected (snd e)) events.
Proof.
  induction events as [|e events IH]; intros m m'; simpl.
  - intros [= <-]. now rewrite app_nil_r.
  - destruct (step m e) as [m1|] eqn:E; [|discriminate]. intros Hrun.
    rewrite (IH _ _ Hrun). unfold step in E.
    destruct (take (fst e) (pending m)) as [[skill others]|]; [|discriminate].
    injection E as <-. cbn [recoil].
    now rewrite settle_ids, <- app_assoc.
Qed.

Section Theorems.
Variable path_join : string -> string -> string.
Variable camelCase : string -> string.

Lemma started_names root location storageId total skills :
  List.NoDup (map fst skills) ->
  List.NoDup
    (names (omap (startSkill path_join root location storageId total) skills)).
Proof.
  induction skills as [|e skills IH]; intros H; [constructor|].
  inversion H as [|? ? He Hrest]; subst.
  rewrite omap_cons.
  destruct (startSkill path_join root location storageId total e) as [p|]
    eqn:E; [|auto].
  simpl. constructor; [|auto].
  intros Hin. apply He.
  apply in_map_iff in Hin as (q & Hq & Hin).
  destruct (started_In path_join camelCase _ _ _ _ _ _ Hin)
    as (entry & Hentry & _ & Hname & _).
  destruct (startSkill_Some path_join _ _ _ _ _ _ E)
    as (_ & Hp & _).
  rewrite <- Hp, <- Hq, Hname. now apply in_map.
Qed.

(** X24: the order in which the loads of the skills settle does not
    matter.  The names of the skills of a bot-project file being
    distinct, when a sequence of settlements is accepted after
    [openRootBotAndSkills] has returned, the same settlements in any
    other order are accepted too, and they leave the same loads in
    flight, the same projects in the project space up to their order,
    and the same loaded flag, written as many times. *)
Theorem settlement_order_is_irrelevant
    (a : atoms) (root name location storageId : string)
    (skills : list (string * BotProjectSpaceSkill))
    (others : list (list (string * BotProjectSpaceSkill)))
    (events events' : list (string * settlement)) (m : machine) :
  NoDup (map fst skills) ->
  run (fst (openRootBotAndSkills path_join camelCase a root name location
              storageId (skills :: others))) events = Some m ->
  events ≡ₚ events' ->
  exists m',
    run (fst (openRootBotAndSkills path_join camelCase a root name location
                storageId (skills :: others))) events' = Some m'
    /\ pending m' = pending m
    /\ botProjectIdsState (recoil m') ≡ₚ botProjectIdsState (recoil m)
    /\ loadedWrites (recoil m') = loadedWrites (recoil m)
    /\ botProjectSpaceLoadedState (recoil m')
       = botProjectSpaceLoadedState (recoil m).
Proof.
  intros Hskills Hrun Hperm.
  apply NoDup_ListNoDup in Hskills.
  set (started := fst (openRootBotAndSkills path_join camelCase a root name
                         location storageId (skills :: others))) in *.
  destruct skills as [|entry skills].
  { (* no skill: nothing is in flight *)
    destruct events as [|e events]; [|discriminate Hrun].
    apply Permutation_nil in Hperm as ->. exists m. auto. }
  destruct (openRootBotAndSkills_started path_join camelCase a root name
              location storageId (entry :: skills) others ltac:(discriminate))
    as (Hpending & _ & Htracked).
  fold started in Hpending, Htracked.
  assert (Hnd : List.NoDup (names (pending started)))
    by (rewrite Hpending; now apply started_names).
  destruct (run_pending _ _ _ Hnd Hrun) as (Hleft & Hnames & Hsub).
  assert (Hsame : forall n, In n (map fst events') <-> In n (map fst events)).
  { intros n. rewrite <- !list_elem_of_In.
    now rewrite <- (Permutation_map fst Hperm). }
  destruct (run_accepted events' started Hnd) as [m' Hrun'].
  { apply NoDup_ListNoDup. rewrite <- (Permutation_map fst Hperm).
    now apply NoDup_ListNoDup. }
  { intros n Hn. now apply Hsub, Hsame. }
  exists m'. split; [assumption|].
  destruct (run_pending _ _ _ Hnd Hrun') as (Hleft' & _ & _).
  split.
  { rewrite Hleft, Hleft'. apply List.filter_ext. intros s.
    f_equal. now apply existsb_same. }
  assert (Hids : botProjectIdsState (recoil m')
                 ≡ₚ botProjectIdsState (recoil m)).
  { rewrite (run_collected _ _ _ Hrun), (run_collected _ _ _ Hrun').
    apply Permutation_app_head.
    now rewrite (Permutation_flat_map (fun e => collected (snd e)) Hperm). }
  split; [assumption|].
  destruct (run_tracked _ _ _ _ _ _ Htracked Hrun) as ((_ & Hw & Hf) & _).
  destruct (run_tracked _ _ _ _ _ _ Htracked Hrun') as ((_ & Hw' & Hf') & _).
  rewrite Hw, Hw', Hf, Hf'.
  now rewrite (Permutation_length Hids).
Qed.

End Theorems.

Lemma settlement_order_is_irrelevant_witness :
  exists m',
    run (fst (openRootBotAndSkills examplePathJoin exampleCamelCase
                exampleAtoms "root" "Root Bot" "/bots/root" "default"
                [exampleSkills]))
      [("echo", Fulfilled "echo-1" VUndefined None);
       ("weather", Rejected (VStr "offline") "generated-1")]
    = Some m'
    /\ pending m' = []
    /\ loadedWrites (recoil m') = 1.
Proof.
  destruct (run (fst (openRootBotAndSkills examplePathJoin exampleCamelCase
                        exampleAtoms "root" "Root Bot" "/bots/root" "default"
                        [exampleSkills]))
              [("weather", Rejected (VStr "offline") "generated-1");
               ("echo", Fulfilled "echo-1" VUndefined None)])
    as [m|] eqn:E; [|vm_compute in E; discriminate E].
  assert (Hnames : NoDup (map fst exampleSkills)).
  { apply NoDup_ListNoDup. constructor; [simpl; intros [H|[]]; discriminate|].
    constructor; [simpl; tauto|constructor]. }
  destruct (settlement_order_is_irrelevant examplePathJoin exampleCamelCase
              exampleAtoms "root" "Root Bot" "/bots/root" "default"
              exampleSkills [] _
              [("echo", Fulfilled "echo-1" VUndefined None);
               ("weather", Rejected (VStr "offline") "generated-1")]
              m Hnames E
              ltac:(apply perm_swap))
    as (m' & Hrun' & Hpending & _ & Hwrites & _).
  exists m'. split; [exact Hrun'|].
  vm_compute in E. injection E as <-.
  split; [exact Hpending|exact Hwrites].
Defined.

End OrderTheorems.
